(** * mp4_to_wav: the conversion core, embedded and verified

    A shallow embedding of [converter/utils.py], [converter/core.py]
    (class [VideoToAudioConverter]) and [converter/cli.py], and the
    properties of the discovery, path-resolution, single-file conversion,
    batch and command-line code.

    Conventions.
    - Python [str] is [string]; paths follow the POSIX flavour of
      [os.path] and [pathlib].  [str.lower] is modelled on ASCII letters.
    - A Python [dict] with string keys is a [gmap string pyval]; a Python
      [set] of strings is a [gset string].
    - Python [list] objects are mutable and shared by reference: a list value
      is an address into the heap of the [World].
    - What the code does to the outside world (moviepy, the file system, the
      caller's progress callback) is recorded in a trace of events, and what
      the outside world answers is an [Env], over which theorems quantify. *)

From Stdlib Require Import Ascii ZArith.
From stdpp Require Import base option list sorting gmap strings.
From stdpp Require Import pretty.

Set Warnings "-register-all,-clear-no-such-hyp".

Local Open Scope Z_scope.
Local Open Scope nat_scope.

(* ===================================================================== *)
(** * Strings *)
(* ===================================================================== *)

Module Str.

Definition is_empty (s : string) : bool :=
  match s with "" => true | _ => false end.

(** [s.startswith(c)] for a one-character [c]. *)
Definition startswith (c : ascii) (s : string) : bool :=
  match s with String a _ => Ascii.eqb a c | "" => false end.

(** [s.endswith(c)] for a one-character [c]. *)
Fixpoint endswith (c : ascii) (s : string) : bool :=
  match s with
  | "" => false
  | String a "" => Ascii.eqb a c
  | String _ s' => endswith c s'
  end.

(** [s.rfind(c)] as a split: [Some (s[:i], s[i+1:])] when the last
    occurrence of [c] is at index [i], [None] when [rfind] gives -1. *)
Fixpoint rsplit (c : ascii) (s : string) : option (string * string) :=
  match s with
  | "" => None
  | String a s' =>
      match rsplit c s' with
      | Some (b, t) => Some (String a b, t)
      | None => if Ascii.eqb a c then Some ("", s') else None
      end
  end.

(** [s.split(c)]. *)
Fixpoint split (c : ascii) (s : string) : list string :=
  match s with
  | "" => [""]
  | String a s' =>
      if Ascii.eqb a c then "" :: split c s'
      else match split c s' with
           | x :: xs => String a x :: xs
           | [] => [String a ""]
           end
  end.

(** [c.join(l)]. *)
Fixpoint join (c : ascii) (l : list string) : string :=
  match l with
  | [] => ""
  | [x] => x
  | x :: xs => x +:+ String c (join c xs)
  end.

(** [s.rstrip(c)]. *)
Fixpoint rstrip (c : ascii) (s : string) : string :=
  match s with
  | "" => ""
  | String a s' =>
      match rstrip c s' with
      | "" => if Ascii.eqb a c then "" else String a ""
      | r => String a r
      end
  end.

(** [s == c * len(s)]. *)
Fixpoint all_char (c : ascii) (s : string) : bool :=
  match s with
  | "" => true
  | String a s' => Ascii.eqb a c && all_char c s'
  end.

Definition lower_ascii (a : ascii) : ascii :=
  let n := nat_of_ascii a in
  if (65 <=? n) && (n <=? 90) then ascii_of_nat (n + 32) else a.

(** [s.lower()], on ASCII letters. *)
Fixpoint lower (s : string) : string :=
  match s with
  | "" => ""
  | String a s' => String (lower_ascii a) (lower s')
  end.

Fixpoint contains (c : ascii) (s : string) : bool :=
  match s with
  | "" => false
  | String a s' => Ascii.eqb a c || contains c s'
  end.

End Str.

Definition sep : ascii := "/"%char.
Definition dot : ascii := "."%char.

(* ===================================================================== *)
(** * [os.path] (posixpath) *)
(* ===================================================================== *)

Module os_path.

(** [os.path.join(a, b)]: an absolute [b] replaces [a]; otherwise [b] is
    appended, after a separator unless [a] is empty or ends with one. *)
Definition join (a b : string) : string :=
  if Str.startswith sep b then b
  else if Str.is_empty a || Str.endswith sep a then a +:+ b
  else a +:+ String sep b.

(** [os.path.dirname(p)]: everything up to the last separator, with the
    trailing separators removed unless the head is all separators. *)
Definition dirname (p : string) : string :=
  match Str.rsplit sep p with
  | None => ""
  | Some (b, _) =>
      let head := b +:+ String sep "" in
      if Str.all_char sep head then head else Str.rstrip sep head
  end.

(** [os.path.basename(p)]: what follows the last separator. *)
Definition basename (p : string) : string :=
  match Str.rsplit sep p with
  | None => p
  | Some (_, t) => t
  end.

End os_path.

(* ===================================================================== *)
(** * [pathlib.Path] (PurePosixPath) *)
(* ===================================================================== *)

Module Path.

(** A parsed path: its root ([""], ["/"] or ["//"]) and its components. *)
Record t := mk { root : string; tail : list string }.

(** [posixpath.splitroot]. *)
Definition splitroot (p : string) : string * string :=
  match p with
  | String a (String b (String c r)) =>
      if Ascii.eqb a sep then
        if Ascii.eqb b sep then
          if Ascii.eqb c sep then ("/", String b (String c r))
          else ("//", String c r)
        else ("/", String b (String c r))
      else ("", p)
  | String a (String b "") =>
      if Ascii.eqb a sep then
        if Ascii.eqb b sep then ("//", "") else ("/", String b "")
      else ("", p)
  | String a "" => if Ascii.eqb a sep then ("/", "") else ("", p)
  | "" => ("", "")
  end.

Definition keep_part (x : string) : bool :=
  negb (Str.is_empty x) && negb (String.eqb x ".").

(** [Path(p)]: empty components and ["."] components are dropped. *)
Definition parse (p : string) : t :=
  let '(r, rel) := splitroot p in
  mk r (List.filter keep_part (Str.split sep rel)).

(** [path.name]: the final component, [""] when there is none. *)
Definition name (p : t) : string := List.last (tail p) "".

(** [path.suffix]: with [i = name.rfind('.')], [name[i:]] when
    [0 < i < len(name) - 1], else [""]. *)
Definition suffix (p : t) : string :=
  match Str.rsplit dot (name p) with
  | Some (b, e) =>
      if negb (Str.is_empty b) && negb (Str.is_empty e) then String dot e
      else ""
  | None => ""
  end.

(** [path.stem]: [name[:i]] under the same condition, else [name]. *)
Definition stem (p : t) : string :=
  match Str.rsplit dot (name p) with
  | Some (b, e) =>
      if negb (Str.is_empty b) && negb (Str.is_empty e) then b
      else name p
  | None => name p
  end.

(** [path.parent]: the path without its final component; a path with no
    component is its own parent. *)
Definition parent (p : t) : t :=
  match tail p with
  | [] => p
  | _ => mk (root p) (List.removelast (tail p))
  end.

(** [str(path)], which [os.fspath] and so [os.path.join] use. *)
Definition to_str (p : t) : string :=
  let s := root p +:+ Str.join sep (tail p) in
  if Str.is_empty s then "." else s.

End Path.

(* ===================================================================== *)
(** * utils.py: supported formats and file discovery *)
(* ===================================================================== *)

(** [SUPPORTED_VIDEO_FORMATS] *)
Definition SUPPORTED_VIDEO_FORMATS : gset string :=
  {[ ".mp4"; ".avi"; ".mov"; ".mkv"; ".flv"; ".wmv"; ".m4v"; ".3gp" ]}.

(** [validate_file_extension(file_path)], with the default format set. *)
Definition validate_file_extension (file_path : string) : bool :=
  let file_ext := Str.lower (Path.suffix (Path.parse file_path)) in
  bool_decide (file_ext ∈ SUPPORTED_VIDEO_FORMATS).

(** What a path names: a regular file of some size, or a directory with its
    entries in the order [os.scandir] lists them. *)
Inductive node :=
| File (st_size : Z)
| Dir (st_size : Z) (entries : list (string * node)).

Definition is_dir (n : node) : bool :=
  match n with Dir _ _ => true | File _ => false end.

(** [os.stat(p).st_size] *)
Definition st_size (n : node) : Z :=
  match n with File z => z | Dir z _ => z end.

(** A file system, as the code sees it: what each path string names. *)
Definition FileSystem := string → option node.

(** [os.path.exists(p)] in a given file system. *)
Definition exists_in (f : FileSystem) (p : string) : bool :=
  match f p with Some _ => true | None => false end.

(** [os.walk(top)], top-down: the triple [(top, dirs, files)] of a directory,
    then the walks of its sub-directories.  Walking something that is not a
    directory yields nothing. *)
Fixpoint os_walk (top : string) (n : node)
  : list (string * list string * list string) :=
  match n with
  | File _ => []
  | Dir _ entries =>
      (top,
       (List.filter (λ e, is_dir e.2) entries).*1,
       (List.filter (λ e, negb (is_dir e.2)) entries).*1)
      :: List.flat_map (λ e, os_walk (os_path.join top e.1) e.2) entries
  end.

(** [get_video_files_from_directory(directory)]: the two nested loops that
    append to [video_files], then [sorted]. *)
Definition collect_video_files
    (walk : list (string * list string * list string)) : list string :=
  foldl (λ video_files '(root, _, files),
           foldl (λ video_files file,
                    let file_path := os_path.join root file in
                    if validate_file_extension file_path
                    then video_files ++ [file_path]
                    else video_files)
                 video_files files)
        [] walk.

Definition get_video_files_from_directory (fs : FileSystem) (directory : string)
  : list string :=
  match fs directory with
  | None => []
  | Some n => merge_sort String.le (collect_video_files (os_walk directory n))
  end.

(** The regular files below a directory, by full path: what "the files of
    the tree" means, independently of how [os.walk] groups them. *)
Fixpoint tree_files (top : string) (n : node) : list string :=
  match n with
  | File _ => []
  | Dir _ entries =>
      List.flat_map (λ e, match e.2 with
                          | File _ => [os_path.join top e.1]
                          | Dir _ _ => tree_files (os_path.join top e.1) e.2
                          end) entries
  end.

(** The same tree listed in another order: [os.scandir] promises no order,
    so two runs over an unchanged tree may see any two such listings. *)
Inductive node_equiv : node → node → Prop :=
| equiv_file s : node_equiv (File s) (File s)
| equiv_dir z es es' :
    entries_equiv es es' → node_equiv (Dir z es) (Dir z es')
with entries_equiv : list (string * node) → list (string * node) → Prop :=
| equiv_nil : entries_equiv [] []
| equiv_skip x n n' l l' :
    node_equiv n n' → entries_equiv l l' →
    entries_equiv ((x, n) :: l) ((x, n') :: l')
| equiv_swap a b l l' :
    entries_equiv l l' → entries_equiv (a :: b :: l) (b :: a :: l')
| equiv_trans l1 l2 l3 :
    entries_equiv l1 l2 → entries_equiv l2 l3 → entries_equiv l1 l3.

Scheme node_equiv_mut := Minimality for node_equiv Sort Prop
  with entries_equiv_mut := Minimality for entries_equiv Sort Prop.

(* ===================================================================== *)
(** * Python values, exceptions, and the world the converter runs in *)
(* ===================================================================== *)

(** The exceptions the model tells apart; [except Exception] catches each. *)
Inductive exn :=
| TypeError (msg : string)
| AttributeError (msg : string)
| OSError (msg : string)
| OtherError (msg : string).

(** The values an [audio_params] dict or a progress call carries.  A list is
    a reference to a list object in the heap. *)
Inductive pyval :=
| PNone
| PBool (b : bool)
| PInt (z : Z)
| PStr (s : string)
| PList (addr : nat).

#[global] Instance exn_eq_dec : EqDecision exn.
Proof. solve_decision. Defined.
#[global] Instance pyval_eq_dec : EqDecision pyval.
Proof. solve_decision. Defined.
#[global] Instance pyval_inhabited : Inhabited pyval := populate PNone.

Abbreviation dict := (gmap string pyval).
Abbreviation Heap := (gmap nat (list pyval)).

(** An open [VideoFileClip]: the media handle. *)
Record Clip := mkClip {
  clip_id : nat;
  clip_path : string;
  clip_audio : bool;              (* [clip.audio is not None] *)
  clip_duration : option Z;       (* [clip.duration], [None] when unknown *)
}.

Inductive Level := Info | Warning | Error.

(** The messages of [self.logger], by their format strings. *)
Inductive LogMsg :=
| FileNotFound (input_path : string)            (* 文件不存在 *)
| UnsupportedFormat (input_path : string)       (* 不支持的视频格式 *)
| CannotCreateDir (output_path : string)        (* 无法创建输出目录 *)
| StartConvert (input_path output_path : string) (* 开始转换 *)
| OutputExists (output_path : string)           (* 输出文件已存在，将被覆盖 *)
| NoAudioTrack (input_path : string)            (* 视频文件没有音频轨道 *)
| Converted (output_path : string)              (* 转换完成 *)
| OutputInvalid (output_path : string)          (* 转换失败，输出文件无效 *)
| ConvertFailed (input_path : string) (e : exn) (* 转换失败 {input_path}: {e} *)
| InputDirMissing (input_dir : string)          (* 输入目录不存在 *)
| NoVideoFound (input_dir : string)             (* 在目录中未找到支持的视频文件 *)
| FoundFiles (n : nat)                          (* 找到 {n} 个视频文件 *)
| Processing (i total : nat) (name : string)    (* 正在处理 ({i}/{total}) *)
| BatchDone (success total : nat)               (* 批量转换完成 *)
| Stopped                                       (* 转换已停止 *)
| StopError (e : exn).                          (* 停止转换时出错 *)

(** What the converter did to its collaborators, with what they answered. *)
Inductive Event :=
| EvLog (level : Level) (msg : LogMsg)
| EvMakedirs (d : string) (ok : bool)
| EvOpen (path : string) (r : exn + Clip)        (* [VideoFileClip(path)] *)
| EvClose (c : Clip) (r : option exn)            (* [c.close()] *)
| EvTranscode (c : Clip) (output_path : string) (kw : dict) (h : Heap)
              (r : option exn)     (* [c.audio.write_audiofile(path, **kw)] *)
| EvSink (kw : dict) (r : option exn)   (* the caller's sink, called with kw *)
| EvStop.                          (* [stop_conversion()] called in flight *)

Record World := mkWorld {
  current_clip : option Clip;      (* [self.current_clip] *)
  fs : FileSystem;
  heap : Heap;                     (* the list objects *)
  next_id : nat;                   (* identifier of the next clip opened *)
  trace : list Event;              (* most recent event first *)
}.

(** What one call of [write_audiofile] does: whether a stop request arrives
    while it runs, whether it raises, and the file system it leaves. *)
Record transcode_outcome := mkOutcome {
  t_stop : bool;
  t_exn : option exn;
  t_fs : FileSystem;
}.

(** The collaborators: the operating system and moviepy. *)
Record Env := mkEnv {
  (** [os.makedirs(d, exist_ok=True)]: the new file system, or a failure *)
  env_makedirs : string → FileSystem → option FileSystem;
  (** [VideoFileClip(path)]: raises, or opens a clip (has audio, duration) *)
  env_VideoFileClip : string → FileSystem → exn + (bool * option Z);
  (** [clip.close()], given what happened so far: raises or not *)
  env_close : Clip → list Event → option exn;
  (** [clip.audio.write_audiofile(output_path, **kw)] *)
  env_write_audiofile : Clip → string → dict → Heap → FileSystem → transcode_outcome;
  (** [os.path.relpath(path, start)], which consults the working directory *)
  env_relpath : string → string → string;
}.

(** ** The monad: state, and exceptions *)

Inductive Res (A : Type) :=
| Ret (a : A)
| Raise (e : exn).
Arguments Ret {A} a.
Arguments Raise {A} e.

Definition M (A : Type) : Type := World → Res A * World.

Definition ret {A} (a : A) : M A := λ w, (Ret a, w).
Definition raise {A} (e : exn) : M A := λ w, (Raise e, w).
Definition bind {A B} (m : M A) (k : A → M B) : M B :=
  λ w, match m w with
       | (Ret a, w') => k a w'
       | (Raise e, w') => (Raise e, w')
       end.
(** [try: m  except Exception as e: h e] *)
Definition try_except {A} (m : M A) (h : exn → M A) : M A :=
  λ w, match m w with
       | (Ret a, w') => (Ret a, w')
       | (Raise e, w') => h e w'
       end.

Notation "'let!' x := m 'in' k" := (bind m (λ x, k))
  (at level 10, x name, m at level 100, k at level 200,
   format "'[v' 'let!'  x  :=  m  'in' '/' k ']'").
Notation "m >> k" := (bind m (λ _, k))
  (at level 100, k at level 200, right associativity,
   format "'[v' m  >> '/' k ']'").

Definition when (b : bool) (m : M unit) : M unit := if b then m else ret tt.

Definition emit (e : Event) : M unit :=
  λ w, (Ret tt, mkWorld (current_clip w) (fs w) (heap w) (next_id w)
                        (e :: trace w)).
Definition log (l : Level) (m : LogMsg) : M unit := emit (EvLog l m).

Definition get_current_clip : M (option Clip) := λ w, (Ret (current_clip w), w).
Definition set_current_clip (c : option Clip) : M unit :=
  λ w, (Ret tt, mkWorld c (fs w) (heap w) (next_id w) (trace w)).
Definition set_fs (f : FileSystem) : M unit :=
  λ w, (Ret tt, mkWorld (current_clip w) f (heap w) (next_id w) (trace w)).
Definition set_heap (h : Heap) : M unit :=
  λ w, (Ret tt, mkWorld (current_clip w) (fs w) h (next_id w) (trace w)).

(* ===================================================================== *)
(** * The operating system and moviepy, as the converter calls them *)
(* ===================================================================== *)

Section Converter.

Variable E : Env.

(** [os.path.exists(p)] *)
Definition os_path_exists (p : string) : M bool :=
  λ w, (Ret (exists_in (fs w) p), w).

(** [os.path.getsize(p)]: raises [OSError] when nothing is there. *)
Definition os_path_getsize (p : string) : M Z :=
  λ w, match fs w p with
       | Some n => (Ret (st_size n), w)
       | None => (Raise (OSError "No such file or directory"), w)
       end.

(** [create_output_directory(output_path)] of utils.py: whatever
    [os.makedirs] raises is caught and turned into [False]. *)
Definition create_output_directory (output_path : string) : M bool :=
  let output_dir := os_path.dirname output_path in
  let! present := os_path_exists output_dir in
  if negb (Str.is_empty output_dir) && negb present then
    λ w, match env_makedirs E output_dir (fs w) with
         | Some fs' => (emit (EvMakedirs output_dir true) >>
                        set_fs fs' >>
                        ret true) w
         | None => (emit (EvMakedirs output_dir false) >>
                    ret false) w
         end
  else ret true.

(** [VideoFileClip(path)]: a fresh handle, or an exception. *)
Definition VideoFileClip (path : string) : M Clip :=
  λ w, match env_VideoFileClip E path (fs w) with
       | inl e => (emit (EvOpen path (inl e)) >> raise e) w
       | inr (audio, duration) =>
           let c := mkClip (next_id w) path audio duration in
           (Ret c, mkWorld (current_clip w) (fs w) (heap w)
                           (S (next_id w))
                           (EvOpen path (inr c) :: trace w))
       end.

(** [clip.close()] *)
Definition clip_close (c : Clip) : M unit :=
  λ w, let r := env_close E c (trace w) in
       (emit (EvClose c r) >>
        match r with Some e => raise e | None => ret tt end) w.

(** [VideoToAudioConverter.stop_conversion] *)
Definition stop_conversion : M unit :=
  let! current := get_current_clip in
  match current with
  | Some c =>
      try_except
        (clip_close c >>
         set_current_clip None >>
         log Info Stopped)
        (λ e, log Error (StopError e))
  | None => ret tt
  end.

(** [clip.audio.write_audiofile(output_path, **kw)].  It is the one
    blocking call, and so the point where a stop request issued from
    elsewhere takes effect: when one arrives, [stop_conversion] runs
    before the call returns or raises. *)
Definition write_audiofile (c : Clip) (output_path : string) (kw : dict)
  : M unit :=
  λ w, let o := env_write_audiofile E c output_path kw (heap w) (fs w) in
       (emit (EvTranscode c output_path kw (heap w) (t_exn o)) >>
        set_fs (t_fs o) >>
        when (t_stop o) (emit EvStop >> stop_conversion) >>
        match t_exn o with Some e => raise e | None => ret tt end) w.

(** ** Calling with keyword arguments *)

(** [f(k1=v1, ..., **kwargs)]: Python raises [TypeError] when a key of
    [kwargs] repeats an explicit keyword. *)
Definition py_call_kw (explicit kwargs : dict) : exn + dict :=
  if bool_decide ((dom explicit : gset string) ## dom kwargs)
  then inr (explicit ∪ kwargs)
  else inl (TypeError "got multiple values for keyword argument").

(** The keyword arguments that [convert_batch] puts on every progress
    call. *)
Definition batch_kw (i total_count : nat) (current_file : pyval)
    (phase : string) : dict :=
  {[ "file_index" := PInt (Z.of_nat i);
     "total_files" := PInt (Z.of_nat total_count);
     "current_file" := current_file;
     "phase" := PStr phase ]}.

(** A progress callback: the caller's sink, which may raise, or the closure
    [file_progress_callback] that [convert_batch] builds around the
    [progress_callback] it was given. *)
Inductive callable :=
| Sink (raises : dict → option exn)
| FileProgress (progress_callback : option callable)
               (i total_count : nat) (video_file : string).

(** Calling [f] with the keyword arguments [kw]. *)
Fixpoint invoke (f : callable) (kw : dict) : M unit :=
  match f with
  | Sink raises =>
      emit (EvSink kw (raises kw)) >>
      match raises kw with Some e => raise e | None => ret tt end
  | FileProgress progress_callback i total_count video_file =>
      (* def file_progress_callback( **kwargs ):
             if progress_callback:
                 progress_callback(file_index=i, total_files=total_count,
                     current_file=video_file, phase='converting', **kwargs) *)
      match progress_callback with
      | Some g =>
          match py_call_kw
                  (batch_kw i total_count (PStr video_file) "converting") kw
          with
          | inr kw' => invoke g kw'
          | inl e => raise e
          end
      | None => ret tt
      end
  end.

(** ** Lists in the heap *)

(** [[]]: a new list object. *)
Definition new_list (l : list pyval) : M nat :=
  λ w, let a := fresh (dom (heap w)) in
       (Ret a, mkWorld (current_clip w) (fs w) (<[a := l]> (heap w))
                       (next_id w) (trace w)).

(** [v.extend(items)]: in place on a list, [AttributeError] on the other
    values. *)
Definition py_extend (v : pyval) (items : list pyval) : M unit :=
  match v with
  | PList a =>
      λ w, (Ret tt, mkWorld (current_clip w) (fs w)
                            (<[a := heap w !!! a ++ items]> (heap w))
                            (next_id w) (trace w))
  | _ => raise (AttributeError "object has no attribute 'extend'")
  end.

(** [v == n] for an int [n]: [True == 1] and [False == 0] hold. *)
Definition py_eq_int (v : pyval) (n : Z) : bool :=
  match v with
  | PInt z => Z.eqb z n
  | PBool b => Z.eqb (if b then 1 else 0)%Z n
  | _ => false
  end.

(* =================================================================== *)
(** * core.py: [VideoToAudioConverter] *)
(* =================================================================== *)

(** [__init__]: no clip is current. *)
Definition init (fs0 : FileSystem) (heap0 : Heap) : World :=
  mkWorld None fs0 heap0 0 [].

(** [validate_input_file] *)
Definition validate_input_file (input_path : string) : M bool :=
  let! present := os_path_exists input_path in
  if negb present then
    log Error (FileNotFound input_path) >>
    ret false
  else if negb (validate_file_extension input_path) then
    log Error (UnsupportedFormat input_path) >>
    ret false
  else ret true.

(** [if output_dir:] on an [Optional[str]]: [None] and [""] are false. *)
Definition truthy (o : option string) : bool :=
  match o with Some d => negb (Str.is_empty d) | None => false end.

(** [generate_output_path] *)
Definition generate_output_path (input_path : string)
    (output_dir : option string) (output_format : string) : M string :=
  let input_file := Path.parse input_path in
  let output_filename := Path.stem input_file +:+ String dot output_format in
  if truthy output_dir then
    let d := default "" output_dir in
    create_output_directory (os_path.join d output_filename) >>
    ret (os_path.join d output_filename)
  else
    ret (os_path.join (Path.to_str (Path.parent input_file)) output_filename).

(** The keyword arguments of the two progress calls of
    [convert_single_file]. *)
Definition progress_kw (phase : string) (t duration : Z) : dict :=
  {[ "phase" := PStr phase; "t" := PInt t; "duration" := PInt duration ]}.

(** [video_clip.duration if video_clip.duration else 0] *)
Definition duration_or_0 (c : Clip) : Z :=
  match clip_duration c with
  | Some d => if (d =? 0)%Z then 0%Z else d
  | None => 0%Z
  end.

Definition supported_params : list string :=
  ["codec"; "fps"; "bitrate"; "nbytes"; "buffersize"; "ffmpeg_params";
   "write_logfile"].

(** Lines 153-174 of [convert_single_file]: the dict [default_params],
    from the defaults and the caller's [audio_params]. *)
Definition default_params (audio_params : option dict) : M dict :=
  let default_params : dict :=
    {[ "codec" := PStr "pcm_s16le"; "logger" := PNone ]} in
  match audio_params with
  | Some audio_params =>
      if bool_decide (audio_params = ∅) then ret default_params else
      let filtered_params : dict :=
        filter (λ kv, kv.1 ∈ supported_params) audio_params in
      (* default_params.update(filtered_params) *)
      let default_params := filtered_params ∪ default_params in
      match audio_params !! "channels" with
      | Some channels =>
          let! default_params :=
            match default_params !! "ffmpeg_params" with
            | None =>
                let! a := new_list [] in
                ret (<["ffmpeg_params" := PList a]> default_params)
            | Some _ => ret default_params
            end in
          if py_eq_int channels 1 then
            py_extend (default_params !!! "ffmpeg_params")
                      [PStr "-ac"; PStr "1"] >>
            ret default_params
          else if py_eq_int channels 2 then
            py_extend (default_params !!! "ffmpeg_params")
                      [PStr "-ac"; PStr "2"] >>
            ret default_params
          else ret default_params
      | None => ret default_params
      end
  | None => ret default_params
  end.

(** [convert_single_file] *)
Definition convert_single_file (input_path : string)
    (output_path : option string) (audio_params : option dict)
    (progress_callback : option callable) : M bool :=
  try_except
    (let! valid := validate_input_file input_path in
     if negb valid then ret false else
     let! output_path :=
       match output_path with
       | None => generate_output_path input_path None "wav"
       | Some p => ret p
       end in
     let! created := create_output_directory output_path in
     if negb created then
       log Error (CannotCreateDir output_path) >>
       ret false
     else
     log Info (StartConvert input_path output_path) >>
     let! present := os_path_exists output_path in
     when present (log Warning (OutputExists output_path)) >>
     let! video_clip := VideoFileClip input_path in
     set_current_clip (Some video_clip) >>
     if negb (clip_audio video_clip) then
       log Error (NoAudioTrack input_path) >>
       clip_close video_clip >>
       set_current_clip None >>
       ret false
     else
     let! default_params := default_params audio_params in
     let! default_params :=
       match progress_callback with
       | Some callback =>
           invoke callback
             (progress_kw "converting" 0 (duration_or_0 video_clip)) >>
           ret (<["logger" := PNone]> default_params)
       | None =>
           ret (<["logger" := PStr "bar"]> default_params)
       end in
     write_audiofile video_clip output_path default_params >>
     match progress_callback with
     | Some callback =>
         invoke callback
           (progress_kw "completed" (duration_or_0 video_clip)
                        (duration_or_0 video_clip))
     | None => ret tt
     end >>
     clip_close video_clip >>
     set_current_clip None >>
     let! present := os_path_exists output_path in
     let! nonempty :=
       if present then
         let! size := os_path_getsize output_path in
         ret (0 <? size)%Z
       else ret false in
     if nonempty then
       log Info (Converted output_path) >>
       ret true
     else
       log Error (OutputInvalid output_path) >>
       ret false)
    (λ e,
       log Error (ConvertFailed input_path e) >>
       let! current := get_current_clip in
       match current with
       | Some c =>
           try_except (clip_close c) (λ _, ret tt) >>
           set_current_clip None
       | None => ret tt
       end >>
       ret false).

(** The body of the [for] loop of [convert_batch], over the files that
    remain; [i] is the 1-based index of the first of them. *)
Fixpoint batch_loop (input_dir : string) (output_dir : option string)
    (audio_params : option dict) (progress_callback : option callable)
    (total_count : nat) (video_files : list string) (i : nat)
    (success_count : nat) : M nat :=
  match video_files with
  | [] => ret success_count
  | video_file :: rest =>
      log Info (Processing i total_count (os_path.basename video_file)) >>
      match progress_callback with
      | Some callback =>
          invoke callback
            (batch_kw i total_count (PStr video_file) "processing")
      | None => ret tt
      end >>
      let! output_path :=
        if truthy output_dir then
          let rel_path := env_relpath E video_file input_dir in
          generate_output_path rel_path
            (Some (os_path.join (default "" output_dir)
                                (os_path.dirname rel_path)))
            "wav"
        else generate_output_path video_file None "wav" in
      let file_progress_callback :=
        FileProgress progress_callback i total_count video_file in
      let! converted :=
        convert_single_file video_file (Some output_path) audio_params
                            (Some file_progress_callback) in
      let success_count :=
        if converted then S success_count else success_count in
      match progress_callback with
      | Some callback =>
          invoke callback
            (batch_kw i total_count (PStr video_file) "completed")
      | None => ret tt
      end >>
      batch_loop input_dir output_dir audio_params progress_callback
                 total_count rest (S i) success_count
  end.

(** [convert_batch] *)
Definition convert_batch (input_dir : string) (output_dir : option string)
    (audio_params : option dict) (progress_callback : option callable)
  : M (nat * nat) :=
  let! present := os_path_exists input_dir in
  if negb present then
    log Error (InputDirMissing input_dir) >>
    ret (0, 0)
  else
  let! video_files :=
    (λ w, (Ret (get_video_files_from_directory (fs w) input_dir), w)) in
  match video_files with
  | [] =>
      log Warning (NoVideoFound input_dir) >>
      ret (0, 0)
  | _ =>
      log Info (FoundFiles (length video_files)) >>
      let total_count := length video_files in
      let! success_count :=
        batch_loop input_dir output_dir audio_params progress_callback
                   total_count video_files 1 0 in
      log Info (BatchDone success_count total_count) >>
      match progress_callback with
      | Some callback =>
          invoke callback
            (<["success_count" := PInt (Z.of_nat success_count)]>
               (batch_kw total_count total_count PNone "finished"))
      | None => ret tt
      end >>
      ret (success_count, total_count)
  end.

End Converter.

(* ===================================================================== *)
(** * Definitions used to state the properties *)
(* ===================================================================== *)

(** ** File discovery *)

(** The full paths that [os.walk] hands to the inner loop. *)
Definition walk_paths (walk : list (string * list string * list string))
  : list string :=
  List.flat_map (λ '(root, _, files), map (os_path.join root) files) walk.

(** The paths [validate_file_extension] accepts. *)
Definition accepted (p : string) : Prop := validate_file_extension p = true.

#[global] Instance accepted_dec p : Decision (accepted p).
Proof. unfold accepted. apply _. Defined.

(** The files and the sub-directory walks of a listing. *)
Definition files_of (top : string) (es : list (string * node)) : list string :=
  map (os_path.join top) (List.filter (λ e, negb (is_dir e.2)) es).*1.
Definition subwalks (top : string) (es : list (string * node)) :=
  List.flat_map (λ e, os_walk (os_path.join top e.1) e.2) es.

(** A directory holding [a.mp4], [b.avi] and [c.txt], as two runs may list
    it. *)
Definition videos_dir : node :=
  Dir 4096 [("b.avi", File 20); ("c.txt", File 5); ("a.mp4", File 10)].
Definition videos_dir_relisted : node :=
  Dir 4096 [("c.txt", File 5); ("a.mp4", File 10); ("b.avi", File 20)].
Definition videos_fs (n : node) : FileSystem :=
  λ p, if String.eqb p "videos" then Some n else None.

(** ** Media handles *)

(** The handles held after a history: a handle is held from the moment
    [VideoFileClip] returns it until [close] is called on it. *)
Definition held_step (e : Event) (h : list nat) : list nat :=
  match e with
  | EvOpen _ (inr c) => clip_id c :: h
  | EvClose c _ => filter (λ i, i ≠ clip_id c) h
  | _ => h
  end.

Fixpoint held (tr : list Event) : list nat :=
  match tr with
  | [] => []
  | e :: tr' => held_step e (held tr')
  end.

(** At no point of the history was more than one handle held. *)
Fixpoint one_at_a_time (tr : list Event) : Prop :=
  match tr with
  | [] => True
  | e :: tr' => length (held (e :: tr')) ≤ 1 ∧ one_at_a_time tr'
  end.

(** The state of a converter between two calls: no clip is current, no
    handle is held, and none was ever held next to another. *)
Definition idle (w : World) : Prop :=
  current_clip w = None ∧ held (trace w) = [] ∧ one_at_a_time (trace w).

(** The events of the caller's sink. *)
Definition sinks (ks : list (dict * option exn)) : list Event :=
  map (λ k, EvSink k.1 k.2) ks.

(** An event that happened or not. *)
Definition perhaps (b : bool) (e : Event) : list Event :=
  if b then [e] else [].

Definition add_events (evs : list Event) (w : World) : World :=
  mkWorld (current_clip w) (fs w) (heap w) (next_id w) (evs ++ trace w).

Definition with_heap (h : Heap) (w : World) : World :=
  mkWorld (current_clip w) (fs w) h (next_id w) (trace w).

(** ** Reading a history *)

(** Calls of the caller's sink, and directory creations. *)
Definition is_sink (e : Event) : Prop :=
  match e with EvSink _ _ => True | _ => False end.
Definition is_mkdir (e : Event) : Prop :=
  match e with EvMakedirs _ _ => True | _ => False end.

(** Calls of the transcoder. *)
Definition is_transcode (e : Event) : Prop :=
  match e with EvTranscode _ _ _ _ _ => True | _ => False end.

(** The events that neither open nor close a handle, report no file of a
    batch and no conversion: calls of the sink, directory creations and the
    overwrite warning. *)
Definition minor (e : Event) : Prop :=
  match e with
  | EvSink _ _ | EvMakedirs _ _ | EvLog Warning _ => True
  | _ => False
  end.

(** The files a batch announced, most recent first: index, total, name. *)
Definition processing_of (e : Event) : option (nat * nat * string) :=
  match e with
  | EvLog Info (Processing i total name) => Some (i, total, name)
  | _ => None
  end.
Definition processed (tr : list Event) : list (nat * nat * string) :=
  omap processing_of tr.

(** The outputs reported as converted, most recent first. *)
Definition converted_of (e : Event) : option string :=
  match e with
  | EvLog Info (Converted output_path) => Some output_path
  | _ => None
  end.
Definition converted (tr : list Event) : list string :=
  omap converted_of tr.

(** The output path [convert_single_file] works with: the one given, or the
    sibling of the source with the [wav] extension. *)
Definition resolved_output (input_path : string) (output_path : option string)
  : string :=
  match output_path with
  | Some p => p
  | None =>
      os_path.join (Path.to_str (Path.parent (Path.parse input_path)))
                   (Path.stem (Path.parse input_path) +:+ String dot "wav")
  end.

(** The destination exists and has a size above zero. *)
Definition nonempty_file (f : FileSystem) (p : string) : Prop :=
  ∃ n, f p = Some n ∧ (0 < st_size n)%Z.

(** A caller of [convert_batch] that honours the contract of the progress
    sink: none, or one that never raises. *)
Definition quiet (progress_callback : option callable) : Prop :=
  match progress_callback with
  | None => True
  | Some (Sink raises) => ∀ kw, raises kw = None
  | Some (FileProgress _ _ _ _) => False
  end.

(** The worlds a converter can be in when one of its methods is called:
    after [__init__], after any earlier call has returned or raised, and
    after the file system or the heap changed in between. *)
Inductive reachable (E : Env) : World → Prop :=
| reach_init fs0 heap0 : reachable E (init fs0 heap0)
| reach_single w input_path output_path audio_params progress_callback :
    reachable E w →
    reachable E (convert_single_file E input_path output_path audio_params
                                     progress_callback w).2
| reach_batch w input_dir output_dir audio_params progress_callback :
    reachable E w →
    reachable E (convert_batch E input_dir output_dir audio_params
                               progress_callback w).2
| reach_stop w :
    reachable E w → reachable E (stop_conversion E w).2
| reach_output_path w input_path output_dir output_format :
    reachable E w →
    reachable E (generate_output_path E input_path output_dir
                                      output_format w).2
| reach_validate w input_path :
    reachable E w → reachable E (validate_input_file input_path w).2
| reach_outside w fs' heap' :
    reachable E w →
    reachable E (mkWorld (current_clip w) fs' heap' (next_id w) (trace w)).

(** ** The runs of [convert_single_file] *)

(** What calling the progress callback with [kw] does, wherever it is
    called: its result and the events of the sink.  No callback, no call. *)
Definition invoked (progress_callback : option callable) (kw : dict)
    (r : Res unit) (evs : list Event) : Prop :=
  match progress_callback with
  | Some f => ∀ w, invoke f kw w = (r, add_events evs w)
  | None => r = Ret tt ∧ evs = []
  end.

(** What building the parameters does on a heap [h]: its result and the
    heap it leaves. *)
Definition built (audio_params : option dict) (h : Heap) (r : Res dict)
    (h' : Heap) : Prop :=
  ∀ w, heap w = h → default_params audio_params w = (r, with_heap h' w).

(** The [logger] argument handed to [write_audiofile]. *)
Definition logger_for (progress_callback : option callable) : pyval :=
  match progress_callback with Some _ => PNone | None => PStr "bar" end.

(** A stop request during the transcode of clip [c], or none: whether it
    came, the current clip it leaves and the events of [stop_conversion]. *)
Inductive stopped (c : Clip) : bool → option Clip → list Event → Prop :=
| stop_none : stopped c false (Some c) []
| stop_closed :
    stopped c true None [EvLog Info Stopped; EvClose c None; EvStop]
| stop_close_failed e :
    stopped c true (Some c)
            [EvLog Error (StopError e); EvClose c (Some e); EvStop].

(** The [close] of the exception handler, on the current clip if any. *)
Definition cleanup (current : option Clip) (r : option exn) : list Event :=
  match current with Some c => [EvClose c r] | None => [] end.

Section Runs.

Variables (E : Env) (input_path output_path : string).
Variables (audio_params : option dict) (progress_callback : option callable).
Variable w : World.

(** The input is valid and the output directory is there: [f1] is the
    file system and [mk] the events after [create_output_directory]. *)
Definition prepared (f1 : FileSystem) (mk : list Event) : Prop :=
  exists_in (fs w) input_path = true ∧
  validate_file_extension input_path = true ∧
  create_output_directory E output_path w
  = (Ret true, mkWorld (current_clip w) f1 (heap w) (next_id w)
                       (mk ++ trace w)) ∧
  Forall is_mkdir mk.

(** The events up to the call of [VideoFileClip]. *)
Definition started (f1 : FileSystem) (mk : list Event) : list Event :=
  perhaps (exists_in f1 output_path) (EvLog Warning (OutputExists output_path))
  ++ EvLog Info (StartConvert input_path output_path) :: mk.

(** The events up to the return of [write_audiofile]: the clip [c] was
    opened, the parameters [dp] built, the callback called ([cb1]), the
    transcoder called, raising or not ([r]), during which [stop] came or
    not. *)
Definition transcoded (f1 : FileSystem) (mk : list Event) (c : Clip)
    (dp : dict) (h1 : Heap) (cb1 stop : list Event) (r : option exn)
  : list Event :=
  stop ++
  EvTranscode c output_path (<["logger" := logger_for progress_callback]> dp)
              h1 r
  :: cb1 ++ EvOpen input_path (inr c) :: started f1 mk.

(** The transcoder was reached: what led there. *)
Definition transcoding (f1 : FileSystem) (mk : list Event) (c : Clip)
    (dp : dict) (h1 : Heap) (cb1 stop : list Event) (o : transcode_outcome)
    (current : option Clip) : Prop :=
  prepared f1 mk ∧
  (∃ d, env_VideoFileClip E input_path f1 = inr (true, d) ∧
        c = mkClip (next_id w) input_path true d) ∧
  built audio_params (heap w) (Ret dp) h1 ∧
  invoked progress_callback
          (progress_kw "converting" 0 (duration_or_0 c)) (Ret tt) cb1 ∧
  o = env_write_audiofile E c output_path
        (<["logger" := logger_for progress_callback]> dp) h1 f1 ∧
  stopped c (t_stop o) current stop.

Definition failed (e : exn) : Event :=
  EvLog Error (ConvertFailed input_path e).

(** Every way [convert_single_file] can run: the value returned, the
    events added to the history, and the world left. *)
Inductive single_run : bool → list Event → World → Prop :=
| run_missing :
    exists_in (fs w) input_path = false →
    single_run false [EvLog Error (FileNotFound input_path)]
      (mkWorld (current_clip w) (fs w) (heap w) (next_id w)
         ([EvLog Error (FileNotFound input_path)] ++ trace w))
| run_unsupported :
    exists_in (fs w) input_path = true →
    validate_file_extension input_path = false →
    single_run false [EvLog Error (UnsupportedFormat input_path)]
      (mkWorld (current_clip w) (fs w) (heap w) (next_id w)
         ([EvLog Error (UnsupportedFormat input_path)] ++ trace w))
| run_no_directory f1 mk evs :
    exists_in (fs w) input_path = true →
    validate_file_extension input_path = true →
    create_output_directory E output_path w
    = (Ret false, mkWorld (current_clip w) f1 (heap w) (next_id w)
                          (mk ++ trace w)) →
    Forall is_mkdir mk →
    evs = EvLog Error (CannotCreateDir output_path) :: mk →
    single_run false evs
      (mkWorld (current_clip w) f1 (heap w) (next_id w) (evs ++ trace w))
| run_open_failed f1 mk e r evs :
    prepared f1 mk →
    env_VideoFileClip E input_path f1 = inl e →
    evs = cleanup (current_clip w) r ++ failed e
          :: EvOpen input_path (inl e) :: started f1 mk →
    single_run false evs
      (mkWorld None f1 (heap w) (next_id w) (evs ++ trace w))
| run_no_audio f1 mk d c evs :
    prepared f1 mk →
    env_VideoFileClip E input_path f1 = inr (false, d) →
    c = mkClip (next_id w) input_path false d →
    evs = EvClose c None :: EvLog Error (NoAudioTrack input_path)
          :: EvOpen input_path (inr c) :: started f1 mk →
    single_run false evs
      (mkWorld None f1 (heap w) (S (next_id w)) (evs ++ trace w))
| run_no_audio_close_failed f1 mk d c e r evs :
    prepared f1 mk →
    env_VideoFileClip E input_path f1 = inr (false, d) →
    c = mkClip (next_id w) input_path false d →
    evs = EvClose c r :: failed e :: EvClose c (Some e)
          :: EvLog Error (NoAudioTrack input_path)
          :: EvOpen input_path (inr c) :: started f1 mk →
    single_run false evs
      (mkWorld None f1 (heap w) (S (next_id w)) (evs ++ trace w))
| run_params_failed f1 mk d c e h1 r evs :
    prepared f1 mk →
    env_VideoFileClip E input_path f1 = inr (true, d) →
    c = mkClip (next_id w) input_path true d →
    built audio_params (heap w) (Raise e) h1 →
    evs = EvClose c r :: failed e
          :: EvOpen input_path (inr c) :: started f1 mk →
    single_run false evs
      (mkWorld None f1 h1 (S (next_id w)) (evs ++ trace w))
| run_callback_failed f1 mk d c dp h1 e cb1 r evs :
    prepared f1 mk →
    env_VideoFileClip E input_path f1 = inr (true, d) →
    c = mkClip (next_id w) input_path true d →
    built audio_params (heap w) (Ret dp) h1 →
    invoked progress_callback
            (progress_kw "converting" 0 (duration_or_0 c)) (Raise e) cb1 →
    evs = EvClose c r :: failed e
          :: cb1 ++ EvOpen input_path (inr c) :: started f1 mk →
    single_run false evs
      (mkWorld None f1 h1 (S (next_id w)) (evs ++ trace w))
| run_transcode_failed f1 mk c dp h1 cb1 stop o current e r evs :
    transcoding f1 mk c dp h1 cb1 stop o current →
    t_exn o = Some e →
    evs = cleanup current r ++ failed e
          :: transcoded f1 mk c dp h1 cb1 stop (Some e) →
    single_run false evs
      (mkWorld None (t_fs o) h1 (S (next_id w)) (evs ++ trace w))
| run_completed_failed f1 mk c dp h1 cb1 stop o current e cb2 r evs :
    transcoding f1 mk c dp h1 cb1 stop o current →
    t_exn o = None →
    invoked progress_callback
            (progress_kw "completed" (duration_or_0 c) (duration_or_0 c))
            (Raise e) cb2 →
    evs = cleanup current r ++ failed e
          :: cb2 ++ transcoded f1 mk c dp h1 cb1 stop None →
    single_run false evs
      (mkWorld None (t_fs o) h1 (S (next_id w)) (evs ++ trace w))
| run_close_failed f1 mk c dp h1 cb1 stop o current e cb2 r evs :
    transcoding f1 mk c dp h1 cb1 stop o current →
    t_exn o = None →
    invoked progress_callback
            (progress_kw "completed" (duration_or_0 c) (duration_or_0 c))
            (Ret tt) cb2 →
    evs = cleanup current r ++ failed e :: EvClose c (Some e)
          :: cb2 ++ transcoded f1 mk c dp h1 cb1 stop None →
    single_run false evs
      (mkWorld None (t_fs o) h1 (S (next_id w)) (evs ++ trace w))
| run_output_invalid f1 mk c dp h1 cb1 stop o current cb2 evs :
    transcoding f1 mk c dp h1 cb1 stop o current →
    t_exn o = None →
    invoked progress_callback
            (progress_kw "completed" (duration_or_0 c) (duration_or_0 c))
            (Ret tt) cb2 →
    ¬ nonempty_file (t_fs o) output_path →
    evs = EvLog Error (OutputInvalid output_path) :: EvClose c None
          :: cb2 ++ transcoded f1 mk c dp h1 cb1 stop None →
    single_run false evs
      (mkWorld None (t_fs o) h1 (S (next_id w)) (evs ++ trace w))
| run_converted f1 mk c dp h1 cb1 stop o current cb2 evs :
    transcoding f1 mk c dp h1 cb1 stop o current →
    t_exn o = None →
    invoked progress_callback
            (progress_kw "completed" (duration_or_0 c) (duration_or_0 c))
            (Ret tt) cb2 →
    nonempty_file (t_fs o) output_path →
    evs = EvLog Info (Converted output_path) :: EvClose c None
          :: cb2 ++ transcoded f1 mk c dp h1 cb1 stop None →
    single_run true evs
      (mkWorld None (t_fs o) h1 (S (next_id w)) (evs ++ trace w)).

End Runs.

(** The arguments that [audio_params['channels']] adds to
    [ffmpeg_params]. *)
Definition channel_args (audio_params : dict) : list pyval :=
  match audio_params !! "channels" with
  | Some channels =>
      if py_eq_int channels 1 then [PStr "-ac"; PStr "1"]
      else if py_eq_int channels 2 then [PStr "-ac"; PStr "2"]
      else []
  | None => []
  end.

(** The dict [default_params] after [default_params.update(filtered_params)]. *)
Definition updated_defaults (audio_params : dict) : dict :=
  filter (λ kv, kv.1 ∈ supported_params) audio_params
  ∪ {[ "codec" := PStr "pcm_s16le"; "logger" := PNone ]}.

(** What the transcoder is handed for the caller's [audio_params]: the
    keyword arguments [kw] and the heap [h] of list objects, from the heap
    [h0] of the call. *)
Definition forwarded (audio_params : dict) (logger : pyval) (h0 : Heap)
    (kw : dict) (h : Heap) : Prop :=
  (∀ k, k ∉ supported_params → k ≠ "logger" → kw !! k = None) ∧
  (∀ k, k ∈ supported_params → k ≠ "codec" → k ≠ "ffmpeg_params" →
        kw !! k = audio_params !! k) ∧
  kw !! "codec" = Some (default (PStr "pcm_s16le") (audio_params !! "codec")) ∧
  kw !! "logger" = Some logger ∧
  match audio_params !! "channels", audio_params !! "ffmpeg_params" with
  | None, v => kw !! "ffmpeg_params" = v ∧ h = h0
  | Some _, Some (PList a) =>
      kw !! "ffmpeg_params" = Some (PList a) ∧
      h !!! a = h0 !!! a ++ channel_args audio_params ∧
      ∀ a', a' ≠ a → h !! a' = h0 !! a'
  | Some _, Some v =>
      kw !! "ffmpeg_params" = Some v ∧
      channel_args audio_params = [] ∧ h = h0
  | Some _, None =>
      ∃ a, (a ∉ dom h0) ∧
           kw !! "ffmpeg_params" = Some (PList a) ∧
           h !!! a = channel_args audio_params ∧
           ∀ a', a' ≠ a → h !! a' = h0 !! a'
  end.

(** The events that neither open nor close a handle. *)
Definition neutral (e : Event) : Prop :=
  match e with
  | EvOpen _ (inr _) | EvClose _ _ => False
  | _ => True
  end.

(** What a batch over [video_files] announces, oldest first: the index
    (from [i] on), the total and the base name of each file. *)
Fixpoint announced (total_count i : nat) (video_files : list string)
  : list (nat * nat * string) :=
  match video_files with
  | [] => []
  | video_file :: rest =>
      (i, total_count, os_path.basename video_file)
      :: announced total_count (S i) rest
  end.

(** ** A directory of three videos, and what moviepy does with them *)

(** [videos/] holds [a.mp4], [b.mp4] and [c.mp4]. *)
Definition three_videos : node :=
  Dir 4096 [("c.mp4", File 30); ("a.mp4", File 10); ("b.mp4", File 20)].

Definition three_videos_fs : FileSystem :=
  λ p, if String.eqb p "videos" then Some three_videos
       else if String.eqb p "videos/a.mp4" then Some (File 10)
       else if String.eqb p "videos/b.mp4" then Some (File 20)
       else if String.eqb p "videos/c.mp4" then Some (File 30)
       else None.

(** The transcoder writes 1024 bytes to the output path. *)
Definition written (output_path : string) (f : FileSystem) : FileSystem :=
  λ p, if String.eqb p output_path then Some (File 1024) else f p.

(** [b.mp4] has no audio track; everything else goes well. *)
Definition second_has_no_audio : Env := {|
  env_makedirs := λ _ f, Some f;
  env_VideoFileClip := λ p _,
    inr (negb (String.eqb p "videos/b.mp4"), Some 60%Z);
  env_close := λ _ _, None;
  env_write_audiofile := λ _ out _ _ f, mkOutcome false None (written out f);
  env_relpath := λ p _, p;
|}.

(** Everything goes well, except that [close] raises. *)
Definition close_raises : Env := {|
  env_makedirs := λ _ f, Some f;
  env_VideoFileClip := λ _ _, inr (true, Some 60%Z);
  env_close := λ _ _, Some (OSError "close failed");
  env_write_audiofile := λ _ out _ _ f, mkOutcome false None (written out f);
  env_relpath := λ p _, p;
|}.

(** A stop request arrives while [a.mp4] is transcoded, and the transcoder,
    its clip closed, raises. *)
Definition stop_during_first : Env := {|
  env_makedirs := λ _ f, Some f;
  env_VideoFileClip := λ _ _, inr (true, Some 60%Z);
  env_close := λ _ _, None;
  env_write_audiofile := λ c out _ _ f,
    if String.eqb (clip_path c) "videos/a.mp4"
    then mkOutcome true (Some (OSError "clip closed")) f
    else mkOutcome false None (written out f);
  env_relpath := λ p _, p;
|}.

(** ** The claims that do not hold as stated *)

(** Whenever the transcoder returned without error, the call succeeds
    exactly if the output is there with a size above zero. *)
Definition success_iff_output_verified (E : Env) (input_path : string)
    (output_path : option string) (audio_params : option dict)
    (progress_callback : option callable) (w : World) : Prop :=
  ∀ b w' evs c kw h,
    convert_single_file E input_path output_path audio_params
                        progress_callback w = (Ret b, w') →
    trace w' = evs ++ trace w →
    EvTranscode c (resolved_output input_path output_path) kw h None ∈ evs →
    (b = true ↔
     nonempty_file (fs w') (resolved_output input_path output_path)).

(** Every successful conversion reports a [converting] and a [completed]
    progress event, callback or not. *)
Definition coarse_progress_reported (E : Env) (input_path : string)
    (output_path : option string) (audio_params : option dict)
    (progress_callback : option callable) (w : World) : Prop :=
  ∀ w' evs,
    convert_single_file E input_path output_path audio_params
                        progress_callback w = (Ret true, w') →
    trace w' = evs ++ trace w →
    ∃ kw1 r1 kw2 r2,
      EvSink kw1 r1 ∈ evs ∧ kw1 !! "phase" = Some (PStr "converting") ∧
      EvSink kw2 r2 ∈ evs ∧ kw2 !! "phase" = Some (PStr "completed").

(** After a stop request the batch announces no further file. *)
Definition stop_ends_batch (E : Env) (input_dir : string)
    (output_dir : option string) (audio_params : option dict)
    (progress_callback : option callable) (w : World) : Prop :=
  ∀ r w' post pre,
    convert_batch E input_dir output_dir audio_params progress_callback w
    = (r, w') →
    trace w' = post ++ EvStop :: pre ++ trace w →
    processed post = [].

(** ** The files of a batch, one by one *)

(** The output path [convert_batch] computes for [video_file]. *)
Definition batch_output_path (E : Env) (input_dir : string)
    (output_dir : option string) (video_file : string) : string :=
  if truthy output_dir then
    let rel_path := env_relpath E video_file input_dir in
    os_path.join
      (os_path.join (default "" output_dir) (os_path.dirname rel_path))
      (Path.stem (Path.parse rel_path) +:+ String dot "wav")
  else resolved_output video_file None.

(** The events of the loop of [convert_batch] over the files that remain,
    from index [i] and success count [s] on: for each file its announcement,
    the calls of the sink, the creation of the output directory and a run
    of [convert_single_file]; the loop may end early, when the sink
    raises.  The last index is the count reached. *)
Inductive batch_events (E : Env) (input_dir : string)
    (output_dir : option string) (audio_params : option dict)
    (progress_callback : option callable) (total_count : nat)
  : nat → list string → nat → list Event → nat → Prop :=
| batch_end i video_files s :
    batch_events E input_dir output_dir audio_params progress_callback
                 total_count i video_files s [] s
| batch_announced i video_file rest s cb0 :
    Forall is_sink cb0 →
    batch_events E input_dir output_dir audio_params progress_callback
                 total_count i (video_file :: rest) s
      (cb0 ++ [EvLog Info (Processing i total_count
                             (os_path.basename video_file))]) s
| batch_file i video_file rest s cb0 mk w2 b evs1 w3 cb4 evs s' :
    Forall is_sink cb0 →
    Forall is_mkdir mk →
    single_run E video_file
      (batch_output_path E input_dir output_dir video_file) audio_params
      (Some (FileProgress progress_callback i total_count video_file))
      w2 b evs1 w3 →
    Forall is_sink cb4 →
    batch_events E input_dir output_dir audio_params progress_callback
                 total_count (S i) rest (if b then S s else s) evs s' →
    batch_events E input_dir output_dir audio_params progress_callback
                 total_count i (video_file :: rest) s
      (evs ++ cb4 ++ evs1 ++ mk ++ cb0
           ++ [EvLog Info (Processing i total_count
                             (os_path.basename video_file))]) s'.

(** The calls of [VideoFileClip] and of the transcoder in a history, most
    recent first. *)
Definition opens (tr : list Event) : list (string * (exn + Clip)) :=
  omap (λ e, match e with EvOpen p r => Some (p, r) | _ => None end) tr.
Definition transcodes (tr : list Event) : list (Clip * string) :=
  omap (λ e, match e with
             | EvTranscode c o _ _ _ => Some (c, o)
             | _ => None
             end) tr.

(** [{'channels': 2, 'ffmpeg_params': l}] for the list object [l] at
    address 0, which holds ['-y']. *)
Definition stereo_params : dict :=
  {[ "channels" := PInt 2; "ffmpeg_params" := PList 0 ]}.
Definition stereo_heap : Heap := {[ 0 := [PStr "-y"] ]}.

(** A sink that raises whatever it is called with. *)
Definition raising_sink : callable :=
  Sink (λ _, Some (OtherError "sink failed")).

(* ===================================================================== *)
(** * utils.py: [format_file_size] *)
(* ===================================================================== *)

(** The floats [format_file_size] meets: the double nearest to an integer,
    divided by 1024 some times.  Such a division only lowers the exponent,
    so each of these floats is [f_num / 2 ^ f_shift] exactly. *)
Record pyfloat := mkFloat { f_num : Z; f_shift : Z }.

(** [float(n)] for an [int]: exact when [n] has at most 53 significant bits,
    otherwise the nearest double, ties to even; [OverflowError] when that
    is beyond the largest double. *)
Definition float_of_int (n : Z) : exn + pyfloat :=
  let a := Z.abs n in
  let k := (Z.log2 a - 52)%Z in
  if (k <=? 0)%Z then inr (mkFloat n 0)
  else
    let q := Z.shiftr a k in
    let r := Z.land a (Z.ones k) in
    let half := Z.shiftl 1 (k - 1) in
    let q' := if (half <? r)%Z || ((r =? half)%Z && Z.odd q)
              then (q + 1)%Z else q in
    let v := Z.shiftl q' k in
    if (2 ^ 1024 <=? v)%Z
    then inl (OtherError "OverflowError: int too large to convert to float")
    else inr (mkFloat (Z.sgn n * v) 0).

(** [x >= 1024.0] *)
Definition float_ge_1024 (x : pyfloat) : bool :=
  (1024 * 2 ^ f_shift x <=? f_num x)%Z.

(** [x / 1024.0] *)
Definition float_div_1024 (x : pyfloat) : pyfloat :=
  mkFloat (f_num x) (f_shift x + 10).

(** The integer nearest to [p / q], ties to even, for [0 ≤ p] and [0 < q]. *)
Definition round_half_even (p q : Z) : Z :=
  let d := (p / q)%Z in
  let r := (p mod q)%Z in
  if (2 * r <? q)%Z then d
  else if (q <? 2 * r)%Z then (d + 1)%Z
  else if Z.even d then d else (d + 1)%Z.

(** [f"{x:.1f}"]: the decimal with one digit after the point nearest to the
    exact value of [x], ties to even, and the sign of [x]. *)
Definition format_1f (x : pyfloat) : string :=
  let t := round_half_even (10 * Z.abs (f_num x)) (2 ^ f_shift x) in
  (if (f_num x <? 0)%Z then "-" else "")
  +:+ pretty (t / 10)%Z +:+ "." +:+ pretty (t mod 10)%Z.

Definition size_names : list string := ["B"; "KB"; "MB"; "GB"; "TB"].

(** The loop [while size >= 1024.0 and i < len(size_names) - 1], by
    recursion on [units_left = len(size_names) - 1 - i]. *)
Fixpoint scale_size (units_left : nat) (size : pyfloat) (i : nat)
  : pyfloat * nat :=
  match units_left with
  | 0 => (size, i)
  | S units_left' =>
      if float_ge_1024 size
      then scale_size units_left' (float_div_1024 size) (S i)
      else (size, i)
  end.

(** [format_file_size(size_bytes)] *)
Definition format_file_size (size_bytes : Z) : exn + string :=
  if (size_bytes =? 0)%Z then inr "0 B"
  else
    match float_of_int size_bytes with
    | inl e => inl e
    | inr size =>
        let '(size, i) := scale_size (length size_names - 1 - 0) size 0 in
        match size_names !! i with
        | Some unit_name => inr (format_1f size +:+ " " +:+ unit_name)
        | None => inl (OtherError "IndexError: list index out of range")
        end
    end.

(* ===================================================================== *)
(** * cli.py *)
(* ===================================================================== *)

(** The parsed command line, an [argparse.Namespace]. *)
Record Namespace := mkNamespace {
  args_input : option string;        (* -i, --input *)
  args_directory : option string;    (* -d, --directory *)
  args_output : option string;       (* -o, --output *)
  args_output_dir : option string;   (* -od, --output-dir *)
  args_sample_rate : Z;              (* --sample-rate, 44100 by default *)
  args_channels : option Z;          (* --channels *)
  args_format : string;              (* --format, wav by default *)
  args_bitrate : option string;      (* --bitrate *)
  args_overwrite : bool;             (* --overwrite *)
  args_verbose : bool;               (* --verbose *)
  args_log_file : string;            (* --log-file *)
}.

(** [prepare_audio_parameters(args)] *)
Definition prepare_audio_parameters (args : Namespace) : dict :=
  let audio_params : dict := ∅ in
  let audio_params :=
    if negb (args_sample_rate args =? 44100)%Z
    then <["fps" := PInt (args_sample_rate args)]> audio_params
    else audio_params in
  let audio_params :=
    match args_channels args with
    | Some channels =>
        if (channels =? 0)%Z then audio_params      (* [if args.channels:] *)
        else if (channels =? 1)%Z then <["channels" := PInt 1]> audio_params
        else if (channels =? 2)%Z then <["channels" := PInt 2]> audio_params
        else audio_params
    | None => audio_params
    end in
  let audio_params :=
    if truthy (args_bitrate args)
    then <["bitrate" := PStr (default "" (args_bitrate args))]> audio_params
    else audio_params in
  if String.eqb (args_format args) "wav"
  then <["codec" := PStr "pcm_s16le"]> audio_params
  else if String.eqb (args_format args) "mp3"
  then <["codec" := PStr "libmp3lame"]> audio_params
  else if String.eqb (args_format args) "flac"
  then <["codec" := PStr "flac"]> audio_params
  else if String.eqb (args_format args) "aac"
  then <["codec" := PStr "aac"]> audio_params
  else audio_params.

(** What [main] itself prints, by its format strings. *)
Inductive Printed :=
| PrStartFile (input : string)               (* 开始转换文件 *)
| PrOverwritePrompt (output_path : string)   (* the prompt of [input()] *)
| PrCancelled                                (* 转换已取消 *)
| PrSuccess (output_path : string)           (* ✅ 转换成功 *)
| PrFailure                                  (* ❌ 转换失败 *)
| PrStartBatch (directory : string)          (* 开始批量转换目录 *)
| PrAllConverted                             (* ✅ 所有文件转换成功！ *)
| PrSomeFailed (success_count total_count : nat) (* ⚠️ 部分文件转换失败 *)
| PrProgramError (e : exn).                  (* ❌ 程序错误 *)

(** How [main] ends: the status given to [sys.exit], [None] when [main]
    returns without calling it; what it printed, in order; and the world it
    leaves. *)
Record Finished := mkFinished {
  exit_status : option Z;
  printed : list Printed;
  world : World;
}.

(** Lines 232-244 of [main]: the conversion of the one file and the exit
    that reports it.  An exception would reach [except Exception]. *)
Definition main_convert_file (E : Env) (input output_path : string)
    (audio_params : dict) (progress_callback : option callable)
    (out : list Printed) (w : World) : Finished :=
  match convert_single_file E input (Some output_path) (Some audio_params)
                            progress_callback w with
  | (Ret true, w') => mkFinished (Some 0%Z) (out ++ [PrSuccess output_path]) w'
  | (Ret false, w') => mkFinished (Some 1%Z) (out ++ [PrFailure]) w'
  | (Raise e, w') => mkFinished (Some 1%Z) (out ++ [PrProgramError e]) w'
  end.

(** [setup_logging(log_file)] of utils.py, as far as it can fail and as
    far as it touches the file system: when the logger [video_converter]
    has handlers already it is returned as it is; otherwise
    [logging.FileHandler(log_file, encoding='utf-8')] opens the log file
    for appending, which creates it when it is not there, or raises.
    [FileHandler] is that call as the operating system answers it: the
    exception, or the file system with the log file.  What is logged
    afterwards goes to the history of the world. *)
Definition setup_logging
    (FileHandler : string → FileSystem → exn + FileSystem)
    (logger_handlers : bool) (log_file : string) (fs0 : FileSystem)
  : exn + FileSystem :=
  if logger_handlers then inr fs0 else FileHandler log_file fs0.

(** [VideoToAudioConverter(log_file)]: [__init__] sets the logger up and
    has no clip current. *)
Definition VideoToAudioConverter
    (FileHandler : string → FileSystem → exn + FileSystem)
    (logger_handlers : bool) (log_file : string) (fs0 : FileSystem)
  : exn + World :=
  match setup_logging FileHandler logger_handlers log_file fs0 with
  | inl e => inl e
  | inr fs1 => inr (init fs1 ∅)
  end.

(** What [main] does with the converter it has created. *)
Definition main_with (E : Env) (display : callable) (answer : option string)
    (args : Namespace) (converter : World) : Finished :=
  let audio_params := prepare_audio_parameters args in
  let progress_callback :=
    if negb (args_verbose args) then Some display else None in
  if truthy (args_input args) then
    let input := default "" (args_input args) in
    let out := [PrStartFile input] in
    match
      match args_output args with
      | None => generate_output_path E input (args_output_dir args)
                                     (args_format args)
      | Some output_path => ret output_path
      end converter
    with
    | (Raise e, w) => mkFinished (Some 1%Z) (out ++ [PrProgramError e]) w
    | (Ret output_path, w) =>
        if exists_in (fs w) output_path && negb (args_overwrite args) then
          let out := out ++ [PrOverwritePrompt output_path] in
          match answer with
          | None =>
              mkFinished (Some 1%Z)
                (out ++ [PrProgramError
                           (OtherError "EOFError: EOF when reading a line")])
                w
          | Some response =>
              if bool_decide (Str.lower response ∈ ["y"; "yes"; "是"])
              then main_convert_file E input output_path audio_params
                                     progress_callback out w
              else mkFinished (Some 0%Z) (out ++ [PrCancelled]) w
          end
        else main_convert_file E input output_path audio_params
                               progress_callback out w
    end
  else if truthy (args_directory args) then
    let directory := default "" (args_directory args) in
    let out := [PrStartBatch directory] in
    match convert_batch E directory (args_output_dir args) (Some audio_params)
                        progress_callback converter with
    | (Ret (success_count, total_count), w) =>
        if (success_count =? total_count)%nat
        then mkFinished (Some 0%Z) (out ++ [PrAllConverted]) w
        else mkFinished (Some 1%Z)
               (out ++ [PrSomeFailed success_count total_count]) w
    | (Raise e, w) => mkFinished (Some 1%Z) (out ++ [PrProgramError e]) w
    end
  else mkFinished None [] converter.

(** [main()], for the parsed arguments [args], on the file system [fs0].
    [FileHandler] opens the log file and [logger_handlers] tells whether
    the logger has handlers already, which it has not in a new process;
    [display] is the callable that [create_progress_display()] returns and
    [answer] the line that [input()] reads, [None] at the end of the
    input.  The converter is created inside the [try]: when the log file
    cannot be opened, [except Exception] prints the error and the status is
    1, and the world is the one [main] found, with no history.  Printing
    is taken to succeed. *)
Definition main (E : Env)
    (FileHandler : string → FileSystem → exn + FileSystem)
    (logger_handlers : bool) (display : callable) (answer : option string)
    (args : Namespace) (fs0 : FileSystem) : Finished :=
  match VideoToAudioConverter FileHandler logger_handlers
                              (args_log_file args) fs0 with
  | inl e => mkFinished (Some 1%Z) [PrProgramError e] (init fs0 ∅)
  | inr converter => main_with E display answer args converter
  end.

(** The codec that [prepare_audio_parameters] picks for a format; an
    unknown format leaves the default of [convert_single_file]. *)
Definition codec_of_format (format : string) : string :=
  if String.eqb format "mp3" then "libmp3lame"
  else if String.eqb format "flac" then "flac"
  else if String.eqb format "aac" then "aac"
  else "pcm_s16le".

(** What the transcoder is handed for the options of the command line:
    the keyword arguments [kw] and the heap [h] of list objects, from the
    heap [h0] of the call. *)
Definition forwarded_options (args : Namespace) (logger : pyval) (h0 : Heap)
    (kw : dict) (h : Heap) : Prop :=
  kw !! "codec" = Some (PStr (codec_of_format (args_format args))) ∧
  kw !! "fps" = (if (args_sample_rate args =? 44100)%Z then None
                 else Some (PInt (args_sample_rate args))) ∧
  kw !! "bitrate" = (if truthy (args_bitrate args)
                     then PStr <$> args_bitrate args else None) ∧
  kw !! "logger" = Some logger ∧
  (∀ k, k ∉ ["codec"; "fps"; "bitrate"; "logger"; "ffmpeg_params"] →
        kw !! k = None) ∧
  match args_channels args with
  | Some c =>
      if (c =? 1)%Z || (c =? 2)%Z then
        ∃ a, (a ∉ dom h0) ∧
             kw !! "ffmpeg_params" = Some (PList a) ∧
             h !!! a = [PStr "-ac"; PStr (if (c =? 1)%Z then "1" else "2")] ∧
             ∀ a', a' ≠ a → h !! a' = h0 !! a'
      else kw !! "ffmpeg_params" = None ∧ h = h0
  | None => kw !! "ffmpeg_params" = None ∧ h = h0
  end.

(** [-d videos --format mp3 --channels 2], and the same with [--verbose]. *)
Definition batch_mp3_args : Namespace :=
  mkNamespace None (Some "videos") None None 44100 (Some 2%Z) "mp3" None
              false false "conversion.log".
Definition verbose_batch_mp3_args : Namespace :=
  mkNamespace None (Some "videos") None None 44100 (Some 2%Z) "mp3" None
              false true "conversion.log".

(** [-i videos/a.mp4 -o videos/b.mp4 --sample-rate 48000]: the output is
    there already. *)
Definition single_file_args : Namespace :=
  mkNamespace (Some "videos/a.mp4") None (Some "videos/b.mp4") None 48000
              None "wav" None false false "conversion.log".

(** A display that raises nothing, as [create_progress_display] builds. *)
Definition silent_display : callable := Sink (λ _, None).

(** A log file that opens: it is created, empty, when nothing is at its
    path, and a directory at its path makes the opening fail. *)
Definition append_mode (log_file : string) (f : FileSystem)
  : exn + FileSystem :=
  match f log_file with
  | Some (Dir _ _) => inl (OSError "IsADirectoryError: Is a directory")
  | Some (File _) => inr f
  | None => inr (λ p, if String.eqb p log_file then Some (File 0) else f p)
  end.

(** No log file can be opened. *)
Definition read_only (log_file : string) (f : FileSystem)
  : exn + FileSystem :=
  inl (OSError "PermissionError: Permission denied").

(** [validate_file_extension(file_path, supported_formats)], with the
    optional set of formats: [None] stands for [SUPPORTED_VIDEO_FORMATS]. *)
Definition validate_file_extension_in (file_path : string)
    (supported_formats : option (gset string)) : bool :=
  let supported_formats :=
    match supported_formats with
    | None => SUPPORTED_VIDEO_FORMATS
    | Some formats => formats
    end in
  let file_ext := Str.lower (Path.suffix (Path.parse file_path)) in
  bool_decide (file_ext ∈ supported_formats).
(* ===================================================================== *)
(** * Properties of the string and path functions *)
(* ===================================================================== *)

Lemma str_app_cons a (s t : string) : String a s +:+ t = String a (s +:+ t).
Proof. reflexivity. Qed.

Lemma str_app_nil (t : string) : "" +:+ t = t.
Proof. reflexivity. Qed.

Lemma rsplit_app c s b t : Str.rsplit c s = Some (b, t) → s = b +:+ String c t.
Proof.
  revert b t. induction s as [|a s IH]; intros b t; simpl; [done|].
  destruct (Str.rsplit c s) as [[b' t']|] eqn:Hs.
  - intros [= <- <-]. rewrite str_app_cons. f_equal. by apply IH.
  - destruct (Ascii.eqb_spec a c) as [->|]; [|done].
    by intros [= <- <-].
Qed.

Lemma split_nonempty c s : Str.split c s ≠ [].
Proof.
  destruct s as [|a s]; simpl; [done|].
  destruct (Ascii.eqb a c); [done|]. by destruct (Str.split c s).
Qed.

(** No component of a split contains the separator. *)
Lemma split_no_sep c s x : x ∈ Str.split c s → Str.contains c x = false.
Proof.
  revert x. induction s as [|a s IH]; intros x; simpl.
  - by intros ->%list_elem_of_singleton.
  - destruct (Ascii.eqb a c) eqn:Hac.
    + intros [->|?]%elem_of_cons; [done|by apply IH].
    + destruct (Str.split c s) as [|y ys] eqn:Hs.
      * intros ->%list_elem_of_singleton. simpl. by rewrite Hac.
      * intros [->|?]%elem_of_cons.
        -- simpl. rewrite Hac. simpl. apply IH. by left.
        -- apply IH. by right.
Qed.

Lemma contains_app_l c s1 s2 :
  Str.contains c (s1 +:+ s2) = false → Str.contains c s1 = false.
Proof.
  induction s1 as [|a s1 IH]; [done|]. rewrite str_app_cons. simpl.
  intros [-> ?]%orb_false_iff. by rewrite IH.
Qed.

Lemma startswith_contains c s : Str.startswith c s = true → Str.contains c s = true.
Proof. destruct s as [|a s]; simpl; [done|]. by intros ->. Qed.

Lemma last_elem_of {A} (l : list A) d : l ≠ [] → List.last l d ∈ l.
Proof.
  induction l as [|x [|y l] IH]; [done| |]; intros _.
  - by left.
  - right. by apply IH.
Qed.

(** The final component of a parsed path holds no separator. *)
Lemma name_no_sep p : Str.contains sep (Path.name (Path.parse p)) = false.
Proof.
  unfold Path.name, Path.parse. destruct (Path.splitroot p) as [r rel]; simpl.
  destruct (List.filter Path.keep_part (Str.split sep rel)) as [|x l] eqn:Hf;
    [done|].
  assert (List.last (x :: l) "" ∈ x :: l) as Hin by by apply last_elem_of.
  rewrite <- Hf in Hin |- *. apply list_elem_of_In in Hin. apply List.filter_In in Hin as [Hin _].
  by apply (split_no_sep sep rel), list_elem_of_In.
Qed.

Lemma stem_no_sep p : Str.contains sep (Path.stem (Path.parse p)) = false.
Proof.
  pose proof (name_no_sep p) as Hn. unfold Path.stem.
  destruct (Str.rsplit dot _) as [[b e]|] eqn:Hr; [|done].
  destruct (negb (Str.is_empty b) && negb (Str.is_empty e)); [|done].
  apply rsplit_app in Hr. rewrite Hr in Hn. by apply contains_app_l in Hn.
Qed.

(** The output file name is never an absolute path, whatever the format. *)
Lemma output_filename_relative p fmt :
  Str.startswith sep (Path.stem (Path.parse p) +:+ String dot fmt) = false.
Proof.
  pose proof (stem_no_sep p) as Hs.
  destruct (Path.stem (Path.parse p)) as [|a s]; [done|].
  rewrite str_app_cons. simpl. simpl in Hs. apply orb_false_iff in Hs as [-> _]. done.
Qed.

Lemma app_assoc_str (a b c : string) : (a +:+ b) +:+ c = a +:+ b +:+ c.
Proof. induction a as [|x a IH]; [done|]. by rewrite !str_app_cons, IH. Qed.

(** Joining a relative file name under a directory puts a fixed prefix in
    front of it. *)
Lemma join_relative a b :
  Str.startswith sep b = false →
  os_path.join a b =
    (if Str.is_empty a || Str.endswith sep a then a else a +:+ String sep "")
    +:+ b.
Proof.
  intros Hb. unfold os_path.join. rewrite Hb.
  destruct (Str.is_empty a || Str.endswith sep a); [done|].
  by rewrite app_assoc_str.
Qed.

(* ===================================================================== *)
(** * File discovery *)
(* ===================================================================== *)

Lemma node_ind' (P : node → Prop) :
  (∀ z, P (File z)) →
  (∀ z es, Forall (λ e, P e.2) es → P (Dir z es)) →
  ∀ n, P n.
Proof.
  intros Hf Hd. fix IH 1. intros [z|z es]; [apply Hf|].
  apply Hd. induction es as [|[x n] es IHes]; constructor; [apply IH|apply IHes].
Qed.

(** The two loops collect, in order, the accepted paths of the walk. *)
Lemma collect_video_files_filter walk :
  collect_video_files walk = filter accepted (walk_paths walk).
Proof.
  unfold collect_video_files.
  enough (∀ acc,
    foldl (λ video_files '(root, _, files),
             foldl (λ video_files file,
                      let file_path := os_path.join root file in
                      if validate_file_extension file_path
                      then video_files ++ [file_path] else video_files)
                   video_files files) acc walk
    = acc ++ filter accepted (walk_paths walk)) as H by apply (H []).
  induction walk as [|[[root dirs] files] walk IH]; intros acc; simpl.
  - by rewrite app_nil_r.
  - rewrite IH, filter_app, app_assoc. f_equal.
    clear IH. revert acc. induction files as [|f files IHf]; intros acc; simpl.
    + by rewrite app_nil_r.
    + rewrite IHf, filter_cons.
      destruct (decide (accepted (os_path.join root f))) as [Hv|Hv];
        unfold accepted in Hv.
      * rewrite Hv. by rewrite <- app_assoc.
      * apply not_true_is_false in Hv. by rewrite Hv.
Qed.

Lemma flat_map_Permutation {A B} (f g : A → list B) l :
  Forall (λ x, f x ≡ₚ g x) l → List.flat_map f l ≡ₚ List.flat_map g l.
Proof.
  induction 1 as [|x l Hx _ IH]; simpl; [done|]. by rewrite Hx, IH.
Qed.

Lemma walk_paths_app l1 l2 :
  walk_paths (l1 ++ l2) = walk_paths l1 ++ walk_paths l2.
Proof. apply flat_map_app. Qed.

Lemma walk_paths_dir top z es :
  walk_paths (os_walk top (Dir z es))
  = files_of top es ++ walk_paths (subwalks top es).
Proof. reflexivity. Qed.

(** [os.walk] reaches every regular file of the tree, each once. *)
Lemma walk_paths_tree_files n : ∀ top,
  walk_paths (os_walk top n) ≡ₚ tree_files top n.
Proof.
  induction n as [z|z es IH] using node_ind'; intros top; [done|].
  rewrite walk_paths_dir. cbn [tree_files].
  induction es as [|[x n] es IHes]; [done|].
  apply Forall_cons in IH as [Hn Hes]. specialize (IHes Hes).
  cbn [List.flat_map fst snd].
  change (subwalks top ((x, n) :: es))
    with (os_walk (os_path.join top x) n ++ subwalks top es).
  rewrite walk_paths_app. rewrite <- IHes.
  destruct n as [s|s sub].
  - reflexivity.
  - change (files_of top ((x, Dir s sub) :: es)) with (files_of top es).
    rewrite <- (Hn (os_path.join top x)). cbn [snd].
    rewrite !app_assoc. apply Permutation_app_tail, Permutation_app_comm.
Qed.

(** Listing the same tree in another order gives the same files. *)
Lemma tree_files_equiv n n' :
  node_equiv n n' → ∀ top, tree_files top n ≡ₚ tree_files top n'.
Proof.
  revert n n'.
  apply (node_equiv_mut
    (λ n n', ∀ top, tree_files top n ≡ₚ tree_files top n')
    (λ es es', ∀ top,
       List.flat_map (λ e, match e.2 with
                           | File _ => [os_path.join top e.1]
                           | Dir _ _ => tree_files (os_path.join top e.1) e.2
                           end) es
       ≡ₚ List.flat_map (λ e, match e.2 with
                              | File _ => [os_path.join top e.1]
                              | Dir _ _ => tree_files (os_path.join top e.1) e.2
                              end) es')).
  - done.
  - intros z es es' _ H top. apply H.
  - done.
  - intros x n n' l l' Hn IHn _ IHl top. simpl.
    rewrite IHl. apply Permutation_app_tail.
    inversion Hn; subst; simpl; [done|]. apply IHn.
  - intros a b l l' _ IHl top. simpl. rewrite IHl, !app_assoc.
    apply Permutation_app_tail, Permutation_app_comm.
  - intros l1 l2 l3 _ IH1 _ IH2 top. by rewrite IH1.
Qed.

Lemma sorted_eq (l1 l2 : list string) :
  l1 ≡ₚ l2 → merge_sort String.le l1 = merge_sort String.le l2.
Proof.
  intros Hp. apply (Sorted_unique String.le).
  - apply Sorted_merge_sort, _.
  - apply Sorted_merge_sort, _.
  - by rewrite !merge_sort_Permutation.
Qed.

(** What the claim calls the extension of a file, compared without regard to
    case: the suffix of the final path component, lower-cased. *)
Lemma validate_file_extension_iff p :
  validate_file_extension p = true ↔
  ∃ ext, Path.suffix (Path.parse p) = String dot ext ∧
         Str.lower ext ∈ ["mp4"; "avi"; "mov"; "mkv"; "flv"; "wmv"; "m4v"; "3gp"].
Proof.
  unfold validate_file_extension, SUPPORTED_VIDEO_FORMATS.
  rewrite bool_decide_eq_true.
  destruct (Path.suffix (Path.parse p)) as [|a ext] eqn:Hs.
  - split; [set_solver|]. by intros (? & ? & _).
  - assert (a = dot) as ->.
    { unfold Path.suffix in Hs. destruct (Str.rsplit _ _) as [[b e]|]; [|done].
      destruct (_ && _); [|done]. by injection Hs as <- _. }
    change (Str.lower (String dot ext)) with (String dot (Str.lower ext)).
    set_unfold. split.
    + intros H. exists ext. split; [done|].
      repeat (destruct H as [H|H]); injection H as H; rewrite H;
        repeat (first [left; reflexivity | right]).
    + intros (e & [= <-] & H).
      repeat (destruct H as [H|H]; [rewrite H; auto 10|]). done.
Qed.

(** C4.  [get_video_files_from_directory] returns, for every directory tree,
    exactly the regular files of the tree whose extension (the suffix of the
    final path component, lower-cased) is one of mp4, avi, mov, mkv, flv, wmv,
    m4v, 3gp, each once, sorted lexicographically by full path; it returns the
    empty list when the directory does not exist or holds no such file; and
    the result does not depend on the order in which the directories are
    listed, so that two runs on an unchanged tree agree. *)
Theorem discovery_exact_sorted_stable (fs : FileSystem) (directory : string) :
  let found := get_video_files_from_directory fs directory in
  Sorted String.le found ∧
  (∀ p, accepted p ↔
        ∃ ext, Path.suffix (Path.parse p) = String dot ext ∧
               Str.lower ext ∈
                 ["mp4"; "avi"; "mov"; "mkv"; "flv"; "wmv"; "m4v"; "3gp"]) ∧
  match fs directory with
  | None => found = []
  | Some n =>
      found ≡ₚ filter accepted (tree_files directory n) ∧
      (∀ p, p ∈ found ↔ p ∈ tree_files directory n ∧ accepted p) ∧
      ((∀ p, p ∈ tree_files directory n → ¬ accepted p) → found = []) ∧
      (∀ fs' n', fs' directory = Some n' → node_equiv n n' →
                 get_video_files_from_directory fs' directory = found)
  end.
Proof.
  unfold get_video_files_from_directory. split; [|split].
  - destruct (fs directory); [apply Sorted_merge_sort, _|constructor].
  - intros p. apply validate_file_extension_iff.
  - destruct (fs directory) as [n|] eqn:Hn; [|done].
    assert (merge_sort String.le (collect_video_files (os_walk directory n))
            ≡ₚ filter accepted (tree_files directory n)) as Hperm.
    { rewrite merge_sort_Permutation, collect_video_files_filter.
      by rewrite walk_paths_tree_files. }
    split; [done|]. split; [|split].
    + intros p. rewrite Hperm, list_elem_of_filter. tauto.
    + intros Hnone. apply Permutation_nil_r. rewrite Hperm.
      destruct (filter accepted (tree_files directory n)) as [|p l] eqn:Hf;
        [done|].
      assert (p ∈ filter accepted (tree_files directory n)) as Hp
        by (rewrite Hf; left).
      apply list_elem_of_filter in Hp as [Hacc Hin]. by destruct (Hnone p).
    + intros fs' n' Hn' Hequiv. rewrite Hn'. apply sorted_eq.
      rewrite !collect_video_files_filter, !walk_paths_tree_files.
      by rewrite (tree_files_equiv n n').
Qed.

Lemma discovery_exact_sorted_stable_witness :
  get_video_files_from_directory (videos_fs videos_dir) "videos"
    = ["videos/a.mp4"; "videos/b.avi"] ∧
  get_video_files_from_directory (videos_fs videos_dir_relisted) "videos"
    = ["videos/a.mp4"; "videos/b.avi"].
Proof.
  split; [reflexivity|].
  pose proof (discovery_exact_sorted_stable (videos_fs videos_dir) "videos")
    as (_ & _ & H).
  change (videos_fs videos_dir "videos") with (Some videos_dir) in H.
  destruct H as (_ & _ & _ & H).
  apply (H (videos_fs videos_dir_relisted) videos_dir_relisted).
  - reflexivity.
  - apply equiv_dir.
    eapply equiv_trans; [apply equiv_swap|].
    + apply equiv_skip; [apply equiv_file|apply equiv_nil].
    + apply equiv_skip; [apply equiv_file|].
      apply equiv_swap, equiv_nil.
Defined.

(* ===================================================================== *)
(** * Running the converter *)
(* ===================================================================== *)

(** Unfolds the monad and the transparent operations. *)
Ltac msimpl :=
  cbv beta iota zeta delta [bind ret raise try_except emit log get_current_clip set_current_clip
       set_fs set_heap os_path_exists os_path_getsize
       VideoFileClip clip_close stop_conversion
       write_audiofile validate_input_file
       add_events with_heap clip_audio
       current_clip fs heap next_id trace fst snd negb andb orb].

Ltac msimpl_in H :=
  cbv beta iota zeta delta [bind ret raise try_except emit log get_current_clip set_current_clip
       set_fs set_heap os_path_exists os_path_getsize
       VideoFileClip clip_close stop_conversion
       write_audiofile validate_input_file
       add_events with_heap clip_audio
       current_clip fs heap next_id trace fst snd negb andb orb] in H.

(** The term on which a [match] is stuck. *)
Ltac stuck_on t :=
  lazymatch t with
  | match ?x with _ => _ end => stuck_on x
  | (match ?x with _ => _ end) _ => stuck_on x
  | _ => t
  end.

Lemma sinks_cons k r ks : sinks ((k, r) :: ks) = EvSink k r :: sinks ks.
Proof. reflexivity. Qed.

Lemma callable_ind' (P : callable → Prop) :
  (∀ raises, P (Sink raises)) →
  (∀ i total file, P (FileProgress None i total file)) →
  (∀ g i total file, P g → P (FileProgress (Some g) i total file)) →
  ∀ f, P f.
Proof.
  intros Hs Hn Hg. fix IH 1. intros [raises|[g|] i total file].
  - apply Hs.
  - apply Hg, IH.
  - apply Hn.
Qed.

(** A progress callback only ever calls the caller's sink: it leaves the
    converter, the file system and the heap as they are. *)
Lemma invoke_run (f : callable) : ∀ kw w,
  ∃ r ks, invoke f kw w = (r, add_events (sinks ks) w).
Proof.
  induction f as [raises|i total file|g i total file IH] using callable_ind';
    intros kw w; destruct w as [cc f0 h n tr]; simpl.
  - exists (match raises kw with Some e => Raise e | None => Ret tt end),
      [(kw, raises kw)].
    unfold bind, emit. simpl. by destruct (raises kw).
  - by exists (Ret tt), [].
  - destruct (py_call_kw _ _) as [e|kw'].
    + by exists (Raise e), [].
    + apply IH.
Qed.

Lemma new_list_run l w :
  new_list l w
  = (Ret (fresh (dom (heap w))), with_heap (<[fresh (dom (heap w)) := l]> (heap w)) w).
Proof. reflexivity. Qed.

Lemma py_extend_run v items w :
  ∃ r h', py_extend v items w = (r, with_heap h' w).
Proof.
  destruct w as [cc f h n tr].
  destruct v; simpl; try (by eexists (Raise _), h); by eexists (Ret tt), _.
Qed.

(** Building the parameters touches the heap of list objects only. *)
Lemma default_params_frame audio_params w :
  ∃ r h', default_params audio_params w = (r, with_heap h' w).
Proof.
  destruct w as [cc f h n tr]. unfold default_params.
  destruct audio_params as [ap|]; [|by eexists (Ret _), h].
  case_bool_decide; [by eexists (Ret _), h|].
  destruct (ap !! "channels") as [channels|]; [|by eexists (Ret _), h].
  unfold bind.
  destruct (_ !! "ffmpeg_params") as [v|] eqn:Hf.
  - cbn [ret]. destruct (py_eq_int channels 1); [|destruct (py_eq_int channels 2)].
    + match goal with |- context [py_extend ?v ?i ?w] =>
        destruct (py_extend_run v i w) as (r & h' & ->) end.
      destruct r; by eexists _, h'.
    + match goal with |- context [py_extend ?v ?i ?w] =>
        destruct (py_extend_run v i w) as (r & h' & ->) end.
      destruct r; by eexists _, h'.
    + by eexists (Ret _), h.
  - rewrite new_list_run. cbn [with_heap ret current_clip fs heap next_id trace].
    destruct (py_eq_int channels 1); [|destruct (py_eq_int channels 2)].
    + match goal with |- context [py_extend ?v ?i ?w] =>
        destruct (py_extend_run v i w) as (r & h' & ->) end.
      destruct r; by eexists _, h'.
    + match goal with |- context [py_extend ?v ?i ?w] =>
        destruct (py_extend_run v i w) as (r & h' & ->) end.
      destruct r; by eexists _, h'.
    + by eexists (Ret _), _.
Qed.

(** ** Frame lemmas: what the sub-computations leave untouched *)

Lemma is_mkdir_minor evs : Forall is_mkdir evs → Forall minor evs.
Proof. intros H. eapply Forall_impl; [exact H|]. by intros []. Qed.

Lemma is_sink_minor evs : Forall is_sink evs → Forall minor evs.
Proof. intros H. eapply Forall_impl; [exact H|]. by intros []. Qed.

Lemma minor_sinks ks : Forall minor (sinks ks).
Proof. induction ks; constructor; done. Qed.

Lemma invoke_minor (f : callable) kw w :
  ∃ r evs, invoke f kw w = (r, add_events evs w) ∧ Forall minor evs.
Proof.
  destruct (invoke_run f kw w) as (r & ks & ->).
  exists r, (sinks ks). split; [done|apply minor_sinks].
Qed.

(** Case analysis on a stuck term, by a hypothesis that tells its value when
    there is one. *)
Ltac run_case y :=
  first [ match goal with H : y = _ |- _ => rewrite !H end
        | destruct y eqn:? ];
  try discriminate;
  try solve [ match goal with
              | H : exists_in ?f ?p = true, H' : ?f ?p = None |- _ =>
                  unfold exists_in in H; rewrite H' in H; discriminate
              end ];
  subst.

(** [create_output_directory] never raises, and does no more than create a
    directory. *)
Lemma create_output_directory_run E output_path w :
  ∃ b evs fs',
    create_output_directory E output_path w
    = (Ret b, mkWorld (current_clip w) fs' (heap w) (next_id w)
                      (evs ++ trace w)) ∧
    Forall is_mkdir evs.
Proof.
  destruct w as [cc f h n tr]. unfold create_output_directory. msimpl.
  repeat match goal with
         | |- context [match ?x with _ => _ end] =>
             let y := stuck_on x in run_case y; msimpl
         end.
  all: first [ by eexists _, [], _
             | eexists _, [_], _; split; [reflexivity|by repeat constructor] ].
Qed.

(** The overwrite warning: logged or not, nothing else changes. *)
Lemma when_frame b (m : M unit) w e :
  (∀ w0, m w0 = (Ret tt, add_events [e] w0)) →
  when b m w = (Ret tt, add_events (perhaps b e) w).
Proof. intros Hm. destruct b; simpl; [apply Hm|by destruct w]. Qed.

Lemma minor_warning (b : bool) m : Forall minor (perhaps b (EvLog Warning m)).
Proof. destruct b; by repeat constructor. Qed.

(** [generate_output_path] never raises, returns a path that depends on its
    arguments only, and does no more than create a directory. *)
Lemma generate_output_path_run E input_path output_dir output_format w :
  ∃ evs fs',
    generate_output_path E input_path output_dir output_format w
    = (Ret (if truthy output_dir
            then os_path.join (default "" output_dir)
                   (Path.stem (Path.parse input_path)
                    +:+ String dot output_format)
            else os_path.join
                   (Path.to_str (Path.parent (Path.parse input_path)))
                   (Path.stem (Path.parse input_path)
                    +:+ String dot output_format)),
       mkWorld (current_clip w) fs' (heap w) (next_id w) (evs ++ trace w)) ∧
    Forall is_mkdir evs ∧
    (truthy output_dir = false → evs = [] ∧ fs' = fs w).
Proof.
  unfold generate_output_path. destruct (truthy output_dir).
  - unfold bind.
    destruct (create_output_directory_run E
                (os_path.join (default "" output_dir)
                   (Path.stem (Path.parse input_path)
                    +:+ String dot output_format)) w)
      as (b & evs & fs' & -> & Hm).
    by exists evs, fs'.
  - destruct w. by exists [], fs0.
Qed.

Lemma convert_single_file_default_output E input_path audio_params
    progress_callback w :
  convert_single_file E input_path None audio_params progress_callback w
  = convert_single_file E input_path
      (Some (resolved_output input_path None)) audio_params
      progress_callback w.
Proof. reflexivity. Qed.

(** A callback does the same wherever it is called. *)
Lemma invoke_invoked (f : callable) : ∀ kw,
  ∃ r evs, (∀ w, invoke f kw w = (r, add_events evs w)) ∧ Forall is_sink evs.
Proof.
  induction f as [raises|i total file|g i total file IH] using callable_ind';
    intros kw; simpl.
  - exists (match raises kw with Some e => Raise e | None => Ret tt end),
      [EvSink kw (raises kw)].
    split; [|by repeat constructor].
    intros [cc f0 h n tr]. unfold bind, emit. simpl. by destruct (raises kw).
  - exists (Ret tt), []. split; [by intros []|done].
  - destruct (py_call_kw _ _) as [e|kw'].
    + exists (Raise e), []. split; [by intros []|done].
    + apply IH.
Qed.

Lemma invoked_total progress_callback kw :
  ∃ r evs, invoked progress_callback kw r evs ∧ Forall is_sink evs.
Proof.
  destruct progress_callback as [f|]; simpl; [apply invoke_invoked|].
  by exists (Ret tt), [].
Qed.

(** Building the parameters depends on the heap only. *)
Lemma built_total audio_params h : ∃ r h', built audio_params h r h'.
Proof.
  unfold built.
  destruct (default_params_frame audio_params (mkWorld None (λ _, None) h 0 []))
    as (r & h' & Hrun).
  exists r, h'. intros [cc f h0 n tr] Hh. simpl in Hh. subst h0.
  revert Hrun. unfold default_params, with_heap. simpl.
  destruct audio_params as [ap|]; [|by intros [= <- <-]].
  case_bool_decide; [by intros [= <- <-]|].
  destruct (ap !! "channels") as [channels|]; [|by intros [= <- <-]].
  unfold bind, new_list, py_extend, ret, raise. simpl.
  repeat match goal with
         | |- context [match ?x with _ => _ end] =>
             let y := stuck_on x in destruct y eqn:?; simpl
         end.
  all: by intros [= <- <-].
Qed.

(** The events a run added on top of the history it started from. *)
Ltac evs_of t :=
  lazymatch t with
  | ?e :: ?t' => let r := evs_of t' in constr:(e :: r)
  | ?l ++ (?e :: ?t') => let r := evs_of (e :: t') in constr:(l ++ r)
  | ?l ++ (?l' ++ ?t') => let r := evs_of (l' ++ t') in constr:(l ++ r)
  | ?l ++ _ => constr:(l)
  | _ => constr:(@nil Event)
  end.

Ltac list_eq :=
  repeat (cbn [app]; rewrite <- app_assoc); cbn [app];
  rewrite ?app_nil_r; reflexivity.

(** One step of symbolic execution: case analysis on what the run is stuck
    on; callbacks, parameter building, directory creation and the overwrite
    warning by their frame lemmas, so that the paths which differ in them
    only are followed once. *)
Ltac run_step :=
  match goal with
  | |- context [match ?x with _ => _ end] =>
      let y := stuck_on x in
      lazymatch y with
      | invoke ?f ?kw ?w =>
          let r := fresh "r" in let evs := fresh "cb" in
          let Hi := fresh "Hinvoked" in let Hm := fresh "Hminor" in
          destruct (invoke_invoked f kw) as (r & evs & Hi & Hm);
          rewrite (Hi w); destruct r as [[]|?]
      | default_params ?ap ?w =>
          let r := fresh "r" in let h := fresh "h" in
          let Hb := fresh "Hbuilt" in
          let h0 := eval cbn [heap] in (heap w) in
          destruct (built_total ap h0) as (r & h & Hb);
          rewrite (Hb w eq_refl); destruct r
      | create_output_directory ?E ?p ?w =>
          let b := fresh "created" in let evs := fresh "mk" in
          let f := fresh "f" in let Hm := fresh "Hminor" in
          let Hc := fresh "Hcreated" in
          destruct (create_output_directory_run E p w)
            as (b & evs & f & Hc & Hm);
          rewrite Hc; destruct b
      | when ?b ?m ?w =>
          first
            [ lazymatch m with
              | context [EvLog Warning ?msg :: _] =>
                  rewrite (when_frame b m w (EvLog Warning msg))
                    by (intros []; reflexivity)
              end
            | run_case b; unfold when ]
      | _ => run_case y
      end
  end; msimpl.

(** The premises of the constructors of [single_run]. *)
Ltac stop_alt := (apply stop_none + apply stop_closed + eapply stop_close_failed).

Ltac shape :=
  unfold transcoded, started, failed, cleanup; cbn [app]; reflexivity.

Ltac premise :=
  lazymatch goal with
  | |- prepared _ _ _ _ _ _ => repeat split; eassumption
  | |- transcoding _ _ _ _ _ _ _ _ _ _ _ _ _ _ _ =>
      unfold transcoding;
      split; [repeat split; eassumption|];
      split; [eexists; split; [eassumption|reflexivity]|];
      split; [eassumption|];
      split; [first [eassumption | by split]|];
      split; [reflexivity|];
      match goal with
      | H : t_stop _ = _ |- _ => rewrite H
      end; stop_alt
  | |- invoked _ _ _ _ => first [eassumption | by split]
  | |- built _ _ _ _ => eassumption
  | |- Forall is_mkdir _ => eassumption
  | |- ¬ nonempty_file _ _ =>
      let Hn := fresh in let Hpos := fresh in
      intros (? & Hn & Hpos);
      first [ match goal with
              | H : exists_in _ _ = false |- _ =>
                  unfold exists_in in H; rewrite Hn in H; discriminate
              end
            | match goal with
              | H : _ = Some _, H' : (0 <? _)%Z = false |- _ =>
                  rewrite H in Hn; injection Hn as <-;
                  apply Z.ltb_ge in H'; lia
              end ]
  | |- nonempty_file _ _ =>
      eexists; split; [eassumption|];
      match goal with H : (0 <? _)%Z = true |- _ => apply Z.ltb_lt in H; exact H end
  | |- _ = _ => first [eassumption | shape]
  end.

(** Every call of [convert_single_file] returns, and runs in one of the
    ways of [single_run]. *)
Lemma convert_single_file_single_run E input_path out audio_params
    progress_callback w :
  ∃ b evs w',
    convert_single_file E input_path (Some out) audio_params
                        progress_callback w = (Ret b, w') ∧
    single_run E input_path out audio_params progress_callback w b evs w'.
Proof.
  destruct w as [cc f h n tr].
  unfold convert_single_file; msimpl.
  repeat run_step.
  all: match goal with
       | |- ∃ _ _ _, (_, mkWorld _ _ _ _ ?t) = _ ∧ _ =>
           let e := evs_of t in
           eexists _, e, _; split; [reflexivity|];
           replace t with (e ++ tr) by list_eq
       end.
  all: solve [ eapply run_missing; premise
             | eapply run_unsupported; premise
             | eapply run_no_directory; premise
             | eapply run_open_failed; premise
             | eapply run_no_audio; premise
             | eapply run_no_audio_close_failed; premise
             | eapply run_params_failed; premise
             | eapply run_callback_failed; premise
             | eapply run_transcode_failed; premise
             | eapply run_completed_failed; premise
             | eapply run_close_failed; premise
             | eapply run_output_invalid; premise
             | eapply run_converted; premise ].
  Unshelve. all: exact None.
Qed.

(* ===================================================================== *)
(** * Consequences of the run relation *)
(* ===================================================================== *)

Lemma add_events_inj evs evs' w : add_events evs w = add_events evs' w → evs = evs'.
Proof. intros [= H]. by apply app_inv_tail in H. Qed.

Lemma invoked_sinks progress_callback kw r evs :
  invoked progress_callback kw r evs → Forall is_sink evs.
Proof.
  destruct progress_callback as [f|]; simpl.
  - intros H. destruct (invoke_invoked f kw) as (r' & evs' & H' & Hs).
    pose proof (H (init (λ _, None) ∅)) as H1. rewrite H' in H1.
    injection H1 as _ H1. apply app_inv_tail in H1. by subst.
  - by intros [_ ->].
Qed.

Lemma invoked_sink raises kw r evs :
  invoked (Some (Sink raises)) kw r evs →
  evs = [EvSink kw (raises kw)] ∧
  r = match raises kw with Some e => Raise e | None => Ret tt end.
Proof.
  intros H. specialize (H (init (λ _, None) ∅)). revert H.
  unfold invoke, bind, emit, init, add_events. simpl.
  destruct (raises kw); simpl; intros [= <- H]; by rewrite app_nil_r in H.
Qed.

Lemma single_run_runs E input_path output_path audio_params
    progress_callback w :
  ∃ b evs w',
    convert_single_file E input_path output_path audio_params
                        progress_callback w = (Ret b, w') ∧
    single_run E input_path (resolved_output input_path output_path)
               audio_params progress_callback w b evs w'.
Proof.
  destruct output_path as [out|]; [|rewrite convert_single_file_default_output];
    apply convert_single_file_single_run.
Qed.

Lemma single_run_trace E input_path out audio_params progress_callback w
    b evs w' :
  single_run E input_path out audio_params progress_callback w b evs w' →
  trace w' = evs ++ trace w.
Proof. by destruct 1. Qed.

(** Brings the premises of a run into the context, with what they say of
    the segments of the history. *)
Ltac run_facts :=
  repeat match goal with
         | H : transcoding _ _ _ _ _ _ _ _ _ _ _ _ _ _ _ |- _ =>
             destruct H as (? & (? & ? & ?) & ? & ? & ? & ?)
         | H : prepared _ _ _ _ _ _ |- _ => destruct H as (? & ? & ? & ?)
         | H : Forall is_mkdir ?l |- _ =>
             lazymatch goal with
             | _ : Forall minor l |- _ => fail
             | _ => pose proof (is_mkdir_minor l H)
             end
         | H : invoked _ _ _ ?l |- _ =>
             lazymatch goal with
             | _ : Forall is_sink l |- _ => fail
             | _ => pose proof (invoked_sinks _ _ _ _ H)
             end
         | H : Forall is_sink ?l |- _ =>
             lazymatch goal with
             | _ : Forall minor l |- _ => fail
             | _ => pose proof (is_sink_minor l H)
             end
         end.

Ltac run_inv H :=
  destruct H; run_facts; subst;
  repeat match goal with
         | H : stopped _ _ _ _ |- _ => destruct H
         end;
  unfold transcoded, started, failed, cleanup in *.

Lemma minor_maybe_warning b m : Forall minor (perhaps b (EvLog Warning m)).
Proof. destruct b; by repeat constructor. Qed.

Lemma held_step_minor e h : minor e → held_step e h = h.
Proof. by destruct e as [[]| | ?[]| | | |]. Qed.

Lemma held_minor evs tr : Forall minor evs → held (evs ++ tr) = held tr.
Proof.
  induction 1 as [|e evs He _ IH]; [done|].
  simpl. by rewrite IH, held_step_minor.
Qed.

Lemma one_at_a_time_held tr : one_at_a_time tr → length (held tr) ≤ 1.
Proof. destruct tr; simpl; [lia|tauto]. Qed.

Lemma one_at_a_time_minor evs tr :
  Forall minor evs → one_at_a_time (evs ++ tr) ↔ one_at_a_time tr.
Proof.
  induction 1 as [|e evs He Hevs IH]; [done|].
  cbn [app one_at_a_time held]. rewrite IH, held_minor, held_step_minor by done.
  split; [tauto|]. intros H. split; [|done]. by apply one_at_a_time_held.
Qed.

(** Closes the goals on handles. *)
Ltac handles :=
  unfold idle; cbn [current_clip trace app];
  repeat (cbn [app]; rewrite <- app_assoc); cbn [app];
  repeat (cbn [one_at_a_time held held_step app];
          rewrite ?held_minor, ?one_at_a_time_minor
            by first [assumption | apply minor_maybe_warning]);
  repeat match goal with
         | H : held ?tr = [] |- _ => rewrite !H
         end;
  cbn [filter list_filter length clip_id];
  repeat (rewrite ?decide_True, ?decide_False by (auto; congruence);
          cbn [filter list_filter length]);
  repeat split; auto; try lia.

(** A run leaves an idle converter idle. *)
Lemma single_run_idle E input_path out audio_params progress_callback w
    b evs w' :
  single_run E input_path out audio_params progress_callback w b evs w' →
  idle w → idle w'.
Proof.
  intros Hrun (Hcc & Hheld & Hone). run_inv Hrun.
  all: rewrite ?Hcc; handles.
Qed.

Lemma processed_app l1 l2 : processed (l1 ++ l2) = processed l1 ++ processed l2.
Proof. apply omap_app. Qed.

Lemma converted_app l1 l2 : converted (l1 ++ l2) = converted l1 ++ converted l2.
Proof. apply omap_app. Qed.

Lemma processed_cons e l :
  processed (e :: l) = option_list (processing_of e) ++ processed l.
Proof. unfold processed. simpl. by destruct (processing_of e). Qed.

Lemma converted_cons e l :
  converted (e :: l) = option_list (converted_of e) ++ converted l.
Proof. unfold converted. simpl. by destruct (converted_of e). Qed.

Lemma processed_none evs :
  Forall (λ e, processing_of e = None) evs → processed evs = [].
Proof.
  induction 1 as [|e evs He _ IH]; [done|].
  by rewrite processed_cons, IH, He.
Qed.

Lemma converted_none evs :
  Forall (λ e, converted_of e = None) evs → converted evs = [].
Proof.
  induction 1 as [|e evs He _ IH]; [done|].
  by rewrite converted_cons, IH, He.
Qed.

Lemma Forall_is_mkdir (P : Event → Prop) l :
  (∀ d ok, P (EvMakedirs d ok)) → Forall is_mkdir l → Forall P l.
Proof.
  intros HP H. eapply Forall_impl; [exact H|]. by intros [] ?.
Qed.

Lemma Forall_is_sink (P : Event → Prop) l :
  (∀ kw r, P (EvSink kw r)) → Forall is_sink l → Forall P l.
Proof.
  intros HP H. eapply Forall_impl; [exact H|]. by intros [] ?.
Qed.

Lemma Forall_perhaps (P : Event → Prop) b e : P e → Forall P (perhaps b e).
Proof. destruct b; by repeat constructor. Qed.

Lemma Forall_elem {A} (P : A → Prop) l x : Forall P l → x ∈ l → P x.
Proof. intros H. by apply Forall_forall. Qed.

(** A property of the events of a run, segment by segment. *)
Ltac event_fact :=
  first [ reflexivity | exact I | exact (λ H : False, H)
        | split; reflexivity | split; exact (λ H : False, H)
        | apply lookup_insert_eq ].

Ltac forall_events :=
  repeat first
    [ apply Forall_nil_2
    | apply Forall_cons_2; [event_fact|]
    | apply Forall_app_2
    | apply Forall_perhaps; event_fact
    | match goal with
      | H : Forall is_mkdir ?l |- Forall _ ?l =>
          apply (Forall_is_mkdir _ l); [intros; event_fact|exact H]
      | H : Forall is_sink ?l |- Forall _ ?l =>
          apply (Forall_is_sink _ l); [intros; event_fact|exact H]
      end ].

(** A run announces no file of a batch, and reports a conversion exactly
    when it returns [True]. *)
Lemma single_run_observed E input_path out audio_params progress_callback w
    b evs w' :
  single_run E input_path out audio_params progress_callback w b evs w' →
  processed evs = [] ∧ converted evs = (if b then [out] else []).
Proof.
  intros Hrun. run_inv Hrun; try destruct (current_clip w); split.
  all: lazymatch goal with
       | |- processed _ = [] => apply processed_none
       | |- converted _ = [] => apply converted_none
       | |- converted _ = [_] =>
           rewrite converted_cons; cbn [converted_of option_list app];
           f_equal; apply converted_none
       end.
  all: forall_events.
Qed.

(** Once no handle is held, every handle that was opened has had [close]
    called on it since. *)
Lemma held_closed post p c rest :
  held (post ++ EvOpen p (inr c) :: rest) = [] →
  ∃ c' r, EvClose c' r ∈ post ∧ clip_id c' = clip_id c.
Proof.
  intros Hheld.
  assert (clip_id c ∈ held (post ++ EvOpen p (inr c) :: rest) ∨
          ∃ c' r, EvClose c' r ∈ post ∧ clip_id c' = clip_id c) as [Hin|Hc];
    [|by rewrite Hheld in Hin; apply elem_of_nil in Hin|done].
  clear Hheld. induction post as [|e post IH]; [left; simpl; left|].
  destruct IH as [Hin|(c' & r & Hc & Hid)].
  - destruct e as [| |? [|]|c' r| | |]; cbn [app held held_step];
      try (by left); try (left; by right).
    destruct (decide (clip_id c = clip_id c')) as [Heq|Hne].
    + right. exists c', r. split; [left|done].
    + left. apply list_elem_of_filter. done.
  - right. exists c', r. split; [by right|done].
Qed.

(** Membership in an explicit history. *)
Ltac elem_of_events :=
  repeat first
    [ apply list_elem_of_here
    | apply elem_of_app; left; apply list_elem_of_here
    | apply list_elem_of_further
    | apply elem_of_app; right ].

(** C2.  Whatever the file system, moviepy and the callback do, when the
    handle that [convert_single_file] opened has no audio track, the call
    returns [False], [close] is called on that handle after it was opened,
    the no-audio-track error is logged, the transcoder is not called, and no
    clip is current on return.  The no-audio-track error is logged on this
    path only. *)
Theorem no_audio_track_never_transcoded E input_path output_path
    audio_params progress_callback w :
  ∃ b evs w',
    convert_single_file E input_path output_path audio_params
                        progress_callback w = (Ret b, w') ∧
    trace w' = evs ++ trace w ∧
    (∀ p c, EvOpen p (inr c) ∈ evs → clip_audio c = false →
       b = false ∧
       (∃ post pre r,
          evs = post ++ EvOpen p (inr c) :: pre ∧ EvClose c r ∈ post) ∧
       EvLog Error (NoAudioTrack input_path) ∈ evs ∧
       Forall (λ e, ¬ is_transcode e) evs ∧
       current_clip w' = None) ∧
    (EvLog Error (NoAudioTrack input_path) ∈ evs →
     ∃ c, EvOpen input_path (inr c) ∈ evs ∧ clip_audio c = false).
Proof.
  destruct (single_run_runs E input_path output_path audio_params
              progress_callback w) as (b & evs & w' & Hrun & Hsr).
  exists b, evs, w'. split; [done|].
  split; [by eapply single_run_trace|].
  run_inv Hsr; try destruct (current_clip w).
  all: lazymatch goal with
       | _ : env_VideoFileClip _ _ _ = inr (false, ?d) |- _ =>
           (* the two runs on a clip without audio *)
           lazymatch goal with
           | |- (∀ p c, _ ∈ ?evs → _) ∧ _ =>
               assert (Forall (λ e, match e with
                                    | EvOpen p (inr c) =>
                                        p = input_path ∧
                                        c = mkClip (next_id w) input_path
                                                   false d
                                    | _ => True
                                    end) evs) as Hopen by forall_events;
               split;
               [intros p c' Hin _;
                destruct (Forall_elem _ _ _ Hopen Hin) as [Hp Hc];
                subst p c';
                split; [done|]; split;
                [first [ by eexists [_; _], _, _; split;
                            [reflexivity|elem_of_events]
                       | by eexists [_; _; _; _], _, _; split;
                            [reflexivity|elem_of_events] ]|];
                split; [elem_of_events|]; split; [forall_events|done]
               |intros _; eexists; split; [elem_of_events|reflexivity]]
           end
       | |- (∀ p c, _ ∈ ?evs → _) ∧ _ =>
           (* the other runs: no clip without audio, no such error *)
           assert (Forall (λ e, match e with
                                | EvOpen _ (inr c) => clip_audio c = true
                                | EvLog Error (NoAudioTrack _) => False
                                | _ => True
                                end) evs) as Hopen by forall_events;
           split;
           [intros p c' Hin Haudio;
            pose proof (Forall_elem _ _ _ Hopen Hin) as Hc; simpl in Hc;
            congruence
           |intros Hin; destruct (Forall_elem _ _ _ Hopen Hin)]
       end.
Qed.

(** C3, amended.  Every call returns.  It returns [True] only if, on return,
    the destination exists with a size above zero; and when the transcoder
    returned without error and nothing raised afterwards (no failure of the
    call is logged), it returns [True] exactly if the destination exists
    with a size above zero. *)
Theorem verified_output_decides_success E input_path output_path
    audio_params progress_callback w :
  ∃ b evs w',
    convert_single_file E input_path output_path audio_params
                        progress_callback w = (Ret b, w') ∧
    trace w' = evs ++ trace w ∧
    (b = true →
     nonempty_file (fs w') (resolved_output input_path output_path)) ∧
    (∀ c kw h,
       EvTranscode c (resolved_output input_path output_path) kw h None
         ∈ evs →
       (∀ e, EvLog Error (ConvertFailed input_path e) ∉ evs) →
       (b = true ↔
        nonempty_file (fs w') (resolved_output input_path output_path))).
Proof.
  destruct (single_run_runs E input_path output_path audio_params
              progress_callback w) as (b & evs & w' & Hrun & Hsr).
  exists b, evs, w'. split; [done|].
  split; [by eapply single_run_trace|].
  run_inv Hsr; try destruct (current_clip w);
    (split; [intros Hb; first [discriminate Hb | assumption]
            |intros c' kw h Hin Hno]).
  all: first
    [ solve [ exfalso; eapply Hno; elem_of_events ]
    | solve [ exfalso;
              match type of Hin with
              | _ ∈ ?evs =>
                  assert (Forall (λ e, match e with
                                       | EvTranscode _ _ _ _ None => False
                                       | _ => True
                                       end) evs) as Hnone by forall_events;
                  destruct (Forall_elem _ _ _ Hnone Hin)
              end ]
    | split; [intros; assumption | reflexivity]
    | split; [discriminate | intros; contradiction] ].
Qed.

(** The events before the call of [VideoFileClip], most recent first. *)
Ltac before_open t :=
  lazymatch t with
  | EvOpen _ _ :: _ => constr:(@nil Event)
  | ?e :: ?t' => let r := before_open t' in constr:(e :: r)
  | ?l ++ ?t' => let r := before_open t' in constr:(l ++ r)
  end.

Lemma create_output_directory_present E output_path w :
  exists_in (fs w) (os_path.dirname output_path) = true ∨
  os_path.dirname output_path = "" →
  create_output_directory E output_path w = (Ret true, w).
Proof.
  destruct w as [cc f h n tr]. unfold create_output_directory. msimpl.
  intros [->| ->]; [|done]. by destruct (Str.is_empty _).
Qed.

Lemma created_present E output_path w b cc f1 h n mk :
  create_output_directory E output_path w
  = (Ret b, mkWorld cc f1 h n (mk ++ trace w)) →
  exists_in (fs w) (os_path.dirname output_path) = true ∨
  os_path.dirname output_path = "" →
  b = true ∧ f1 = fs w ∧ mk = [].
Proof.
  intros H Hdir. rewrite (create_output_directory_present _ _ _ Hdir) in H.
  destruct w as [cc' f h' n' tr]. cbn [fs trace] in *.
  injection H as <- _ <- _ _ Htr. repeat split.
  symmetry. by apply (app_inv_tail tr [] mk).
Qed.

Lemma built_det audio_params h r h1 r' h1' :
  built audio_params h r h1 → built audio_params h r' h1' →
  r = r' ∧ h1 = h1'.
Proof.
  intros H H'.
  specialize (H (mkWorld None (λ _, None) h 0 []) eq_refl).
  specialize (H' (mkWorld None (λ _, None) h 0 []) eq_refl).
  rewrite H in H'. unfold with_heap in H'. cbn in H'. by injection H'.
Qed.

Lemma invoked_det progress_callback kw r evs r' evs' :
  invoked progress_callback kw r evs → invoked progress_callback kw r' evs' →
  r = r'.
Proof.
  destruct progress_callback as [f|]; simpl.
  - intros H H'. specialize (H (init (λ _, None) ∅)).
    specialize (H' (init (λ _, None) ∅)). rewrite H in H'. by injection H'.
  - by intros [-> _] [-> _].
Qed.

(** A valid source whose output directory is in place, which opens with an
    audio track, for which the parameters are built and the callback
    returns: the transcoder is called, on the file system of the call, and
    the file system on return is the one it left. *)
Lemma single_run_reaches_transcoder E input_path out audio_params
    progress_callback w b evs w' d dp h1 cb1 :
  single_run E input_path out audio_params progress_callback w b evs w' →
  exists_in (fs w) input_path = true →
  validate_file_extension input_path = true →
  exists_in (fs w) (os_path.dirname out) = true ∨ os_path.dirname out = "" →
  env_VideoFileClip E input_path (fs w) = inr (true, d) →
  built audio_params (heap w) (Ret dp) h1 →
  invoked progress_callback
          (progress_kw "converting" 0
             (duration_or_0 (mkClip (next_id w) input_path true d)))
          (Ret tt) cb1 →
  let c := mkClip (next_id w) input_path true d in
  let kw := <["logger" := logger_for progress_callback]> dp in
  let o := env_write_audiofile E c out kw h1 (fs w) in
  EvTranscode c out kw h1 (t_exn o) ∈ evs ∧ fs w' = t_fs o.
Proof.
  intros Hsr Hsrc Hext Hdir Hopen Hbuilt Hcb c kw o.
  destruct Hsr; run_facts; try congruence.
  all: match goal with
       | H : create_output_directory _ _ _ = _ |- _ =>
           destruct (created_present _ _ _ _ _ _ _ _ _ H Hdir) as (Hb & -> & ->);
           try discriminate Hb
       end.
  all: try congruence.
  all: repeat match goal with
       | H : env_VideoFileClip _ _ _ = inr (true, ?d') |- _ =>
           rewrite Hopen in H; injection H as <-
       | H : built _ _ (Raise _) _ |- _ =>
           destruct (built_det _ _ _ _ _ _ Hbuilt H) as [Hr _]; discriminate Hr
       | H : built _ _ (Ret ?dp') _ |- _ =>
           tryif constr_eq H Hbuilt then fail
           else (destruct (built_det _ _ _ _ _ _ Hbuilt H) as [Hr Hh]; clear H;
                 injection Hr as <-; subst)
       end.
  all: subst.
  all: try match goal with
       | H : invoked _ _ (Raise _) _ |- _ =>
           by pose proof (invoked_det _ _ _ _ _ _ Hcb H)
       end.
  all: repeat match goal with H : stopped _ _ _ _ |- _ => destruct H end;
    unfold transcoded, started, failed, cleanup;
    try destruct (current_clip w).
  all: subst c kw o; cbn [fs].
  all: match goal with H : t_exn _ = _ |- _ => rewrite H end.
  all: split; [elem_of_events|reflexivity].
Qed.

(** C9.  [convert_single_file] has no overwrite flag, and an output that is
    already there stops nothing: the warning is logged and the very next
    thing the call does is to open the source; the transcoder, whenever it
    is called, is handed that same output path.  A valid source whose
    output file and output directory exist does get the warning.  And the
    conversion goes on to the transcoder, whether or not the output is
    already there: for a valid source with the output directory in place,
    when the source opens with an audio track, the parameters are built and
    the callback returns, the transcoder is called for that output path on
    the file system of the call, and the file system on return is the one
    the transcoder left. *)
Theorem existing_output_is_overwritten E input_path output_path audio_params
    progress_callback w :
  let out := resolved_output input_path output_path in
  ∃ b evs w',
    convert_single_file E input_path output_path audio_params
                        progress_callback w = (Ret b, w') ∧
    trace w' = evs ++ trace w ∧
    (EvLog Warning (OutputExists out) ∈ evs →
     ∃ r post pre,
       evs = post ++ EvOpen input_path r
                  :: EvLog Warning (OutputExists out) :: pre) ∧
    Forall (λ e, match e with
                 | EvTranscode _ o _ _ _ => o = out
                 | _ => True
                 end) evs ∧
    (exists_in (fs w) input_path = true →
     validate_file_extension input_path = true →
     exists_in (fs w) (os_path.dirname out) = true ∨
       os_path.dirname out = "" →
     exists_in (fs w) out = true →
     EvLog Warning (OutputExists out) ∈ evs) ∧
    (exists_in (fs w) input_path = true →
     validate_file_extension input_path = true →
     exists_in (fs w) (os_path.dirname out) = true ∨
       os_path.dirname out = "" →
     ∀ d dp h1 cb1,
       let c := mkClip (next_id w) input_path true d in
       let kw := <["logger" := logger_for progress_callback]> dp in
       let o := env_write_audiofile E c out kw h1 (fs w) in
       env_VideoFileClip E input_path (fs w) = inr (true, d) →
       built audio_params (heap w) (Ret dp) h1 →
       invoked progress_callback
               (progress_kw "converting" 0 (duration_or_0 c)) (Ret tt) cb1 →
       EvTranscode c out kw h1 (t_exn o) ∈ evs ∧ fs w' = t_fs o).
Proof.
  intros out.
  destruct (single_run_runs E input_path output_path audio_params
              progress_callback w) as (b & evs & w' & Hrun & Hsr).
  fold out in Hsr. clearbody out.
  exists b, evs, w'. split; [done|].
  split; [by eapply single_run_trace|].
  match goal with
  | |- ?A ∧ ?B ∧ ?C ∧ ?D =>
      cut (A ∧ B ∧ C);
      [intros (H3 & H4 & H5);
       refine (conj H3 (conj H4 (conj H5 _)));
       intros Hsrc Hext Hdir d dp h1 cb1 c kw o Hopen Hbuilt Hcb;
       exact (single_run_reaches_transcoder _ _ _ _ _ _ _ _ _ _ _ _ _
                Hsr Hsrc Hext Hdir Hopen Hbuilt Hcb)|]
  end.
  destruct Hsr; run_facts; subst;
    repeat match goal with H : stopped _ _ _ _ |- _ => destruct H end;
    unfold transcoded, started, failed, cleanup in *;
    try destruct (current_clip w).
  all: split; [|split; [forall_events|]].
  (* the warning is followed by the call of [VideoFileClip] *)
  all: try match goal with
       | |- _ ∈ ?evs → _ =>
           lazymatch evs with
           | context [perhaps ?b _] =>
               destruct b eqn:Hpresent; cbn [perhaps app];
               [intros _;
                match goal with
                | |- ∃ r post pre, ?t = _ =>
                    let p := before_open t in
                    eexists _, p, _; list_eq
                end
               |intros Hin; exfalso;
                match type of Hin with
                | _ ∈ ?evs' =>
                    assert (Forall (λ e, match e with
                                         | EvLog Warning _ => False
                                         | _ => True
                                         end) evs') as Hnone
                      by forall_events;
                    destruct (Forall_elem _ _ _ Hnone Hin)
                end]
           | _ =>
               intros Hin; exfalso;
               assert (Forall (λ e, match e with
                                    | EvLog Warning _ => False
                                    | _ => True
                                    end) evs) as Hnone by forall_events;
               destruct (Forall_elem _ _ _ Hnone Hin)
           end
       end.
  (* a valid source with its output in place *)
  all: intros Hsrc Hext Hdir Hout.
  all: try congruence.
  all: match goal with
       | H : create_output_directory _ _ _ = _ |- _ =>
           destruct (created_present _ _ _ _ _ _ _ _ _ H Hdir) as (Hb & -> & ->);
           try discriminate Hb
       end.
  all: rewrite Hout; cbn [perhaps app]; elem_of_events.
Qed.

Lemma stopped_no_sink c b current stop :
  stopped c b current stop → Forall (λ e, ¬ is_sink e) stop.
Proof. destruct 1; repeat constructor; exact (λ H : False, H). Qed.

Lemma invoked_none kw r evs : invoked None kw r evs → evs = [].
Proof. by intros [_ ->]. Qed.

(** The premises of a run, with the stop request left as it is. *)
Ltac run_inv_keep H :=
  destruct H; run_facts; subst;
  repeat match goal with
         | H : stopped _ _ _ _ |- _ =>
             lazymatch goal with
             | _ : Forall (λ e, ¬ is_sink e) _ |- _ => fail
             | _ => pose proof (stopped_no_sink _ _ _ _ H)
             end
         end;
  unfold transcoded, started, failed, cleanup in *.

(** C6, amended.  The two progress events go to the caller's callback, and
    exist only if there is one.  With a callback [Sink raises], a call that
    returns [True] called it exactly twice: with [phase='converting'],
    [t=0] and the duration of the clip (0 when unknown) after the source
    was opened and before the transcoder was called, and with
    [phase='completed'] and the duration as [t] after the transcoder
    returned without error; the transcoder got [logger=None].  With no
    callback nothing is reported, whatever the outcome, and the transcoder
    gets [logger='bar']. *)
Theorem progress_events_go_to_the_callback E input_path output_path
    audio_params progress_callback w :
  let out := resolved_output input_path output_path in
  ∃ b evs w',
    convert_single_file E input_path output_path audio_params
                        progress_callback w = (Ret b, w') ∧
    trace w' = evs ++ trace w ∧
    (∀ raises, progress_callback = Some (Sink raises) → b = true →
       ∃ c kw h post stop pre,
         evs = post
               ++ EvSink (progress_kw "completed" (duration_or_0 c)
                                      (duration_or_0 c)) None
               :: stop
               ++ EvTranscode c out kw h None
               :: EvSink (progress_kw "converting" 0 (duration_or_0 c)) None
               :: EvOpen input_path (inr c) :: pre ∧
         kw !! "logger" = Some PNone ∧
         Forall (λ e, ¬ is_sink e) post ∧
         Forall (λ e, ¬ is_sink e) stop ∧
         Forall (λ e, ¬ is_sink e) pre) ∧
    (progress_callback = None →
       Forall (λ e, match e with
                    | EvSink _ _ => False
                    | EvTranscode _ _ kw _ _ =>
                        kw !! "logger" = Some (PStr "bar")
                    | _ => True
                    end) evs).
Proof.
  intros out.
  destruct (single_run_runs E input_path output_path audio_params
              progress_callback w) as (b & evs & w' & Hrun & Hsr).
  fold out in Hsr. clearbody out.
  exists b, evs, w'. split; [done|].
  split; [by eapply single_run_trace|].
  split.
  - intros raises -> Hb. run_inv_keep Hsr; try discriminate Hb.
    repeat match goal with
           | H : invoked (Some (Sink _)) _ _ _ |- _ =>
               apply invoked_sink in H as [-> ?]
           end.
    destruct (raises (progress_kw "converting" _ _)); [discriminate|].
    destruct (raises (progress_kw "completed" _ _)); [discriminate|].
    match goal with
    | Hs : stopped ?c _ _ ?stop, Hm : Forall is_mkdir ?mk |- _ =>
        eexists c, _, _, [_; _], stop, _
    end.
    split; [cbn [app]; reflexivity|].
    split; [apply lookup_insert_eq|].
    split; [repeat constructor; exact (λ H : False, H)|].
    split; [assumption|].
    forall_events.
  - intros ->. run_inv Hsr; try destruct (current_clip w).
    all: repeat match goal with
                | H : invoked None _ _ _ |- _ =>
                    apply invoked_none in H; subst
                end.
    all: cbn [app logger_for].
    all: forall_events.
Qed.

Lemma with_heap_same w : with_heap (heap w) w = w.
Proof. by destruct w. Qed.

Lemma with_heap_inj h h' w : with_heap h w = with_heap h' w → h = h'.
Proof. by intros [= ->]. Qed.

Lemma updated_defaults_lookup ap k :
  updated_defaults ap !! k
  = if decide (k ∈ supported_params)
    then match ap !! k with
         | Some v => Some v
         | None => if decide (k = "codec") then Some (PStr "pcm_s16le")
                   else None
         end
    else if decide (k = "logger") then Some PNone else None.
Proof.
  unfold updated_defaults. rewrite lookup_union, map_lookup_filter.
  assert (({[ "codec" := PStr "pcm_s16le"; "logger" := PNone ]} : dict) !! k
          = if decide (k = "codec") then Some (PStr "pcm_s16le")
            else if decide (k = "logger") then Some PNone else None) as ->.
  { destruct (decide (k = "codec")) as [->|]; [done|].
    rewrite lookup_insert_ne by done.
    destruct (decide (k = "logger")) as [->|];
      [by rewrite lookup_singleton_eq|by rewrite lookup_singleton_ne]. }
  destruct (decide (k ∈ supported_params)) as [Hk|Hk].
  - destruct (ap !! k) as [v|] eqn:Hv; simpl.
    + rewrite option_guard_True by done. simpl.
      by repeat destruct (decide _).
    + destruct (decide (k = "codec")); [done|].
      destruct (decide (k = "logger")) as [->|]; [|done].
      exfalso. revert Hk. clear. unfold supported_params. set_solver.
  - destruct (ap !! k) as [v|] eqn:Hv; simpl.
    + rewrite option_guard_False by done. simpl.
      destruct (decide (k = "codec")) as [->|]; [|by destruct (decide _)].
      exfalso. apply Hk. unfold supported_params. set_solver.
    + destruct (decide (k = "codec")) as [->|]; [|by destruct (decide _)].
      exfalso. apply Hk. unfold supported_params. set_solver.
Qed.

Lemma updated_defaults_empty :
  updated_defaults ∅ = {[ "codec" := PStr "pcm_s16le"; "logger" := PNone ]}.
Proof.
  unfold updated_defaults. by rewrite map_filter_empty, (left_id_L ∅ (∪)).
Qed.

(** What [default_params] computes, by the [channels] and [ffmpeg_params]
    the caller gave. *)
Lemma default_params_spec audio_params w :
  let ap := default ∅ audio_params in
  let h := heap w in
  default_params audio_params w =
  match ap !! "channels", ap !! "ffmpeg_params" with
  | None, _ => (Ret (updated_defaults ap), w)
  | Some _, None =>
      (Ret (<["ffmpeg_params" := PList (fresh (dom h))]> (updated_defaults ap)),
       with_heap (<[fresh (dom h) := channel_args ap]> h) w)
  | Some _, Some (PList a) =>
      (Ret (updated_defaults ap),
       match channel_args ap with
       | [] => w
       | args => with_heap (<[a := h !!! a ++ args]> h) w
       end)
  | Some _, Some _ =>
      match channel_args ap with
      | [] => (Ret (updated_defaults ap), w)
      | _ => (Raise (AttributeError "object has no attribute 'extend'"), w)
      end
  end.
Proof.
  intros ap h. subst ap h. unfold default_params.
  destruct audio_params as [ap|]; simpl default;
    [|by rewrite updated_defaults_empty].
  case_bool_decide as Hempty;
    [subst ap; by rewrite !lookup_empty, updated_defaults_empty|].
  fold (updated_defaults ap). unfold channel_args.
  destruct (ap !! "channels") as [channels|]; [|done].
  rewrite updated_defaults_lookup.
  rewrite decide_True by (unfold supported_params; set_solver).
  rewrite decide_False by done.
  destruct w as [cc f h n tr]. cbn [heap].
  destruct (ap !! "ffmpeg_params") as [v|] eqn:Hv.
  - unfold bind, ret. cbn beta iota.
    assert (updated_defaults ap !!! "ffmpeg_params" = v) as Hlook.
    { unfold lookup_total, map_lookup_total.
      rewrite updated_defaults_lookup.
      rewrite decide_True by (unfold supported_params; set_solver).
      by rewrite Hv. }
    rewrite Hlook.
    destruct (py_eq_int channels 1); [|destruct (py_eq_int channels 2)];
      by destruct v.
  - unfold bind, ret, new_list. cbn beta iota zeta. cbn [heap].
    rewrite lookup_total_insert_eq.
    destruct (py_eq_int channels 1); [|destruct (py_eq_int channels 2)];
      unfold py_extend, with_heap;
      cbn [heap current_clip fs next_id trace];
      rewrite ?lookup_total_insert_eq, ?insert_insert_eq; done.
Qed.

Lemma supported_not_logger k : k ∈ supported_params → k ≠ "logger".
Proof. unfold supported_params. set_solver. Qed.

Lemma forwarded_base (ap : dict) (lg : pyval) (dp : dict) :
  (∀ k, k ≠ "ffmpeg_params" → dp !! k = updated_defaults ap !! k) →
  (∀ k, k ∉ supported_params → k ≠ "logger" →
        <["logger" := lg]> dp !! k = None) ∧
  (∀ k, k ∈ supported_params → k ≠ "codec" → k ≠ "ffmpeg_params" →
        <["logger" := lg]> dp !! k = ap !! k) ∧
  <["logger" := lg]> dp !! "codec"
  = Some (default (PStr "pcm_s16le") (ap !! "codec")) ∧
  <["logger" := lg]> dp !! "logger" = Some lg.
Proof.
  intros Hdp. repeat split.
  - intros k Hk Hl. rewrite lookup_insert_ne by done.
    rewrite Hdp, updated_defaults_lookup.
    + by rewrite !decide_False.
    + intros ->. apply Hk. unfold supported_params. set_solver.
  - intros k Hk Hc Hf. rewrite lookup_insert_ne, Hdp by
      first [done | by apply not_eq_sym, supported_not_logger].
    rewrite updated_defaults_lookup, decide_True, decide_False by done.
    by destruct (ap !! k).
  - rewrite lookup_insert_ne, Hdp, updated_defaults_lookup by done.
    rewrite decide_True by (unfold supported_params; set_solver).
    by destruct (ap !! "codec").
  - apply lookup_insert_eq.
Qed.

Lemma updated_defaults_ffmpeg (ap : dict) :
  updated_defaults ap !! "ffmpeg_params" = ap !! "ffmpeg_params".
Proof.
  rewrite updated_defaults_lookup.
  rewrite decide_True by (unfold supported_params; set_solver).
  by destruct (ap !! "ffmpeg_params").
Qed.

(** The parameters built for the transcoder. *)
Lemma built_forwarded audio_params h0 dp h1 lg :
  built audio_params h0 (Ret dp) h1 →
  forwarded (default ∅ audio_params) lg h0 (<["logger" := lg]> dp) h1.
Proof.
  intros Hb. specialize (Hb (mkWorld None (λ _, None) h0 0 []) eq_refl).
  rewrite default_params_spec in Hb. cbn [heap] in Hb.
  set (ap := default ∅ audio_params) in *. unfold forwarded.
  assert (∀ k, k ≠ "ffmpeg_params" → dp !! k = updated_defaults ap !! k)
    as Hdp.
  { destruct (ap !! "channels"); [destruct (ap !! "ffmpeg_params") as [[]|]|];
      try destruct (channel_args ap); try discriminate Hb;
      apply (f_equal fst) in Hb; cbn [fst] in Hb;
      injection Hb as <-; intros k Hk; by rewrite ?lookup_insert_ne. }
  destruct (forwarded_base ap lg dp Hdp) as (H1 & H2 & H3 & H4).
  repeat (split; [assumption|]). clear H1 H2 H3 H4 Hdp.
  rewrite lookup_insert_ne by done.
    assert (∀ (x y : Res dict * World),
              x = y → x.1 = y.1 ∧ heap x.2 = heap y.2) as Hsplit
      by (by intros ?? ->).
    destruct (ap !! "channels") as [ch|] eqn:Hch.
    + destruct (ap !! "ffmpeg_params") as [v|] eqn:Hv.
      * assert (updated_defaults ap !! "ffmpeg_params" = Some v) as Hf
          by (by rewrite updated_defaults_ffmpeg).
        destruct v as [| | | |a];
          destruct (channel_args ap) as [|x args] eqn:Hargs;
          try discriminate Hb; apply Hsplit in Hb as [Hd Hh];
          cbv [with_heap heap fst snd] in Hd, Hh;
          injection Hd as <-; subst h1;
          rewrite ?app_nil_r; try done.
        split; [done|]. split; [by rewrite lookup_total_insert_eq|].
        intros a' Ha. by rewrite lookup_insert_ne.
      * apply Hsplit in Hb as [Hd Hh].
        cbv [with_heap heap fst snd] in Hd, Hh.
        injection Hd as <-; subst h1. exists (fresh (dom h0)).
        split; [apply is_fresh|]. split; [apply lookup_insert_eq|].
        split; [by rewrite lookup_total_insert_eq|].
        intros a' Ha. by rewrite lookup_insert_ne.
    + apply Hsplit in Hb as [Hd Hh].
      cbv [with_heap heap fst snd] in Hd, Hh.
      injection Hd as <-; subst h1.
      split; [apply updated_defaults_ffmpeg|done].
Qed.

(** Building the parameters raises in one case only: [channels] is 1 or 2
    and the caller's [ffmpeg_params] is not a list. *)
Lemma default_params_raises audio_params w e w' :
  default_params audio_params w = (Raise e, w') →
  ∃ v, default ∅ audio_params !! "ffmpeg_params" = Some v ∧
       (∀ a, v ≠ PList a) ∧
       channel_args (default ∅ audio_params) ≠ [].
Proof.
  rewrite default_params_spec.
  destruct (_ !! "channels"); [|discriminate].
  destruct (_ !! "ffmpeg_params") as [v|]; [|discriminate].
  destruct v; try discriminate;
    (destruct (channel_args _); [discriminate|]);
    intros _; by eexists.
Qed.


(** C5.  The path [generate_output_path] returns is a function of its three
    arguments alone, whatever the converter's state and the file system:
    a prefix that does not depend on the format, then the stem of the
    source, a dot and the format.  The prefix is the output directory when
    one is given (a non-empty string), otherwise the parent of the source,
    followed by a separator unless it ends with one.  The call never raises;
    with an output directory it may create that directory and does nothing
    else, without one it does nothing at all.  For ["clip.mov"], no output
    directory and ["wav"], the result is ["./clip.wav"]. *)
Theorem output_path_is_stem_and_format input_path output_dir :
  let stem := Path.stem (Path.parse input_path) in
  let dir := if truthy output_dir then default "" output_dir
             else Path.to_str (Path.parent (Path.parse input_path)) in
  let prefix := if Str.is_empty dir || Str.endswith sep dir then dir
                else dir +:+ "/" in
  (∀ E output_format w,
     ∃ evs fs',
       generate_output_path E input_path output_dir output_format w
       = (Ret (prefix +:+ stem +:+ "." +:+ output_format),
          mkWorld (current_clip w) fs' (heap w) (next_id w)
                  (evs ++ trace w)) ∧
       Forall is_mkdir evs ∧
       (truthy output_dir = false → evs = [] ∧ fs' = fs w)) ∧
  (∀ E w, generate_output_path E "clip.mov" None "wav" w
          = (Ret "./clip.wav", w)).
Proof.
  intros stem dir prefix. split; [|by intros E []].
  intros E output_format w.
  destruct (generate_output_path_run E input_path output_dir output_format w)
    as (evs & fs' & Hrun & Hmk & Hnone).
  exists evs, fs'. split; [|done].
  rewrite Hrun. do 2 f_equal.
  subst prefix dir stem.
  destruct (truthy output_dir);
    by rewrite join_relative by apply output_filename_relative.
Qed.

Lemma bind_run {A B} (m : M A) (k : A → M B) w a w1 :
  m w = (Ret a, w1) → bind m k w = k a w1.
Proof. unfold bind. by intros ->. Qed.

Lemma bind_raise {A B} (m : M A) (k : A → M B) w e w1 :
  m w = (Raise e, w1) → bind m k w = (Raise e, w1).
Proof. unfold bind. by intros ->. Qed.

Lemma held_step_neutral e h : neutral e → held_step e h = h.
Proof. by destruct e as [| |? []| | | |]. Qed.

Lemma held_neutral evs tr : Forall neutral evs → held (evs ++ tr) = held tr.
Proof.
  induction 1 as [|e evs He _ IH]; [done|].
  simpl. by rewrite IH, held_step_neutral.
Qed.

Lemma one_at_a_time_neutral evs tr :
  Forall neutral evs → one_at_a_time (evs ++ tr) ↔ one_at_a_time tr.
Proof.
  induction 1 as [|e evs He Hevs IH]; [done|].
  cbn [app one_at_a_time held].
  rewrite IH, held_neutral, held_step_neutral by done.
  split; [tauto|]. intros H. split; [|done]. by apply one_at_a_time_held.
Qed.

(** Events that open and close nothing leave an idle converter idle. *)
Lemma idle_neutral w w' evs :
  current_clip w' = current_clip w → trace w' = evs ++ trace w →
  Forall neutral evs → idle w → idle w'.
Proof.
  intros Hcc Htr Hn (Hc & Hh & Ho). unfold idle.
  rewrite Hcc, Htr, held_neutral, one_at_a_time_neutral by done. done.
Qed.

Lemma is_sink_neutral evs : Forall is_sink evs → Forall neutral evs.
Proof. intros H. eapply Forall_impl; [exact H|]. by intros []. Qed.

Lemma is_mkdir_neutral evs : Forall is_mkdir evs → Forall neutral evs.
Proof. intros H. eapply Forall_impl; [exact H|]. by intros []. Qed.

Lemma processed_sinks evs : Forall is_sink evs → processed evs = [].
Proof. intros H. apply processed_none. by apply (Forall_is_sink _ evs). Qed.

Lemma converted_sinks evs : Forall is_sink evs → converted evs = [].
Proof. intros H. apply converted_none. by apply (Forall_is_sink _ evs). Qed.

Lemma processed_mkdirs evs : Forall is_mkdir evs → processed evs = [].
Proof. intros H. apply processed_none. by apply (Forall_is_mkdir _ evs). Qed.

Lemma converted_mkdirs evs : Forall is_mkdir evs → converted evs = [].
Proof. intros H. apply converted_none. by apply (Forall_is_mkdir _ evs). Qed.

(** A sink that keeps its contract returns. *)
Lemma invoke_quiet f kw r evs :
  quiet (Some f) → (∀ w, invoke f kw w = (r, add_events evs w)) → r = Ret tt.
Proof.
  destruct f as [raises|]; [|done]. simpl. intros Hq H.
  specialize (H (init (λ _, None) ∅)). revert H.
  unfold bind, emit. rewrite Hq. simpl. by intros [= <- _].
Qed.

(** A progress call of [convert_batch]: made only if there is a callback. *)
Lemma notify_run (progress_callback : option callable) kw :
  ∃ r cb,
    (∀ w, match progress_callback with
          | Some callback => invoke callback kw
          | None => ret tt
          end w = (r, add_events cb w)) ∧
    Forall is_sink cb ∧
    (quiet progress_callback → r = Ret tt).
Proof.
  destruct progress_callback as [f|].
  - destruct (invoke_invoked f kw) as (r & cb & Hi & Hs).
    exists r, cb. split; [done|]. split; [done|].
    intros Hq. by eapply invoke_quiet.
  - exists (Ret tt), []. split; [by intros []|done].
Qed.

Lemma add_events_trace evs w : trace (add_events evs w) = evs ++ trace w.
Proof. done. Qed.

Lemma add_events_idle evs w :
  Forall neutral evs → idle w → idle (add_events evs w).
Proof. intros. by eapply (idle_neutral w _ evs). Qed.

(** The loop of [convert_batch]: it leaves the converter idle, and with a
    sink that keeps its contract it returns, having announced every file in
    order and counted the conversions reported. *)
Lemma batch_loop_run E input_dir output_dir audio_params progress_callback
    total_count video_files : ∀ i success_count w,
  ∃ r evs w',
    batch_loop E input_dir output_dir audio_params progress_callback
               total_count video_files i success_count w = (r, w') ∧
    trace w' = evs ++ trace w ∧
    (idle w → idle w') ∧
    (quiet progress_callback →
     r = Ret (success_count + length (converted evs)) ∧
     processed evs = rev (announced total_count i video_files) ∧
     length (converted evs) ≤ length video_files).
Proof.
  induction video_files as [|video_file rest IH]; intros i s w.
  { exists (Ret s), [], w. split; [done|]. split; [done|]. split; [done|].
    intros _. simpl. by rewrite Nat.add_0_r. }
  cbn [batch_loop].
  set (e0 := EvLog Info (Processing i total_count
                           (os_path.basename video_file))).
  rewrite (bind_run _ _ w tt (add_events [e0] w)) by reflexivity.
  assert (idle w → idle (add_events [e0] w)) as Hidle0
    by (apply add_events_idle; by repeat constructor).
  destruct (notify_run progress_callback
              (batch_kw i total_count (PStr video_file) "processing"))
    as (r0 & cb0 & Hn0 & Hs0 & Hq0).
  specialize (Hn0 (add_events [e0] w)).
  destruct r0 as [[]|e].
  2:{ rewrite (bind_raise _ _ _ _ _ Hn0).
      exists (Raise e), (cb0 ++ [e0]), (add_events cb0 (add_events [e0] w)).
      split; [done|].
      split; [by rewrite !add_events_trace, app_assoc|].
      split; [|by intros Hq; specialize (Hq0 Hq)].
      intros Hi. by apply add_events_idle; [apply is_sink_neutral|auto]. }
  rewrite (bind_run _ _ _ _ _ Hn0). clear Hn0.
  set (w1 := add_events cb0 (add_events [e0] w)).
  assert (idle w → idle w1) as Hidle1.
  { intros Hi. by apply add_events_idle; [apply is_sink_neutral|auto]. }
  assert (trace w1 = (cb0 ++ [e0]) ++ trace w) as Htr1
    by (by rewrite <- app_assoc).
  clearbody w1.
  (* the output path *)
  match goal with
  | |- context [bind ?m _ w1] =>
      assert (∃ out mk fs',
                m w1 = (Ret out,
                        mkWorld (current_clip w1) fs' (heap w1) (next_id w1)
                                (mk ++ trace w1)) ∧
                Forall is_mkdir mk) as (out & mk & fs' & Hout & Hmk)
  end.
  { destruct (truthy output_dir);
      match goal with
      | |- context [generate_output_path ?E ?p ?d ?f ?w] =>
          destruct (generate_output_path_run E p d f w)
            as (mk & fs' & -> & Hmk & _)
      end; by eexists _, mk, fs'. }
  rewrite (bind_run _ _ _ _ _ Hout). clear Hout.
  set (w2 := mkWorld (current_clip w1) fs' (heap w1) (next_id w1)
                     (mk ++ trace w1)).
  assert (idle w → idle w2) as Hidle2.
  { intros Hi. apply (idle_neutral w1 w2 mk); auto.
    by apply is_mkdir_neutral. }
  assert (trace w2 = mk ++ trace w1) as Htr2 by done.
  clearbody w2.
  (* the conversion *)
  destruct (single_run_runs E video_file (Some out) audio_params
              (Some (FileProgress progress_callback i total_count video_file))
              w2) as (b & evs1 & w3 & Hrun & Hsr).
  cbn [resolved_output] in Hsr.
  rewrite (bind_run _ _ _ _ _ Hrun). clear Hrun.
  pose proof (single_run_trace _ _ _ _ _ _ _ _ _ Hsr) as Htr3.
  pose proof (single_run_idle _ _ _ _ _ _ _ _ _ Hsr) as Hidle3.
  pose proof (single_run_observed _ _ _ _ _ _ _ _ _ Hsr) as [Hp3 Hc3].
  clear Hsr.
  (* the file is done *)
  destruct (notify_run progress_callback
              (batch_kw i total_count (PStr video_file) "completed"))
    as (r4 & cb4 & Hn4 & Hs4 & Hq4).
  specialize (Hn4 w3).
  destruct r4 as [[]|e].
  2:{ rewrite (bind_raise _ _ _ _ _ Hn4).
      exists (Raise e), (cb4 ++ evs1 ++ mk ++ cb0 ++ [e0]), (add_events cb4 w3).
      split; [done|].
      split.
      { rewrite add_events_trace, Htr3, Htr2, Htr1.
        by rewrite <- !app_assoc. }
      split; [|by intros Hq; specialize (Hq4 Hq)].
      intros Hi. apply add_events_idle; [by apply is_sink_neutral|auto]. }
  rewrite (bind_run _ _ _ _ _ Hn4). clear Hn4.
  destruct (IH (S i) (if b then S s else s) (add_events cb4 w3))
    as (r & evs & w' & Hloop & Htr & Hidle & Hquiet).
  exists r, (evs ++ cb4 ++ evs1 ++ mk ++ cb0 ++ [e0]), w'.
  split; [done|].
  split.
  { rewrite Htr, add_events_trace, Htr3, Htr2, Htr1.
    by rewrite <- !app_assoc. }
  split.
  { intros Hi. apply Hidle.
    apply add_events_idle; [by apply is_sink_neutral|auto]. }
  intros Hq. destruct (Hquiet Hq) as (-> & Hp & Hc).
  rewrite !processed_app, !converted_app, !length_app.
  rewrite (processed_sinks cb4), (processed_sinks cb0),
    (processed_mkdirs mk), (converted_sinks cb4), (converted_sinks cb0),
    (converted_mkdirs mk), Hp, Hp3, Hc3 by done.
  subst e0. change (processed [_]) with
    [(i, total_count, os_path.basename video_file)].
  change (converted [_]) with (@nil string).
  cbn [announced rev].
  split; [|split; [done|]]; destruct b; cbn [length]; try f_equal; lia.
Qed.

(** [convert_batch]: it leaves the converter idle, and with a sink that
    keeps its contract it returns the number of conversions reported and
    the number of files found, having announced every file in order. *)
Lemma convert_batch_run E input_dir output_dir audio_params progress_callback
    w :
  let video_files := get_video_files_from_directory (fs w) input_dir in
  ∃ r evs w',
    convert_batch E input_dir output_dir audio_params progress_callback w
    = (r, w') ∧
    trace w' = evs ++ trace w ∧
    (idle w → idle w') ∧
    (quiet progress_callback →
     r = Ret (length (converted evs), length video_files) ∧
     processed evs = rev (announced (length video_files) 1 video_files) ∧
     length (converted evs) ≤ length video_files).
Proof.
  intros video_files. unfold convert_batch.
  rewrite (bind_run _ _ w (exists_in (fs w) input_dir) w) by reflexivity.
  destruct (exists_in (fs w) input_dir) eqn:Hdir; cbn [negb].
  2:{ exists (Ret (0, 0)), [EvLog Error (InputDirMissing input_dir)],
        (add_events [EvLog Error (InputDirMissing input_dir)] w).
      split; [reflexivity|]. split; [reflexivity|].
      split; [apply add_events_idle; by repeat constructor|].
      intros _. subst video_files. unfold get_video_files_from_directory.
      unfold exists_in in Hdir. by destruct (fs w input_dir). }
  rewrite (bind_run _ _ w video_files w) by reflexivity.
  destruct video_files as [|video_file rest] eqn:Hfiles.
  { exists (Ret (0, 0)), [EvLog Warning (NoVideoFound input_dir)],
      (add_events [EvLog Warning (NoVideoFound input_dir)] w).
    split; [reflexivity|]. split; [reflexivity|].
    split; [apply add_events_idle; by repeat constructor|done]. }
  rewrite <- Hfiles. clear Hfiles.
  set (e0 := EvLog Info (FoundFiles (length video_files))).
  rewrite (bind_run _ _ w tt (add_events [e0] w)) by reflexivity.
  destruct (batch_loop_run E input_dir output_dir audio_params
              progress_callback (length video_files) video_files 1 0
              (add_events [e0] w))
    as (r & evs & w1 & Hloop & Htr1 & Hidle1 & Hquiet).
  rewrite add_events_trace in Htr1.
  assert (idle w → idle w1) as Hidle1'.
  { intros Hi. apply Hidle1, add_events_idle; [by repeat constructor|done]. }
  destruct r as [s|e].
  2:{ rewrite (bind_raise _ _ _ _ _ Hloop).
      exists (Raise e), (evs ++ [e0]), w1. split; [done|].
      split; [by rewrite <- app_assoc|]. split; [done|].
      intros Hq. by destruct (Hquiet Hq) as [? _]. }
  rewrite (bind_run _ _ _ _ _ Hloop).
  set (e1 := EvLog Info (BatchDone s (length video_files))).
  rewrite (bind_run _ _ w1 tt (add_events [e1] w1)) by reflexivity.
  destruct (notify_run progress_callback
              (<["success_count" := PInt (Z.of_nat s)]>
                 (batch_kw (length video_files) (length video_files) PNone
                           "finished")))
    as (r2 & cb2 & Hn2 & Hs2 & Hq2).
  specialize (Hn2 (add_events [e1] w1)).
  assert (idle w → idle (add_events cb2 (add_events [e1] w1))) as Hidle2.
  { intros Hi. apply add_events_idle; [by apply is_sink_neutral|].
    apply add_events_idle; [by repeat constructor|auto]. }
  assert (trace (add_events cb2 (add_events [e1] w1))
          = (cb2 ++ [e1] ++ evs ++ [e0]) ++ trace w) as Htr2.
  { rewrite !add_events_trace, Htr1. by rewrite <- !app_assoc. }
  destruct r2 as [[]|e].
  2:{ rewrite (bind_raise _ _ _ _ _ Hn2).
      eexists _, _, _. split; [reflexivity|]. split; [exact Htr2|].
      split; [done|]. by intros Hq; specialize (Hq2 Hq). }
  rewrite (bind_run _ _ _ _ _ Hn2).
  eexists _, _, _. split; [reflexivity|]. split; [exact Htr2|].
  split; [done|].
  intros Hq. destruct (Hquiet Hq) as ([= ->] & Hp & Hc).
  rewrite !processed_app, !converted_app, !length_app.
  rewrite (processed_sinks cb2), (converted_sinks cb2), Hp by done.
  subst e0 e1.
  change (processed [_]) with (@nil (nat * nat * string)).
  change (converted [_]) with (@nil string).
  cbn [app length]. rewrite app_nil_r, !Nat.add_0_r. done.
Qed.

(** Between two calls the converter is idle. *)
Lemma reachable_idle E w : reachable E w → idle w.
Proof.
  induction 1 as [fs0 heap0
                 |w input_path output_path audio_params progress_callback _ IH
                 |w input_dir output_dir audio_params progress_callback _ IH
                 |w _ IH
                 |w input_path output_dir output_format _ IH
                 |w input_path _ IH
                 |w fs' heap' _ IH].
  - done.
  - destruct (single_run_runs E input_path output_path audio_params
                progress_callback w) as (b & evs & w' & -> & Hsr).
    by eapply single_run_idle.
  - destruct (convert_batch_run E input_dir output_dir audio_params
                progress_callback w) as (r & evs & w' & -> & _ & Hi & _).
    by apply Hi.
  - destruct IH as (Hcc & Hh & Ho). unfold stop_conversion, bind,
      get_current_clip. rewrite Hcc. done.
  - destruct (generate_output_path_run E input_path output_dir output_format w)
      as (evs & fs' & -> & Hm & _).
    eapply (idle_neutral w _ evs); [done|done| |done].
    by apply is_mkdir_neutral.
  - unfold validate_input_file, bind, os_path_exists.
    destruct (exists_in (fs w) input_path); cbn [negb];
      [destruct (validate_file_extension input_path); cbn [negb]|];
      try done;
      (eapply (idle_neutral w _ [_]); [done|done| |done]);
      by repeat constructor.
  - done.
Qed.

Lemma processed_split evs post pre (A : list (nat * nat * string)) :
  processed evs = rev A → evs = post ++ EvStop :: pre →
  processed pre = rev (take (length (processed pre)) A) ∧
  processed post = rev (drop (length (processed pre)) A).
Proof.
  intros HA ->. rewrite processed_app in HA.
  change (processed (EvStop :: pre)) with (processed pre) in HA.
  apply (f_equal (@rev _)) in HA. rewrite rev_involutive, rev_app_distr in HA.
  subst A. rewrite <- length_rev.
  rewrite take_app_length, drop_app_length. by rewrite !rev_involutive.
Qed.

(** C7.  With no callback, or a sink that keeps its contract and never
    raises, [convert_batch] returns: the total is the number of files
    discovered, the success count is the number of conversions reported as
    completed and is at most the total, and every discovered file was
    announced, in discovery order and with its index, whatever happened to
    the files before it. *)
Theorem batch_processes_every_file E input_dir output_dir audio_params
    progress_callback w :
  quiet progress_callback →
  let video_files := get_video_files_from_directory (fs w) input_dir in
  ∃ success_count evs w',
    convert_batch E input_dir output_dir audio_params progress_callback w
    = (Ret (success_count, length video_files), w') ∧
    trace w' = evs ++ trace w ∧
    success_count ≤ length video_files ∧
    success_count = length (converted evs) ∧
    processed evs = rev (announced (length video_files) 1 video_files).
Proof.
  intros Hq video_files.
  destruct (convert_batch_run E input_dir output_dir audio_params
              progress_callback w) as (r & evs & w' & Hrun & Htr & _ & Hquiet).
  destruct (Hquiet Hq) as (-> & Hp & Hc).
  by exists (length (converted evs)), evs, w'.
Qed.

(** C8, amended.  [stop_conversion] closes the clip in flight, if there is
    one, and does nothing else; [convert_batch] never looks for a stop
    request.  Wherever stop requests arrive during a batch, the batch goes
    on: it returns the full total, and the files announced after a stop
    request are all the discovered files that had not been announced
    before it. *)
Theorem batch_goes_on_after_stop E input_dir output_dir audio_params
    progress_callback w :
  quiet progress_callback →
  let video_files := get_video_files_from_directory (fs w) input_dir in
  let all := announced (length video_files) 1 video_files in
  (∃ success_count evs w',
     convert_batch E input_dir output_dir audio_params progress_callback w
     = (Ret (success_count, length video_files), w') ∧
     trace w' = evs ++ trace w ∧
     ∀ post pre,
       evs = post ++ EvStop :: pre →
       processed pre = rev (take (length (processed pre)) all) ∧
       processed post = rev (drop (length (processed pre)) all)) ∧
  (∀ w0, ∃ evs0 w1,
     stop_conversion E w0 = (Ret tt, w1) ∧
     trace w1 = evs0 ++ trace w0 ∧
     fs w1 = fs w0 ∧
     match current_clip w0 with
     | Some c =>
         ∃ l, evs0 = [EvLog l.1 l.2; EvClose c (env_close E c (trace w0))] ∧
              current_clip w1
              = match env_close E c (trace w0) with
                | None => None
                | Some _ => Some c
                end
     | None => w1 = w0
     end).
Proof.
  intros Hq video_files all. split.
  - destruct (convert_batch_run E input_dir output_dir audio_params
                progress_callback w)
      as (r & evs & w' & Hrun & Htr & _ & Hquiet).
    destruct (Hquiet Hq) as (-> & Hp & Hc).
    exists (length (converted evs)), evs, w'. split; [done|]. split; [done|].
    intros post pre. by apply processed_split.
  - intros [cc f h n tr]. unfold stop_conversion. msimpl.
    destruct cc as [c|]; [|by exists [], (mkWorld None f h n tr)].
    destruct (env_close E c tr) as [e|] eqn:Hclose; msimpl.
    + eexists [_; _], _. split; [reflexivity|]. split; [reflexivity|].
      split; [reflexivity|]. by exists (Error, StopError e).
    + eexists [_; _], _. split; [reflexivity|]. split; [reflexivity|].
      split; [reflexivity|]. by exists (Info, Stopped).
Qed.

(** The events after the call of [VideoFileClip], and those before it. *)
Ltac after_open t :=
  lazymatch t with
  | EvOpen _ _ :: ?t' => constr:(t')
  | _ :: ?t' => after_open t'
  | _ ++ ?t' => after_open t'
  end.

(** C1.  A converter is idle whenever one of its methods is called: no clip
    is current and no handle is held.  Every call of [convert_single_file]
    returns, on whichever path, with no clip current and no handle held;
    [close] was called, before the return, on the handle the call opened
    (a handle counts as held until [close] is called on it, even if that
    call raises); and at no point of the history was more than one handle
    held. *)
Theorem handle_closed_on_every_path E input_path output_path audio_params
    progress_callback w :
  reachable E w →
  ∃ b evs w',
    convert_single_file E input_path output_path audio_params
                        progress_callback w = (Ret b, w') ∧
    trace w' = evs ++ trace w ∧
    current_clip w' = None ∧
    held (trace w') = [] ∧
    one_at_a_time (trace w') ∧
    (∀ p c, EvOpen p (inr c) ∈ evs →
       ∃ post pre r,
         evs = post ++ EvOpen p (inr c) :: pre ∧ EvClose c r ∈ post).
Proof.
  intros Hreach. pose proof (reachable_idle E w Hreach) as Hidle.
  destruct (single_run_runs E input_path output_path audio_params
              progress_callback w) as (b & evs & w' & Hrun & Hsr).
  exists b, evs, w'. split; [done|].
  split; [by eapply single_run_trace|].
  pose proof (single_run_idle _ _ _ _ _ _ _ _ _ Hsr Hidle) as (Hc' & Hh' & Ho').
  do 3 (split; [done|]). clear Hc' Hh' Ho' Hrun.
  destruct Hidle as (Hcc & _ & _).
  intros p c' Hin. run_inv Hsr; rewrite ?Hcc in *; cbn [app] in *.
  all: first
    [ exfalso;
      match type of Hin with
      | _ ∈ ?evs =>
          assert (Forall (λ e, match e with
                               | EvOpen _ (inr _) => False
                               | _ => True
                               end) evs) as Hnone by forall_events;
          destruct (Forall_elem _ _ _ Hnone Hin)
      end
    | match type of Hin with
      | _ ∈ ?evs =>
          match evs with
          | context [EvOpen ?p1 (inr ?c0)] =>
              assert (Forall (λ e, match e with
                                   | EvOpen p0 (inr c1) =>
                                       p0 = p1 ∧ c1 = c0
                                   | _ => True
                                   end) evs) as Hopen by forall_events;
              destruct (Forall_elem _ _ _ Hopen Hin) as [Hp Hc];
              subst p c';
              let post := before_open evs in
              let pre := after_open evs in
              exists post, pre; eexists;
              split; [list_eq|elem_of_events]
          end
      end ].
Qed.

(** A call on a converter that has run a batch before. *)
Lemma handle_closed_on_every_path_witness :
  let w := (convert_batch second_has_no_audio "videos" None None None
                          (init three_videos_fs ∅)).2 in
  reachable second_has_no_audio w ∧
  ∃ b evs w',
    convert_single_file second_has_no_audio "videos/b.mp4" None None None w
    = (Ret b, w') ∧
    trace w' = evs ++ trace w ∧
    current_clip w' = None ∧
    held (trace w') = [] ∧
    one_at_a_time (trace w') ∧
    (∀ p c, EvOpen p (inr c) ∈ evs →
       ∃ post pre r,
         evs = post ++ EvOpen p (inr c) :: pre ∧ EvClose c r ∈ post).
Proof.
  split.
  - apply reach_batch, reach_init.
  - apply (handle_closed_on_every_path second_has_no_audio "videos/b.mp4"
             None None None).
    apply reach_batch, reach_init.
Defined.

(** Three files, the second without audio: two conversions of three, and
    the third file is processed after the second failed. *)
Lemma batch_processes_every_file_witness :
  quiet None ∧
  ∃ evs w',
    convert_batch second_has_no_audio "videos" None None None
                  (init three_videos_fs ∅) = (Ret (2, 3), w') ∧
    trace w' = evs ++ [] ∧
    converted evs = ["videos/c.wav"; "videos/a.wav"] ∧
    processed evs = [(3, 3, "c.mp4"); (2, 3, "b.mp4"); (1, 3, "a.mp4")].
Proof.
  split; [exact I|].
  destruct (batch_processes_every_file second_has_no_audio "videos" None None
              None (init three_videos_fs ∅) I)
    as (s & evs & w' & Hrun & Htr & _ & Hs & Hp).
  exists evs, w'.
  assert (get_video_files_from_directory (fs (init three_videos_fs ∅))
            "videos" = ["videos/a.mp4"; "videos/b.mp4"; "videos/c.mp4"])
    as Hfiles by (vm_compute; reflexivity).
  rewrite Hfiles in Hrun, Hp. clear Hfiles.
  assert (converted evs = ["videos/c.wav"; "videos/a.wav"]) as Hc.
  { change (trace (init three_videos_fs ∅)) with (@nil Event) in Htr.
    rewrite app_nil_r in Htr. subst evs.
    apply (f_equal (λ r, converted (trace r.2))) in Hrun.
    cbn [snd] in Hrun. rewrite <- Hrun. vm_compute. reflexivity. }
  rewrite Hc in Hs. cbn [length] in Hs. subst s.
  split; [exact Hrun|]. split; [exact Htr|]. split; [exact Hc|exact Hp].
Defined.

(** A stop request during the first of three files. *)
Lemma batch_goes_on_after_stop_witness :
  quiet None ∧
  let E := stop_during_first in
  let w := init three_videos_fs ∅ in
  let video_files := get_video_files_from_directory (fs w) "videos" in
  let all := announced (length video_files) 1 video_files in
  (∃ success_count evs w',
     convert_batch E "videos" None None None w
     = (Ret (success_count, length video_files), w') ∧
     trace w' = evs ++ trace w ∧
     ∀ post pre,
       evs = post ++ EvStop :: pre →
       processed pre = rev (take (length (processed pre)) all) ∧
       processed post = rev (drop (length (processed pre)) all)) ∧
  (∀ w0, ∃ evs0 w1,
     stop_conversion E w0 = (Ret tt, w1) ∧
     trace w1 = evs0 ++ trace w0 ∧
     fs w1 = fs w0 ∧
     match current_clip w0 with
     | Some c =>
         ∃ l, evs0 = [EvLog l.1 l.2; EvClose c (env_close E c (trace w0))] ∧
              current_clip w1
              = match env_close E c (trace w0) with
                | None => None
                | Some _ => Some c
                end
     | None => w1 = w0
     end).
Proof.
  split; [exact I|].
  exact (batch_goes_on_after_stop stop_during_first "videos" None None None
           (init three_videos_fs ∅) I).
Defined.

(** C3, as stated, fails: the transcoder returns without error and writes
    a file of 1024 bytes, then [close] raises; the call returns [False]. *)
Lemma close_failure_after_good_transcode :
  ¬ success_iff_output_verified close_raises "videos/a.mp4" None None None
      (init three_videos_fs ∅).
Proof.
  unfold success_iff_output_verified. intros H.
  set (r := convert_single_file close_raises "videos/a.mp4" None None None
              (init three_videos_fs ∅)) in *.
  assert (r = (Ret false, r.2)) as Hrun by (vm_compute; reflexivity).
  specialize (H false r.2 (trace r.2)
                (mkClip 0 "videos/a.mp4" true (Some 60%Z))
                (<["logger" := PStr "bar"]>
                   {[ "codec" := PStr "pcm_s16le"; "logger" := PNone ]})
                ∅ Hrun).
  destruct H as [_ H].
  - symmetry. apply app_nil_r.
  - vm_compute. elem_of_events.
  - assert (false = true) as Hb; [|discriminate Hb].
    apply H. exists (File 1024). split; [vm_compute; reflexivity|done].
Qed.

(** C6, as stated, fails: without a callback a conversion succeeds and
    nothing is reported. *)
Lemma no_callback_no_progress_event :
  ¬ coarse_progress_reported second_has_no_audio "videos/a.mp4" None None
      None (init three_videos_fs ∅).
Proof.
  unfold coarse_progress_reported. intros H.
  set (r := convert_single_file second_has_no_audio "videos/a.mp4" None None
              None (init three_videos_fs ∅)) in *.
  assert (r = (Ret true, r.2)) as Hrun by (vm_compute; reflexivity).
  destruct (H r.2 (trace r.2) Hrun) as (kw1 & r1 & _ & _ & Hin & _).
  - symmetry. apply app_nil_r.
  - vm_compute in Hin.
    repeat (apply elem_of_cons in Hin as [Hin|Hin]; [discriminate Hin|]).
    by apply elem_of_nil in Hin.
Qed.

(** C8, as stated, fails: a stop request arrives during the first of three
    files, and the second and the third are announced and converted after
    it. *)
Lemma files_processed_after_stop :
  ¬ stop_ends_batch stop_during_first "videos" None None None
      (init three_videos_fs ∅).
Proof.
  unfold stop_ends_batch. intros H.
  set (r := convert_batch stop_during_first "videos" None None None
              (init three_videos_fs ∅)) in *.
  specialize (H r.1 r.2 (take 16 (trace r.2)) (drop 17 (trace r.2))).
  assert (processed (take 16 (trace r.2)) = []) as Hnone.
  { apply H; [by destruct r|]. vm_compute. reflexivity. }
  vm_compute in Hnone. discriminate Hnone.
Qed.

(** An old output of 7 bytes is in the way: the warning is logged, the
    transcoder is called all the same and the call returns [True] with the
    1024 bytes now written in its place. *)
Lemma existing_output_is_overwritten_witness :
  let old : FileSystem :=
    λ p, if String.eqb p "videos/a.wav" then Some (File 7)
         else three_videos_fs p in
  let w := init old ∅ in
  old "videos/a.wav" = Some (File 7) ∧
  ∃ evs w' c kw,
    convert_single_file second_has_no_audio "videos/a.mp4" None None None w
    = (Ret true, w') ∧
    trace w' = evs ++ trace w ∧
    EvLog Warning (OutputExists "videos/a.wav") ∈ evs ∧
    EvTranscode c "videos/a.wav" kw ∅ None ∈ evs ∧
    fs w' "videos/a.wav" = Some (File 1024).
Proof.
  intros old w. split; [reflexivity|].
  destruct (existing_output_is_overwritten second_has_no_audio "videos/a.mp4"
              None None None w)
    as (b & evs & w' & Hrun & Htr & _ & _ & Hwarn & Hcall).
  assert (b = true) as ->.
  { apply (f_equal fst) in Hrun. cbn [fst] in Hrun.
    vm_compute in Hrun. by injection Hrun. }
  exists evs, w'. eexists _, _.
  split; [exact Hrun|]. split; [exact Htr|].
  split; [by apply Hwarn; vm_compute; auto|].
  destruct (Hcall eq_refl eq_refl (or_introl eq_refl) (Some 60%Z)
              {[ "codec" := PStr "pcm_s16le"; "logger" := PNone ]} ∅ [])
    as [Hin Hfs]; [reflexivity| |done|].
  - intros w0 Hw0. destruct w0 as [cc f h n tr]. cbn in Hw0. subst h.
    reflexivity.
  - split; [exact Hin|]. by rewrite Hfs.
Defined.

Lemma join_nonempty a b : a ≠ "" → os_path.join a b ≠ "".
Proof.
  intros Ha. unfold os_path.join.
  destruct (Str.startswith sep b) eqn:Hb; [by destruct b|].
  destruct a as [|x a]; [done|]. by destruct (_ || _).
Qed.

Lemma truthy_join d x : truthy (Some d) = true → truthy (Some (os_path.join d x)) = true.
Proof.
  simpl. intros Hd. apply negb_true_iff.
  assert (d ≠ "") as Hne by (by destruct d).
  pose proof (join_nonempty d x Hne). by destruct (os_path.join d x).
Qed.

(** The loop of [convert_batch], file by file. *)
Lemma batch_loop_events E input_dir output_dir audio_params progress_callback
    total_count video_files : ∀ i s w,
  ∃ r evs w' s',
    batch_loop E input_dir output_dir audio_params progress_callback
               total_count video_files i s w = (r, w') ∧
    trace w' = evs ++ trace w ∧
    batch_events E input_dir output_dir audio_params progress_callback
                 total_count i video_files s evs s' ∧
    (∀ n, r = Ret n → n = s').
Proof.
  induction video_files as [|video_file rest IH]; intros i s w.
  { exists (Ret s), [], w, s. split; [done|]. split; [done|].
    split; [constructor|]. by intros n [= <-]. }
  cbn [batch_loop].
  set (e0 := EvLog Info (Processing i total_count
                           (os_path.basename video_file))).
  rewrite (bind_run _ _ w tt (add_events [e0] w)) by reflexivity.
  destruct (notify_run progress_callback
              (batch_kw i total_count (PStr video_file) "processing"))
    as (r0 & cb0 & Hn0 & Hs0 & _).
  specialize (Hn0 (add_events [e0] w)).
  destruct r0 as [[]|e].
  2:{ rewrite (bind_raise _ _ _ _ _ Hn0).
      exists (Raise e), (cb0 ++ [e0]), (add_events cb0 (add_events [e0] w)), s.
      split; [done|].
      split; [by rewrite !add_events_trace, app_assoc|].
      split; [by constructor|done]. }
  rewrite (bind_run _ _ _ _ _ Hn0). clear Hn0.
  set (w1 := add_events cb0 (add_events [e0] w)).
  assert (trace w1 = (cb0 ++ [e0]) ++ trace w) as Htr1
    by (by rewrite <- app_assoc).
  clearbody w1.
  match goal with
  | |- context [bind ?m _ w1] =>
      assert (∃ mk fs',
                m w1 = (Ret (batch_output_path E input_dir output_dir
                                               video_file),
                        mkWorld (current_clip w1) fs' (heap w1) (next_id w1)
                                (mk ++ trace w1)) ∧
                Forall is_mkdir mk) as (mk & fs' & Hout & Hmk)
  end.
  { unfold batch_output_path. destruct (truthy output_dir) eqn:Hd;
      match goal with
      | |- context [generate_output_path ?E ?p ?d ?f ?w] =>
          destruct (generate_output_path_run E p d f w)
            as (mk & fs' & -> & Hmk & _)
      end; exists mk, fs'; (split; [|done]); [|done].
    rewrite truthy_join; [done|]. by destruct output_dir. }
  rewrite (bind_run _ _ _ _ _ Hout). clear Hout.
  set (w2 := mkWorld (current_clip w1) fs' (heap w1) (next_id w1)
                     (mk ++ trace w1)).
  assert (trace w2 = mk ++ trace w1) as Htr2 by done.
  clearbody w2.
  destruct (single_run_runs E video_file
              (Some (batch_output_path E input_dir output_dir video_file))
              audio_params
              (Some (FileProgress progress_callback i total_count video_file))
              w2) as (b & evs1 & w3 & Hrun & Hsr).
  cbn [resolved_output] in Hsr.
  rewrite (bind_run _ _ _ _ _ Hrun). clear Hrun.
  pose proof (single_run_trace _ _ _ _ _ _ _ _ _ Hsr) as Htr3.
  destruct (notify_run progress_callback
              (batch_kw i total_count (PStr video_file) "completed"))
    as (r4 & cb4 & Hn4 & Hs4 & _).
  specialize (Hn4 w3).
  destruct r4 as [[]|e].
  2:{ rewrite (bind_raise _ _ _ _ _ Hn4).
      exists (Raise e), ([] ++ cb4 ++ evs1 ++ mk ++ cb0 ++ [e0]),
        (add_events cb4 w3), (if b then S s else s).
      split; [done|].
      split.
      { rewrite add_events_trace, Htr3, Htr2, Htr1.
        by rewrite <- !app_assoc. }
      split; [|done]. eapply batch_file; eauto. constructor. }
  rewrite (bind_run _ _ _ _ _ Hn4). clear Hn4.
  destruct (IH (S i) (if b then S s else s) (add_events cb4 w3))
    as (r & evs & w' & s' & Hloop & Htr & Hev & Hret).
  exists r, (evs ++ cb4 ++ evs1 ++ mk ++ cb0 ++ [e0]), w', s'.
  split; [done|].
  split.
  { rewrite Htr, add_events_trace, Htr3, Htr2, Htr1.
    by rewrite <- !app_assoc. }
  split; [|done]. eapply batch_file; eauto.
Qed.

(** A property of every event of a batch, from the same property of the
    runs of [convert_single_file] in it. *)
Lemma batch_events_Forall (P : Event → Prop) E input_dir output_dir
    audio_params progress_callback total_count i video_files s evs s' :
  (∀ kw r, P (EvSink kw r)) →
  (∀ d ok, P (EvMakedirs d ok)) →
  (∀ j t name, P (EvLog Info (Processing j t name))) →
  (∀ j video_file w2 b evs1 w3,
     single_run E video_file
       (batch_output_path E input_dir output_dir video_file) audio_params
       (Some (FileProgress progress_callback j total_count video_file))
       w2 b evs1 w3 →
     Forall P evs1) →
  batch_events E input_dir output_dir audio_params progress_callback
               total_count i video_files s evs s' →
  Forall P evs.
Proof.
  intros Hsink Hmk Hlog Hrun.
  induction 1 as [| |i f rest s cb0 mk w2 b evs1 w3 cb4 evs s' H0 Hm Hsr H4 _ IH].
  - constructor.
  - apply Forall_app_2; [by apply (Forall_is_sink _ cb0)|by repeat constructor].
  - repeat apply Forall_app_2; eauto using Forall_is_sink, Forall_is_mkdir.
Qed.

(** [convert_batch]: nothing but a log entry when there is nothing to do,
    otherwise the loop between two log entries and the last call of the
    sink. *)
Lemma convert_batch_events E input_dir output_dir audio_params
    progress_callback w :
  let video_files := get_video_files_from_directory (fs w) input_dir in
  ∃ r evs w',
    convert_batch E input_dir output_dir audio_params progress_callback w
    = (r, w') ∧
    trace w' = evs ++ trace w ∧
    ((evs = [EvLog Error (InputDirMissing input_dir)] ∨
      evs = [EvLog Warning (NoVideoFound input_dir)]) ∧
     video_files = [] ∧ r = Ret (0, 0) ∨
     (∃ loop s' tail,
        batch_events E input_dir output_dir audio_params progress_callback
                     (length video_files) 1 video_files 0 loop s' ∧
        evs = tail ++ loop ++ [EvLog Info (FoundFiles (length video_files))] ∧
        (tail = [] ∨
         ∃ cb, Forall is_sink cb ∧
               tail = cb ++ [EvLog Info (BatchDone s' (length video_files))]) ∧
        ∀ n t, r = Ret (n, t) → n = s' ∧ t = length video_files)).
Proof.
  intros video_files. unfold convert_batch.
  rewrite (bind_run _ _ w (exists_in (fs w) input_dir) w) by reflexivity.
  destruct (exists_in (fs w) input_dir) eqn:Hdir; cbn [negb].
  2:{ exists (Ret (0, 0)), [EvLog Error (InputDirMissing input_dir)],
        (add_events [EvLog Error (InputDirMissing input_dir)] w).
      split; [reflexivity|]. split; [reflexivity|]. left.
      split; [by left|]. split; [|done].
      subst video_files. unfold get_video_files_from_directory.
      unfold exists_in in Hdir. by destruct (fs w input_dir). }
  rewrite (bind_run _ _ w video_files w) by reflexivity.
  destruct video_files as [|video_file rest] eqn:Hfiles.
  { exists (Ret (0, 0)), [EvLog Warning (NoVideoFound input_dir)],
      (add_events [EvLog Warning (NoVideoFound input_dir)] w).
    split; [reflexivity|]. split; [reflexivity|]. left.
    split; [by right|done]. }
  rewrite <- Hfiles. clear Hfiles.
  set (e0 := EvLog Info (FoundFiles (length video_files))).
  rewrite (bind_run _ _ w tt (add_events [e0] w)) by reflexivity.
  destruct (batch_loop_events E input_dir output_dir audio_params
              progress_callback (length video_files) video_files 1 0
              (add_events [e0] w))
    as (r & evs & w1 & s' & Hloop & Htr1 & Hev & Hret).
  rewrite add_events_trace in Htr1.
  destruct r as [s|e].
  2:{ rewrite (bind_raise _ _ _ _ _ Hloop).
      exists (Raise e), (evs ++ [e0]), w1. split; [done|].
      split; [by rewrite <- app_assoc|]. right.
      exists evs, s', []. split; [done|]. split; [done|].
      split; [by left|done]. }
  rewrite (bind_run _ _ _ _ _ Hloop).
  rewrite (Hret s eq_refl) in *. clear Hret s.
  set (e1 := EvLog Info (BatchDone s' (length video_files))).
  rewrite (bind_run _ _ w1 tt (add_events [e1] w1)) by reflexivity.
  destruct (notify_run progress_callback
              (<["success_count" := PInt (Z.of_nat s')]>
                 (batch_kw (length video_files) (length video_files) PNone
                           "finished")))
    as (r2 & cb2 & Hn2 & Hs2 & _).
  specialize (Hn2 (add_events [e1] w1)).
  assert (trace (add_events cb2 (add_events [e1] w1))
          = ((cb2 ++ [e1]) ++ evs ++ [e0]) ++ trace w) as Htr2.
  { rewrite !add_events_trace, Htr1. by rewrite <- !app_assoc. }
  destruct r2 as [[]|e].
  2:{ rewrite (bind_raise _ _ _ _ _ Hn2).
      eexists _, _, _. split; [reflexivity|]. split; [exact Htr2|]. right.
      exists evs, s', (cb2 ++ [e1]). split; [done|]. split; [done|].
      split; [right; by exists cb2|done]. }
  rewrite (bind_run _ _ _ _ _ Hn2).
  eexists _, _, _. split; [reflexivity|]. split; [exact Htr2|]. right.
  exists evs, s', (cb2 ++ [e1]). split; [done|]. split; [done|].
  split; [right; by exists cb2|]. by intros n t [= <- <-].
Qed.

(** A property of every event of [convert_batch], from the same property
    of the runs of [convert_single_file] in it. *)
Lemma convert_batch_Forall (P : Event → Prop) E input_dir output_dir
    audio_params progress_callback w :
  (∀ kw r, P (EvSink kw r)) →
  (∀ d ok, P (EvMakedirs d ok)) →
  (∀ l m, (∀ o, m ≠ Converted o) → (∀ i o, m ≠ StartConvert i o) →
          P (EvLog l m)) →
  (∀ j total_count video_file w2 b evs1 w3,
     single_run E video_file
       (batch_output_path E input_dir output_dir video_file) audio_params
       (Some (FileProgress progress_callback j total_count video_file))
       w2 b evs1 w3 →
     Forall P evs1) →
  ∃ r evs w',
    convert_batch E input_dir output_dir audio_params progress_callback w
    = (r, w') ∧
    trace w' = evs ++ trace w ∧
    Forall P evs.
Proof.
  intros Hsink Hmk Hlog Hrun.
  destruct (convert_batch_events E input_dir output_dir audio_params
              progress_callback w) as (r & evs & w' & Hb & Htr & Hev).
  exists r, evs, w'. split; [done|]. split; [done|].
  destruct Hev as [([-> | ->] & _)|(loop & s' & tail & Hev & -> & Htail & _)].
  - repeat constructor. by apply Hlog.
  - repeat constructor. by apply Hlog.
  - repeat apply Forall_app_2.
    + destruct Htail as [->|(cb & Hcb & ->)]; [constructor|].
      apply Forall_app_2; [by apply (Forall_is_sink _ cb)|].
      repeat constructor. by apply Hlog.
    + eapply batch_events_Forall; eauto; intros; by apply Hlog.
    + repeat constructor. by apply Hlog.
Qed.

(** The count of a batch is the number of conversions reported. *)
Lemma batch_events_count E input_dir output_dir audio_params
    progress_callback total_count i video_files s evs s' :
  batch_events E input_dir output_dir audio_params progress_callback
               total_count i video_files s evs s' →
  s' = s + length (converted evs).
Proof.
  induction 1 as [| |i f rest s cb0 mk w2 b evs1 w3 cb4 evs s' H0 Hm Hsr H4 _ IH].
  - simpl. lia.
  - rewrite converted_app, (converted_sinks cb0) by done. simpl. lia.
  - destruct (single_run_observed _ _ _ _ _ _ _ _ _ Hsr) as [_ Hc].
    rewrite !converted_app, !length_app.
    rewrite (converted_sinks cb4), (converted_sinks cb0),
      (converted_mkdirs mk), Hc by done.
    change (converted [_]) with (@nil string).
    rewrite IH. destruct b; simpl; lia.
Qed.

(** [file_progress_callback] passes [phase] twice: once by name and once
    in the keyword arguments it was called with. *)
Lemma file_progress_duplicate_phase g i total_count video_file phase t d r cb :
  invoked (Some (FileProgress (Some g) i total_count video_file))
          (progress_kw phase t d) r cb →
  r = Raise (TypeError "got multiple values for keyword argument") ∧ cb = [].
Proof.
  intros H. specialize (H (init (λ _, None) ∅)). revert H.
  cbn [invoke]. unfold py_call_kw.
  rewrite bool_decide_eq_false_2.
  - intros [= <- H]. split; [done|]. by rewrite app_nil_r in H.
  - intros Hdisj.
    apply (proj1 (elem_of_disjoint (C:=gset string) _ _) Hdisj "phase");
      apply elem_of_dom; eexists;
      unfold batch_kw, progress_kw.
    + by rewrite !lookup_insert_ne, lookup_singleton_eq.
    + by rewrite lookup_insert_eq.
Qed.

(** A run of [convert_single_file] under [file_progress_callback] around a
    callback: it fails, without reaching the transcoder or the sink. *)
Lemma single_run_duplicate_phase E video_file out audio_params g i total_count
    w b evs w' :
  single_run E video_file out audio_params
    (Some (FileProgress (Some g) i total_count video_file)) w b evs w' →
  b = false ∧
  Forall (λ e, match e with
               | EvTranscode _ _ _ _ _ | EvSink _ _
               | EvLog Info (Converted _) => False
               | _ => True
               end) evs.
Proof.
  intros Hsr. run_inv Hsr.
  all: repeat match goal with
              | H : invoked (Some (FileProgress (Some _) _ _ _)) _ _ _ |- _ =>
                  apply file_progress_duplicate_phase in H as [? ?]
              end; try discriminate; subst.
  all: try destruct (current_clip w).
  all: split; [done|cbn [app]; forall_events].
Qed.

(** A property of the events of a run, segment by segment, with the facts
    about single events proved by [fact]. *)
Ltac forall_events_by fact :=
  repeat first
    [ apply Forall_nil_2
    | apply Forall_cons_2; [fact|]
    | apply Forall_app_2
    | apply Forall_perhaps; fact
    | match goal with
      | H : Forall is_mkdir ?l |- Forall _ ?l =>
          apply (Forall_is_mkdir _ l); [intros; fact|exact H]
      | H : Forall is_sink ?l |- Forall _ ?l =>
          apply (Forall_is_sink _ l); [intros; fact|exact H]
      end ].

(** Keyword arguments clash exactly when a key is given twice. *)
Lemma py_call_kw_raises explicit kwargs :
  (∃ e, py_call_kw explicit kwargs = inl e) ↔
  ∃ k, is_Some (explicit !! k) ∧ is_Some (kwargs !! k).
Proof.
  unfold py_call_kw. case_bool_decide as Hd.
  - split; [by intros [e ?]|]. intros (k & H1 & H2). exfalso.
    apply (proj1 (elem_of_disjoint (C:=gset string) _ _) Hd k);
      by apply elem_of_dom.
  - split; [intros _|by eexists].
    rewrite (disjoint_intersection_L (C:=gset string)) in Hd.
    apply set_choose_L in Hd as [k Hk].
    apply elem_of_intersection in Hk as [H1 H2].
    exists k. by rewrite <- !elem_of_dom.
Qed.

(** A batch with a progress callback: every run of [convert_single_file]
    in it fails on the first call of [file_progress_callback]. *)
Lemma convert_batch_callback E input_dir output_dir audio_params callback w :
  ∃ r evs w',
    convert_batch E input_dir output_dir audio_params (Some callback) w
    = (r, w') ∧
    trace w' = evs ++ trace w ∧
    Forall (λ e, match e with
                 | EvTranscode _ _ _ _ _ | EvLog Info (Converted _) => False
                 | _ => True
                 end) evs ∧
    (∀ n t, r = Ret (n, t) →
            n = 0 ∧
            t = length (get_video_files_from_directory (fs w) input_dir)).
Proof.
  destruct (convert_batch_events E input_dir output_dir audio_params
              (Some callback) w) as (r & evs & w' & Hb & Htr & Hev).
  exists r, evs, w'. split; [done|]. split; [done|].
  destruct Hev as [([-> | ->] & -> & ->)
                  |(loop & s' & tail & Hev & -> & Htail & Hret)].
  - split; [by repeat constructor|]. by intros n t [= <- <-].
  - split; [by repeat constructor|]. by intros n t [= <- <-].
  - assert (Forall (λ e, match e with
                         | EvTranscode _ _ _ _ _ | EvSink _ _
                         | EvLog Info (Converted _) => False
                         | EvMakedirs _ _ => False
                         | _ => True
                         end ∨ is_sink e ∨ is_mkdir e) loop) as Hloop.
    { eapply batch_events_Forall; [| | | |exact Hev]; simpl; auto.
      intros j f w2 b evs1 w3 Hsr.
      apply single_run_duplicate_phase in Hsr as [_ Hsr].
      eapply Forall_impl; [exact Hsr|]. intros [[] []| | | | | |]; tauto. }
    assert (Forall (λ e, match e with
                         | EvTranscode _ _ _ _ _
                         | EvLog Info (Converted _) => False
                         | _ => True
                         end) loop) as Hloop'.
    { eapply Forall_impl; [exact Hloop|].
      intros [[] []| | | | | |]; simpl; tauto. }
    split.
    + repeat apply Forall_app_2; [|done|by repeat constructor].
      destruct Htail as [->|(cb & Hcb & ->)]; [constructor|].
      apply Forall_app_2; [by apply (Forall_is_sink _ cb)|].
      by repeat constructor.
    + intros n t Hr. destruct (Hret n t Hr) as [-> ->]. split; [|done].
      rewrite (batch_events_count _ _ _ _ _ _ _ _ _ _ _ Hev).
      rewrite converted_none; [done|].
      eapply Forall_impl; [exact Hloop'|]. by intros [[] []| | | | | |].
Qed.

(** X1.  With a progress callback, whatever it is, [convert_batch] converts
    nothing: [file_progress_callback] passes [phase] both by name and in
    the keyword arguments it received, which raises [TypeError] inside
    [convert_single_file] before the transcoder is reached.  The transcoder
    is never called, no conversion is reported, and a batch that returns
    counts no success. *)
Theorem batch_with_callback_converts_nothing E input_dir output_dir
    audio_params callback w :
  (∀ i total_count video_file phase t d w0,
     invoke (FileProgress (Some callback) i total_count video_file)
            (progress_kw phase t d) w0
     = (Raise (TypeError "got multiple values for keyword argument"), w0)) ∧
  ∃ r evs w',
    convert_batch E input_dir output_dir audio_params (Some callback) w
    = (r, w') ∧
    trace w' = evs ++ trace w ∧
    Forall (λ e, match e with
                 | EvTranscode _ _ _ _ _ | EvLog Info (Converted _) => False
                 | _ => True
                 end) evs ∧
    (∀ n t, r = Ret (n, t) → n = 0).
Proof.
  split.
  { intros i total_count video_file phase t d w0.
    destruct (invoke_invoked
                (FileProgress (Some callback) i total_count video_file)
                (progress_kw phase t d)) as (r & cb & Hi & _).
    destruct (file_progress_duplicate_phase _ _ _ _ _ _ _ _ _ Hi) as [-> ->].
    rewrite Hi. by destruct w0. }
  destruct (convert_batch_callback E input_dir output_dir audio_params
              callback w) as (r & evs & w' & Hb & Htr & Hev & Hret).
  exists r, evs, w'. repeat (split; [done|]).
  intros n t Hr. by destruct (Hret n t Hr).
Qed.

Lemma batch_output_path_wav E input_dir output_dir video_file :
  ∃ base, batch_output_path E input_dir output_dir video_file
          = base +:+ ".wav".
Proof.
  unfold batch_output_path, resolved_output.
  destruct (truthy output_dir);
    rewrite join_relative by apply output_filename_relative;
    eexists; by rewrite <- app_assoc_str.
Qed.

(** X2.  In a batch the output of every file is named after the stem of the
    source with the extension [.wav], whatever codec [audio_params] asks
    for: the format is not passed on to [generate_output_path].  Every
    call of the transcoder gets the path computed for the clip's own
    source, which without an output directory is the sibling of the
    source. *)
Theorem batch_outputs_are_named_wav E input_dir output_dir audio_params
    progress_callback w :
  ∃ r evs w',
    convert_batch E input_dir output_dir audio_params progress_callback w
    = (r, w') ∧
    trace w' = evs ++ trace w ∧
    Forall (λ e, match e with
                 | EvTranscode c o _ _ _ =>
                     (∃ base, o = base +:+ ".wav") ∧
                     o = batch_output_path E input_dir output_dir
                                           (clip_path c) ∧
                     (truthy output_dir = false →
                      o = os_path.join
                            (Path.to_str (Path.parent
                                            (Path.parse (clip_path c))))
                            (Path.stem (Path.parse (clip_path c))
                             +:+ ".wav"))
                 | EvLog Info (Converted o) => ∃ base, o = base +:+ ".wav"
                 | _ => True
                 end) evs.
Proof.
  apply convert_batch_Forall; try done.
  - intros [] []; try done. intros H. by destruct (H output_path).
  - intros j total_count video_file w2 b evs1 w3 Hsr.
    pose proof (batch_output_path_wav E input_dir output_dir video_file)
      as Hwav.
    run_inv Hsr; try destruct (current_clip w2).
    all: forall_events_by
           ltac:(first [ exact I
                       | exact Hwav
                       | split; [exact Hwav|];
                         split; [reflexivity|];
                         let Hd := fresh in
                         intros Hd; cbn [clip_path];
                         unfold batch_output_path; rewrite Hd;
                         reflexivity ]).
Qed.

(** X3.  [default_params['ffmpeg_params'].extend(...)] works on the caller's
    own list object.  When [audio_params] carries [channels] and a list
    [ffmpeg_params], a call that gets as far as building the parameters
    leaves that list longer by the channel arguments, and the transcoder,
    if called, is handed this very list; a call that fails earlier leaves
    the heap as it is.  Calling again with the same dict appends again. *)
Theorem caller_list_is_extended_in_place E input_path output_path
    (audio_params : dict) progress_callback w channels a :
  audio_params !! "channels" = Some channels →
  audio_params !! "ffmpeg_params" = Some (PList a) →
  ∃ b evs w',
    convert_single_file E input_path output_path (Some audio_params)
                        progress_callback w = (Ret b, w') ∧
    trace w' = evs ++ trace w ∧
    (heap w' = heap w ∧
     Forall (λ e, match e with
                  | EvTranscode _ _ _ _ _ => False
                  | _ => True
                  end) evs
     ∨
     heap w' !!! a = heap w !!! a ++ channel_args audio_params ∧
     (∀ a', a' ≠ a → heap w' !! a' = heap w !! a') ∧
     Forall (λ e, match e with
                  | EvTranscode _ _ kw h _ =>
                      h = heap w' ∧ kw !! "ffmpeg_params" = Some (PList a)
                  | _ => True
                  end) evs).
Proof.
  intros Hch Hff.
  destruct (single_run_runs E input_path output_path (Some audio_params)
              progress_callback w) as (b & evs & w' & Hrun & Hsr).
  exists b, evs, w'. split; [done|].
  split; [by eapply single_run_trace|].
  run_inv Hsr; try destruct (current_clip w); cbn [heap].
  all: try match goal with
           | Hb : built _ _ (Raise _) _ |- _ =>
               exfalso;
               specialize (Hb w eq_refl);
               apply default_params_raises in Hb as (v & Hv & Hn & _);
               change (default ∅ (Some audio_params)) with audio_params in Hv;
               rewrite Hff in Hv;
               injection Hv as <-; by apply (Hn a)
           end.
  all: first
    [ left; split; [reflexivity|forall_events]
    | right;
      match goal with
      | Hb : built _ _ (Ret ?dp) ?h1 |- _ =>
          pose proof (built_forwarded _ _ _ _ (logger_for progress_callback)
                        Hb) as (_ & _ & _ & _ & Hf);
          change (default ∅ (Some audio_params)) with audio_params in Hf;
          rewrite Hch, Hff in Hf;
          destruct Hf as (Hkw & Hh & Hother)
      end;
      split; [exact Hh|]; split; [exact Hother|];
      forall_events_by ltac:(first [exact I | split; [reflexivity|exact Hkw]])
    ].
Qed.

(** X4.  With no video file to convert, because the input directory is not
    there or holds none, [convert_batch] returns (0, 0) after one log
    entry: it touches nothing and never calls the callback, not even for
    the [finished] phase. *)
Theorem empty_batch_calls_nothing E input_dir output_dir audio_params
    progress_callback w :
  get_video_files_from_directory (fs w) input_dir = [] →
  convert_batch E input_dir output_dir audio_params progress_callback w
  = (Ret (0, 0),
     add_events
       [if exists_in (fs w) input_dir
        then EvLog Warning (NoVideoFound input_dir)
        else EvLog Error (InputDirMissing input_dir)] w).
Proof.
  intros Hnone. unfold convert_batch, bind, os_path_exists.
  destruct (exists_in (fs w) input_dir); cbn [negb]; [|reflexivity].
  rewrite Hnone. reflexivity.
Qed.

(** X5.  An input that is not there, or whose extension is not supported,
    makes [convert_single_file] return [False] after one error entry (the
    missing file first): no directory is created, nothing is opened, the
    callback is not called and [audio_params] is not looked at. *)
Theorem invalid_input_touches_nothing E input_path output_path audio_params
    progress_callback w :
  exists_in (fs w) input_path = false ∨
  validate_file_extension input_path = false →
  convert_single_file E input_path output_path audio_params
                      progress_callback w
  = (Ret false,
     add_events
       [EvLog Error (if exists_in (fs w) input_path
                     then UnsupportedFormat input_path
                     else FileNotFound input_path)] w).
Proof.
  intros Hbad.
  destruct (single_run_runs E input_path output_path audio_params
              progress_callback w) as (b & evs & w' & -> & Hsr).
  destruct Hsr; run_facts;
    try (destruct Hbad; congruence).
  - match goal with H : exists_in _ _ = false |- _ => by rewrite H end.
  - match goal with H : exists_in _ _ = true |- _ => by rewrite H end.
Qed.

Section Observations.
Context {A : Type} (f : Event → option A).

Lemma omap_event_cons e l : omap f (e :: l) = option_list (f e) ++ omap f l.
Proof. simpl. by destruct (f e). Qed.

Lemma omap_event_none l : Forall (λ e, f e = None) l → omap f l = [].
Proof.
  induction 1 as [|e l He _ IH]; [done|].
  by rewrite omap_event_cons, He, IH.
Qed.

Lemma omap_sinks l :
  (∀ kw r, f (EvSink kw r) = None) → Forall is_sink l → omap f l = [].
Proof. intros Hf Hl. apply omap_event_none. by apply (Forall_is_sink _ l). Qed.

Lemma omap_mkdirs l :
  (∀ d ok, f (EvMakedirs d ok) = None) → Forall is_mkdir l → omap f l = [].
Proof. intros Hf Hl. apply omap_event_none. by apply (Forall_is_mkdir _ l). Qed.

Lemma omap_perhaps b e : f e = None → omap f (perhaps b e) = [].
Proof. intros He. destruct b; [|done]. simpl. by rewrite He. Qed.

End Observations.

(** Reads the calls off an explicit history. *)
Ltac observe :=
  unfold opens, transcodes;
  repeat first
    [ rewrite omap_app
    | rewrite omap_event_cons
    | rewrite omap_perhaps by reflexivity
    | match goal with
      | H : Forall is_sink ?l |- context [omap ?f ?l] =>
          rewrite (omap_sinks f l) by first [reflexivity | exact H]
      | H : Forall is_mkdir ?l |- context [omap ?f ?l] =>
          rewrite (omap_mkdirs f l) by first [reflexivity | exact H]
      end ];
  cbv beta iota delta [option_list option_rect]; simpl.

(** X6.  One call of [convert_single_file] opens the source at most once
    and calls the transcoder at most once, with no retry: the transcoder is
    called on the clip the call opened, which has an audio track, for the
    resolved output path; and a call that returns [True] did call it. *)
Theorem one_open_one_transcode E input_path output_path audio_params
    progress_callback w :
  ∃ b evs w',
    convert_single_file E input_path output_path audio_params
                        progress_callback w = (Ret b, w') ∧
    trace w' = evs ++ trace w ∧
    length (opens evs) ≤ 1 ∧
    match transcodes evs with
    | [] => b = false
    | [(c, o)] =>
        o = resolved_output input_path output_path ∧
        opens evs = [(input_path, inr c)] ∧
        clip_audio c = true
    | _ => False
    end.
Proof.
  destruct (single_run_runs E input_path output_path audio_params
              progress_callback w) as (b & evs & w' & Hrun & Hsr).
  exists b, evs, w'. split; [done|].
  split; [by eapply single_run_trace|].
  run_inv Hsr; try destruct (current_clip w).
  all: observe; cbn [length]; split; [lia|]; done.
Qed.

Lemma Forall_both_nil {B} (P : B → Prop) l :
  Forall P l → Forall (λ x, ¬ P x) l → l = [].
Proof. destruct 1 as [|x l Hx _]; [done|]. inversion 1. by subst. Qed.

Lemma create_output_directory_quiet E output_path w b cc f1 h n :
  create_output_directory E output_path w
  = (Ret b, mkWorld cc f1 h n (trace w)) →
  f1 = fs w.
Proof.
  destruct w as [cc' f h' n' tr]. unfold create_output_directory. msimpl.
  repeat match goal with
         | |- context [match ?x with _ => _ end] =>
             let y := stuck_on x in destruct y eqn:?; msimpl
         end.
  all: intros Heq;
    first [ by injection Heq as _ _ <- _ _
          | apply (f_equal (λ p, length (trace p.2))) in Heq;
            simpl in Heq; lia ].
Qed.

(** Splits a fact about all the events of a history into facts about its
    segments. *)
Ltac forall_split H :=
  repeat match goal with
         | H' : Forall _ (_ ++ _) |- _ => apply Forall_app in H' as [? ?]
         | H' : Forall _ (_ :: _) |- _ => apply Forall_cons in H' as [? ?]
         end.

(** X7.  [convert_single_file] changes the file system through
    [os.makedirs] and the transcoder only, and never cleans up: when
    neither was called the file system is as before, and when the
    transcoder was called the file system on return is exactly the one the
    transcoder left, also when the call then fails. *)
Theorem file_system_changed_by_transcoder_only E input_path output_path
    audio_params progress_callback w :
  ∃ b evs w',
    convert_single_file E input_path output_path audio_params
                        progress_callback w = (Ret b, w') ∧
    trace w' = evs ++ trace w ∧
    (Forall (λ e, ¬ is_mkdir e) evs →
     Forall (λ e, ¬ is_transcode e) evs → fs w' = fs w) ∧
    (∀ c o kw h r,
       EvTranscode c o kw h r ∈ evs →
       ∃ f1, fs w' = t_fs (env_write_audiofile E c o kw h f1) ∧
             (Forall (λ e, ¬ is_mkdir e) evs → f1 = fs w)).
Proof.
  destruct (single_run_runs E input_path output_path audio_params
              progress_callback w) as (b & evs & w' & Hrun & Hsr).
  exists b, evs, w'. split; [done|].
  split; [by eapply single_run_trace|].
  assert (∀ mk f1 b0 cc h n,
            create_output_directory E
              (resolved_output input_path output_path) w
            = (Ret b0, mkWorld cc f1 h n (mk ++ trace w)) →
            Forall is_mkdir mk → Forall (λ e, ¬ is_mkdir e) mk →
            f1 = fs w) as Hquiet.
  { intros mk f1 b0 cc h n Hc Hmk Hno.
    rewrite (Forall_both_nil _ _ Hmk Hno) in Hc.
    by eapply create_output_directory_quiet. }
  run_inv Hsr; try destruct (current_clip w); cbn [fs].
  all: split;
    [intros Hmk Htc;
     first [ reflexivity
           | exfalso; forall_split Htc;
             match goal with H : ¬ is_transcode _ |- _ => exact (H I) end
           | forall_split Hmk; eapply Hquiet; eassumption ]
    |intros c' o' kw' h' r' Hin;
     first
       [ exfalso;
         match type of Hin with
         | _ ∈ ?evs =>
             assert (Forall (λ e, match e with
                                  | EvTranscode _ _ _ _ _ => False
                                  | _ => True
                                  end) evs) as Hnone by forall_events;
             destruct (Forall_elem _ _ _ Hnone Hin)
         end
       | match type of Hin with
         | _ ∈ ?evs =>
             match evs with
             | context [EvTranscode ?c0 ?o0 ?kw0 ?h0 _] =>
                 assert (Forall (λ e, match e with
                                      | EvTranscode c1 o1 kw1 h1 _ =>
                                          c1 = c0 ∧ o1 = o0 ∧ kw1 = kw0 ∧
                                          h1 = h0
                                      | _ => True
                                      end) evs) as Hsame
                   by forall_events_by
                        ltac:(first [exact I | repeat split; reflexivity]);
                 destruct (Forall_elem _ _ _ Hsame Hin) as (-> & -> & -> & ->)
             end
         end;
         eexists; split; [reflexivity|];
         intros Hmk; forall_split Hmk; eapply Hquiet; eassumption ] ].
Qed.

Lemma caller_list_is_extended_in_place_witness :
  let w := init three_videos_fs stereo_heap in
  stereo_params !! "channels" = Some (PInt 2) ∧
  stereo_params !! "ffmpeg_params" = Some (PList 0) ∧
  ∃ b evs w',
    convert_single_file second_has_no_audio "videos/a.mp4" None
                        (Some stereo_params) None w = (Ret b, w') ∧
    trace w' = evs ++ trace w ∧
    (heap w' = heap w ∧
     Forall (λ e, match e with
                  | EvTranscode _ _ _ _ _ => False
                  | _ => True
                  end) evs
     ∨
     heap w' !!! 0 = heap w !!! 0 ++ channel_args stereo_params ∧
     (∀ a', a' ≠ 0 → heap w' !! a' = heap w !! a') ∧
     Forall (λ e, match e with
                  | EvTranscode _ _ kw h _ =>
                      h = heap w' ∧ kw !! "ffmpeg_params" = Some (PList 0)
                  | _ => True
                  end) evs).
Proof.
  split; [reflexivity|]. split; [reflexivity|].
  apply (caller_list_is_extended_in_place second_has_no_audio "videos/a.mp4"
           None stereo_params None (init three_videos_fs stereo_heap)
           (PInt 2) 0); reflexivity.
Defined.

Lemma empty_batch_calls_nothing_witness :
  let w := init three_videos_fs ∅ in
  get_video_files_from_directory (fs w) "nowhere" = [] ∧
  convert_batch second_has_no_audio "nowhere" None None (Some raising_sink) w
  = (Ret (0, 0), add_events [EvLog Error (InputDirMissing "nowhere")] w).
Proof.
  split; [reflexivity|].
  apply (empty_batch_calls_nothing second_has_no_audio "nowhere" None None
           (Some raising_sink) (init three_videos_fs ∅)).
  reflexivity.
Defined.

Lemma invalid_input_touches_nothing_witness :
  let w := init three_videos_fs ∅ in
  (exists_in (fs w) "videos/notes.txt" = false ∨
   validate_file_extension "videos/notes.txt" = false) ∧
  convert_single_file second_has_no_audio "videos/notes.txt"
                      (Some "out/notes.wav") None (Some raising_sink) w
  = (Ret false,
     add_events [EvLog Error (FileNotFound "videos/notes.txt")] w).
Proof.
  split; [by left|].
  apply (invalid_input_touches_nothing second_has_no_audio "videos/notes.txt"
           (Some "out/notes.wav") None (Some raising_sink)
           (init three_videos_fs ∅)).
  by left.
Defined.

Lemma rsplit_none c s : Str.contains c s = false → Str.rsplit c s = None.
Proof.
  induction s as [|a s IH]; [done|]. simpl.
  intros [Ha Hs]%orb_false_iff. by rewrite IH, Ha.
Qed.

Lemma rsplit_last c p x :
  Str.contains c x = false → Str.rsplit c (p +:+ String c x) = Some (p, x).
Proof.
  intros Hx. induction p as [|a p IH].
  - rewrite str_app_nil. simpl. by rewrite rsplit_none, Ascii.eqb_refl.
  - rewrite str_app_cons. simpl. by rewrite IH.
Qed.

Lemma endswith_app c a :
  Str.endswith c a = true → ∃ a', a = a' +:+ String c "".
Proof.
  induction a as [|x a IH]; [done|]. simpl.
  destruct a as [|y a].
  - intros ->%Ascii.eqb_eq. by exists "".
  - intros [a' ->]%IH. by exists (String x a').
Qed.

(** The base name of a file name joined under a directory is the file
    name. *)
Lemma basename_join a x :
  Str.contains sep x = false → os_path.basename (os_path.join a x) = x.
Proof.
  intros Hx.
  assert (Str.startswith sep x = false) as Hrel.
  { destruct (Str.startswith sep x) eqn:Hs; [|done].
    apply startswith_contains in Hs. congruence. }
  rewrite join_relative by done. unfold os_path.basename.
  destruct (Str.is_empty a || Str.endswith sep a) eqn:Ha.
  - apply orb_true_iff in Ha as [Ha|Ha].
    + destruct a; [|done]. by rewrite str_app_nil, rsplit_none.
    + apply endswith_app in Ha as [a' ->].
      by rewrite app_assoc_str, str_app_cons, str_app_nil, rsplit_last.
  - by rewrite app_assoc_str, str_app_cons, str_app_nil, rsplit_last.
Qed.

Lemma contains_app c s1 s2 :
  Str.contains c (s1 +:+ s2) = Str.contains c s1 || Str.contains c s2.
Proof.
  induction s1 as [|a s1 IH]; [done|].
  rewrite str_app_cons. simpl. by rewrite IH, orb_assoc.
Qed.

(** X8.  The file name of the path [generate_output_path] returns is the
    stem of the source, a dot and the format, whatever the directories
    involved, provided the format holds no separator: [os.path.basename]
    undoes the [os.path.join] of [generate_output_path]. *)
Theorem output_file_name_is_stem_and_format E input_path output_dir
    output_format w :
  Str.contains sep output_format = false →
  ∃ p w',
    generate_output_path E input_path output_dir output_format w
    = (Ret p, w') ∧
    os_path.basename p
    = Path.stem (Path.parse input_path) +:+ "." +:+ output_format.
Proof.
  intros Hfmt.
  destruct (generate_output_path_run E input_path output_dir output_format w)
    as (evs & fs' & -> & _).
  eexists _, _. split; [reflexivity|].
  assert (Str.contains sep (Path.stem (Path.parse input_path)
                            +:+ String dot output_format) = false) as Hname.
  { rewrite contains_app, stem_no_sep. simpl. by rewrite Hfmt. }
  destruct (truthy output_dir); by rewrite basename_join.
Qed.

Lemma output_file_name_is_stem_and_format_witness :
  Str.contains sep "mp3" = false ∧
  ∃ p w',
    generate_output_path second_has_no_audio "videos/talk.final.MOV"
      (Some "out/audio") "mp3" (init three_videos_fs ∅) = (Ret p, w') ∧
    os_path.basename p = "talk.final.mp3".
Proof.
  split; [reflexivity|].
  apply (output_file_name_is_stem_and_format second_has_no_audio
           "videos/talk.final.MOV" (Some "out/audio") "mp3"
           (init three_videos_fs ∅)).
  reflexivity.
Defined.

(** ** Formatting of sizes *)

Section FileSize.

Local Open Scope Z_scope.

Lemma round_half_even_nearest p q :
  0 ≤ p → 0 < q → 2 * Z.abs (p - round_half_even p q * q) ≤ q.
Proof.
  intros Hp Hq. unfold round_half_even.
  pose proof (Z.div_mod p q ltac:(lia)) as Hdm.
  pose proof (Z.mod_pos_bound p q Hq) as Hr.
  set (d := p / q) in *. set (r := p mod q) in *.
  destruct (Z.ltb_spec (2 * r) q); [nia|].
  destruct (Z.ltb_spec q (2 * r)); [nia|].
  destruct (Z.even d); nia.
Qed.

Lemma round_half_even_nonneg p q : 0 ≤ p → 0 < q → 0 ≤ round_half_even p q.
Proof.
  intros Hp Hq. unfold round_half_even.
  pose proof (Z.div_pos p q Hp Hq).
  repeat destruct (_ <? _); [lia..|]. destruct (Z.even _); lia.
Qed.

(** The integers with at most 53 significant bits are floats. *)
Lemma float_of_int_exact n :
  Z.abs n < 2 ^ 53 → float_of_int n = inr (mkFloat n 0).
Proof.
  intros Hn. unfold float_of_int.
  destruct (Z.leb_spec (Z.log2 (Z.abs n) - 52) 0) as [|Hk]; [done|].
  exfalso. destruct (Z.eq_dec (Z.abs n) 0) as [H0|H0].
  - rewrite H0 in Hk. simpl in Hk. lia.
  - apply Z.log2_lt_pow2 in Hn; lia.
Qed.

(** What the loop computes: the number [k] of divisions, at most
    [units_left], with the size between [1024 ^ k] and [1024 ^ (k + 1)]
    unless the loop did not run or ran out of units. *)
Lemma scale_size_spec units_left : ∀ x i,
  0 ≤ f_shift x →
  ∃ k : nat,
    (k ≤ units_left)%nat ∧
    scale_size units_left x i
    = (mkFloat (f_num x) (f_shift x + 10 * Z.of_nat k), (i + k)%nat) ∧
    (k = 0%nat ∨ 1024 ^ Z.of_nat k * 2 ^ f_shift x ≤ f_num x) ∧
    (k = units_left ∨ f_num x < 1024 ^ (Z.of_nat k + 1) * 2 ^ f_shift x).
Proof.
  induction units_left as [|l IH]; intros [m s] i Hs; cbn [f_num f_shift] in *.
  { exists 0%nat. split; [done|]. cbn [scale_size].
    rewrite Z.add_0_r, Nat.add_0_r. auto. }
  cbn [scale_size]. unfold float_ge_1024. cbn [f_num f_shift].
  destruct (Z.leb_spec (1024 * 2 ^ s) m) as [Hge|Hlt].
  - destruct (IH (float_div_1024 (mkFloat m s)) (S i)) as (k & Hk & -> & Hlo & Hhi).
    { cbn [float_div_1024 f_shift]. lia. }
    cbn [float_div_1024 f_num f_shift] in *.
    assert (2 ^ (s + 10) = 1024 * 2 ^ s) as Hpow.
    { rewrite Z.pow_add_r by lia. lia. }
    exists (S k). split; [lia|]. split.
    { f_equal; [f_equal; lia|lia]. }
    rewrite Hpow in Hlo, Hhi.
    assert (∀ j, 0 ≤ j → 1024 ^ (j + 1) = 1024 ^ j * 1024) as Hsucc.
    { intros j Hj. rewrite Z.pow_add_r by lia. lia. }
    split.
    + right. rewrite Nat2Z.inj_succ, <- Z.add_1_r, Hsucc by lia.
      destruct Hlo as [->|Hlo]; [simpl; lia|]. lia.
    + destruct Hhi as [->|Hhi]; [by left|]. right.
      rewrite Nat2Z.inj_succ, <- Z.add_1_r.
      rewrite (Hsucc (Z.of_nat k + 1)) by lia. lia.
  - exists 0%nat. split; [lia|]. rewrite Z.add_0_r, Nat.add_0_r.
    split; [done|]. split; [by left|]. right.
    change (1024 ^ (Z.of_nat 0 + 1)) with 1024. lia.
Qed.

Lemma pow_2_10 (k : nat) : 2 ^ (0 + 10 * Z.of_nat k) = 1024 ^ Z.of_nat k.
Proof.
  rewrite Z.add_0_l, Z.pow_mul_r by lia. done.
Qed.

(** A tie goes to the even neighbour. *)
Lemma round_half_even_tie p q :
  0 < q → 2 * Z.abs (p - round_half_even p q * q) = q →
  Z.even (round_half_even p q) = true.
Proof.
  intros Hq. unfold round_half_even.
  pose proof (Z.div_mod p q ltac:(lia)) as Hdm.
  pose proof (Z.mod_pos_bound p q Hq) as Hr.
  set (d := p / q) in *. set (r := p mod q) in *.
  destruct (Z.ltb_spec (2 * r) q); [nia|].
  destruct (Z.ltb_spec q (2 * r)); [nia|].
  intros _. destruct (Z.even d) eqn:Hd; [done|].
  by rewrite Z.add_1_r, Z.even_succ, <- Z.negb_even, Hd.
Qed.

(** X9.  For a size of [n] bytes with [0 < n < 2 ^ 53], [format_file_size]
    picks the largest unit not above the size, up to TB, and prints the
    size in that unit rounded to the nearest tenth, ties to even: the
    result is the decimal [t / 10] with the digit [t mod 10] after the
    point, a space and the unit of index [i], where [1024 ^ i ≤ n],
    [n < 1024 ^ (i + 1)] unless the unit is the last one, [t / 10] is
    within half a tenth of [n / 1024 ^ i], and [t] is even when
    [n / 1024 ^ i] lies exactly half way between two tenths. *)
Theorem format_file_size_nearest_tenth n :
  0 < n < 2 ^ 53 →
  ∃ (i : nat) (t : Z) (unit_name : string),
    size_names !! i = Some unit_name ∧
    format_file_size n
    = inr (pretty (t / 10) +:+ "." +:+ pretty (t mod 10)
           +:+ " " +:+ unit_name) ∧
    1024 ^ Z.of_nat i ≤ n ∧
    (i = 4%nat ∨ n < 1024 ^ (Z.of_nat i + 1)) ∧
    2 * Z.abs (10 * n - t * 1024 ^ Z.of_nat i) ≤ 1024 ^ Z.of_nat i ∧
    (2 * Z.abs (10 * n - t * 1024 ^ Z.of_nat i) = 1024 ^ Z.of_nat i →
     Z.even t = true).
Proof.
  intros [Hpos Hn]. unfold format_file_size.
  destruct (Z.eqb_spec n 0) as [|_]; [lia|].
  rewrite float_of_int_exact by lia.
  change (length size_names - 1 - 0)%nat with 4%nat.
  destruct (scale_size_spec 4 (mkFloat n 0) 0)
    as (k & Hk & -> & Hlo & Hhi); [done|].
  cbn [f_num f_shift] in *. rewrite Nat.add_0_l.
  assert (∃ unit_name, size_names !! k = Some unit_name) as [u Hu].
  { apply lookup_lt_is_Some. change (length size_names) with 5%nat. lia. }
  rewrite Hu. unfold format_1f. cbn [f_num f_shift].
  rewrite pow_2_10, Z.abs_eq by lia.
  destruct (Z.ltb_spec n 0) as [|_]; [lia|].
  assert (0 < 1024 ^ Z.of_nat k) as Hd by (apply Z.pow_pos_nonneg; lia).
  exists k, (round_half_even (10 * n) (1024 ^ Z.of_nat k)), u.
  change (2 ^ 0) with 1 in Hlo, Hhi. rewrite Z.mul_1_r in Hlo, Hhi.
  split; [done|]. split; [by rewrite str_app_nil, !app_assoc_str|]. split.
  { destruct Hlo as [->|Hlo]; [simpl; lia|lia]. }
  split.
  { destruct Hhi as [->|Hhi]; [by left|]. right. lia. }
  split; [apply round_half_even_nearest; lia|].
  by apply round_half_even_tie.
Qed.

(** 1280 bytes are 1.25 KB, half way between 1.2 and 1.3: shown as 1.2. *)
Lemma format_file_size_nearest_tenth_witness :
  0 < 1280 < 2 ^ 53 ∧ format_file_size 1280 = inr "1.2 KB".
Proof.
  split; [lia|].
  destruct (format_file_size_nearest_tenth 1280 ltac:(lia))
    as (i & t & u & Hu & -> & Hlo & Hhi & Hnear & Htie).
  assert (i = 1%nat) as ->.
  { destruct i as [|[|i]]; [|done|].
    - exfalso. destruct Hhi as [Hhi|Hhi]; [done|]. simpl in Hhi. lia.
    - exfalso.
      assert (1024 ^ 2 ≤ 1024 ^ Z.of_nat (S (S i))) as Hle
        by (apply Z.pow_le_mono_r; lia).
      change (1024 ^ 2) with 1048576 in Hle. lia. }
  change (1024 ^ Z.of_nat 1) with 1024 in Hnear, Htie.
  assert (t = 12) as ->.
  { destruct (Z.eq_dec t 13) as [->|]; [|lia].
    by specialize (Htie eq_refl). }
  injection Hu as <-. reflexivity.
Defined.

Lemma round_half_even_even p q t :
  0 < q → Z.even t = true → 2 * Z.abs (p - t * q) ≤ q →
  round_half_even p q = t.
Proof.
  intros Hq Ht Hnear. unfold round_half_even.
  destruct (Z_le_gt_dec 0 (p - t * q)) as [He|He].
  - assert (p / q = t) as Hd.
    { symmetry. apply (Z.div_unique_pos p q t (p - t * q)); lia. }
    assert (p mod q = p - t * q) as Hr.
    { symmetry. apply (Z.mod_unique_pos p q t (p - t * q)); lia. }
    rewrite Hd, Hr, Ht.
    destruct (Z.ltb_spec (2 * (p - t * q)) q); [done|].
    destruct (Z.ltb_spec q (2 * (p - t * q))); [lia|done].
  - assert (p / q = t - 1) as Hd.
    { symmetry. apply (Z.div_unique_pos p q (t - 1) (p - t * q + q)); lia. }
    assert (p mod q = p - t * q + q) as Hr.
    { symmetry. apply (Z.mod_unique_pos p q (t - 1) (p - t * q + q)); lia. }
    rewrite Hd, Hr.
    assert (Z.even (t - 1) = false) as ->.
    { rewrite Z.even_sub, Ht. done. }
    destruct (Z.ltb_spec (2 * (p - t * q + q)) q); [lia|].
    destruct (Z.ltb_spec q (2 * (p - t * q + q))); lia.
Qed.

(** X10.  Just below a unit boundary the size is shown as 1024.0 of the
    smaller unit, not as 1.0 of the larger one: the unit is chosen before
    the value is rounded.  This is so for every size [n] below
    [1024 ^ (i + 1)] with [n / 1024 ^ i ≥ 1023.95], for the units KB, MB
    and GB. *)
Theorem size_under_boundary_shows_1024 n (i : nat) unit_name :
  size_names !! i = Some unit_name →
  (i < 4)%nat →
  20479 * 1024 ^ Z.of_nat i ≤ 20 * n →
  n < 1024 ^ (Z.of_nat i + 1) →
  format_file_size n = inr ("1024.0 " +:+ unit_name).
Proof.
  intros Hu Hi Hlo Hhi.
  assert (0 < 1024 ^ Z.of_nat i) as Hd by (apply Z.pow_pos_nonneg; lia).
  assert (1024 ^ (Z.of_nat i + 1) ≤ 2 ^ 40) as Hmax.
  { change (2 ^ 40) with (1024 ^ 4). apply Z.pow_le_mono_r; lia. }
  unfold format_file_size.
  destruct (Z.eqb_spec n 0) as [|_]; [lia|].
  rewrite float_of_int_exact by lia.
  change (length size_names - 1 - 0)%nat with 4%nat.
  destruct (scale_size_spec 4 (mkFloat n 0) 0)
    as (k & Hk & -> & Hklo & Hkhi); [done|].
  cbn [f_num f_shift] in *. rewrite Nat.add_0_l.
  change (2 ^ 0) with 1 in Hklo, Hkhi. rewrite Z.mul_1_r in Hklo, Hkhi.
  assert (k = i) as ->.
  { destruct (Nat.lt_trichotomy k i) as [Hlt|[->|Hgt]]; [|done|]; exfalso.
    - destruct Hkhi as [->|Hkhi]; [lia|].
      assert (1024 ^ (Z.of_nat k + 1) ≤ 1024 ^ Z.of_nat i)
        by (apply Z.pow_le_mono_r; lia).
      lia.
    - destruct Hklo as [->|Hklo]; [lia|].
      assert (1024 ^ (Z.of_nat i + 1) ≤ 1024 ^ Z.of_nat k)
        by (apply Z.pow_le_mono_r; lia).
      lia. }
  rewrite Hu. unfold format_1f. cbn [f_num f_shift].
  rewrite pow_2_10, Z.abs_eq by lia.
  destruct (Z.ltb_spec n 0) as [|_]; [lia|].
  rewrite (round_half_even_even _ _ 10240); [done|done|done|].
  rewrite Z.pow_add_r in Hhi by lia. change (1024 ^ 1) with 1024 in Hhi.
  lia.
Qed.

Lemma size_under_boundary_shows_1024_witness :
  size_names !! 1%nat = Some "KB" ∧
  (1 < 4)%nat ∧
  20479 * 1024 ^ Z.of_nat 1 ≤ 20 * 1048575 ∧
  1048575 < 1024 ^ (Z.of_nat 1 + 1) ∧
  format_file_size 1048575 = inr "1024.0 KB".
Proof.
  split; [reflexivity|]. split; [lia|]. split; [simpl; lia|].
  split; [simpl; lia|].
  apply (size_under_boundary_shows_1024 1048575 1 "KB");
    [reflexivity|lia|simpl; lia|simpl; lia].
Defined.

(** The float of a positive integer below [2 ^ 1023]: no overflow, and not
    below a power of two that the integer reaches. *)
Lemma float_of_int_pos n :
  0 < n < 2 ^ 1023 →
  ∃ v, float_of_int n = inr (mkFloat v 0) ∧
       ∀ j, 0 ≤ j ≤ 53 → 2 ^ j ≤ n → 2 ^ j ≤ v.
Proof.
  intros [Hpos Hn]. unfold float_of_int.
  rewrite (Z.abs_eq n) by lia.
  destruct (Z.leb_spec (Z.log2 n - 52) 0) as [|Hk]; [by exists n|].
  set (k := Z.log2 n - 52) in *.
  pose proof (Z.log2_spec n Hpos) as [Hlo Hhi].
  assert (Z.log2 n < 1023) as HL by (by apply Z.log2_lt_pow2).
  assert (Z.log2 n = k + 52) as HLk by lia.
  rewrite HLk in Hlo, Hhi.
  rewrite Z.shiftr_div_pow2 by lia.
  assert (0 < 2 ^ k) as H2k by (apply Z.pow_pos_nonneg; lia).
  assert (2 ^ (k + 52) = 2 ^ 52 * 2 ^ k) as E52
    by (rewrite Z.pow_add_r by lia; lia).
  assert (2 ^ Z.succ (k + 52) = 2 ^ 53 * 2 ^ k) as E53.
  { replace (Z.succ (k + 52)) with (53 + k) by lia.
    rewrite Z.pow_add_r by lia. done. }
  rewrite E52 in Hlo. rewrite E53 in Hhi.
  assert (2 ^ 52 ≤ n / 2 ^ k) as Hq1 by (apply Z.div_le_lower_bound; lia).
  assert (n / 2 ^ k < 2 ^ 53) as Hq2 by (apply Z.div_lt_upper_bound; lia).
  set (q := n / 2 ^ k) in *.
  match goal with
  | |- context [if ?c then q + 1 else q] =>
      set (q' := if c then q + 1 else q)
  end.
  assert (2 ^ 52 ≤ q' ≤ 2 ^ 53) as Hq' by (subst q'; destruct (_ || _); lia).
  clearbody q'.
  rewrite Z.shiftl_mul_pow2 by lia.
  assert (2 ^ 53 * 2 ^ k < 2 ^ 1024) as Hmax.
  { rewrite <- Z.pow_add_r by lia. apply Z.pow_lt_mono_r; lia. }
  destruct (Z.leb_spec (2 ^ 1024) (q' * 2 ^ k)) as [|_]; [nia|].
  rewrite Z.sgn_pos, Z.mul_1_l by done.
  eexists. split; [done|]. intros j Hj _.
  assert (2 ^ j ≤ 2 ^ 53) by (apply Z.pow_le_mono_r; lia).
  assert (2 ^ 53 ≤ 2 ^ 52 * 2 ^ k).
  { rewrite <- Z.pow_add_r by lia. apply Z.pow_le_mono_r; lia. }
  nia.
Qed.

(** X11.  TB is the last unit: every size from [1024 ^ 4] bytes on is shown
    in TB, however large, and the call does not raise, for all sizes below
    [2 ^ 1023]. *)
Theorem sizes_from_a_tebibyte_are_in_TB n :
  1024 ^ 4 ≤ n < 2 ^ 1023 →
  ∃ s, format_file_size n = inr (s +:+ " TB").
Proof.
  intros [Hlo Hhi]. unfold format_file_size.
  destruct (Z.eqb_spec n 0) as [|_]; [lia|].
  destruct (float_of_int_pos n) as (v & -> & Hv); [lia|].
  specialize (Hv 40 ltac:(lia) Hlo). change (2 ^ 40) with 1099511627776 in Hv.
  cbn [length size_names Nat.sub scale_size].
  unfold float_ge_1024, float_div_1024. cbn [f_num f_shift].
  repeat match goal with
         | |- context [(?a <=? v)] =>
             let c := eval vm_compute in a in
             change a with c;
             destruct (Z.leb_spec c v) as [_|?]; [|lia]
         end.
  cbn [lookup]. by eexists.
Qed.

Lemma sizes_from_a_tebibyte_are_in_TB_witness :
  1024 ^ 4 ≤ 2 ^ 53 + 1 < 2 ^ 1023 ∧
  ∃ s, format_file_size (2 ^ 53 + 1) = inr (s +:+ " TB").
Proof.
  split; [split; [vm_compute; discriminate|reflexivity]|].
  apply (sizes_from_a_tebibyte_are_in_TB (2 ^ 53 + 1)).
  split; [vm_compute; discriminate|reflexivity].
Defined.

End FileSize.

(** ** The audio parameters of the command line *)

Lemma prepare_audio_parameters_lookup args k :
  prepare_audio_parameters args !! k =
  if decide (k = "fps") then
    if (args_sample_rate args =? 44100)%Z then None
    else Some (PInt (args_sample_rate args))
  else if decide (k = "channels") then
    match args_channels args with
    | Some c => if (c =? 1)%Z then Some (PInt 1)
                else if (c =? 2)%Z then Some (PInt 2) else None
    | None => None
    end
  else if decide (k = "bitrate") then
    if truthy (args_bitrate args)
    then Some (PStr (default "" (args_bitrate args))) else None
  else if decide (k = "codec") then
    if String.eqb (args_format args) "wav" then Some (PStr "pcm_s16le")
    else if String.eqb (args_format args) "mp3" then Some (PStr "libmp3lame")
    else if String.eqb (args_format args) "flac" then Some (PStr "flac")
    else if String.eqb (args_format args) "aac" then Some (PStr "aac")
    else None
  else None.
Proof.
  unfold prepare_audio_parameters.
  destruct (args_sample_rate args =? 44100)%Z; cbn [negb];
    (destruct (args_channels args) as [c|];
     [destruct (Z.eqb_spec c 0) as [->|];
      [|destruct (c =? 1)%Z; [|destruct (c =? 2)%Z]]|]);
    destruct (truthy (args_bitrate args));
    destruct (String.eqb (args_format args) "wav");
    [|destruct (String.eqb (args_format args) "mp3");
      [|destruct (String.eqb (args_format args) "flac");
        [|destruct (String.eqb (args_format args) "aac")]]..];
    cbn [Z.eqb];
    repeat (destruct (decide (k = _)) as [->|]);
    by simplify_map_eq.
Qed.

(** The transcoder calls of a run: the output path and the parameters
    built from [audio_params]. *)
Lemma single_run_forwarded E input_path out audio_params progress_callback w
    b evs w' c o kw h r :
  single_run E input_path out audio_params progress_callback w b evs w' →
  EvTranscode c o kw h r ∈ evs →
  o = out ∧
  forwarded (default ∅ audio_params) (logger_for progress_callback) (heap w)
            kw h.
Proof.
  intros Hsr Hin.
  run_inv Hsr; try destruct (current_clip w).
  all: first
    [ exfalso;
      match type of Hin with
      | _ ∈ ?evs =>
          assert (Forall (λ e, match e with
                               | EvTranscode _ _ _ _ _ => False
                               | _ => True
                               end) evs) as Hnone by forall_events;
          destruct (Forall_elem _ _ _ Hnone Hin)
      end
    | match goal with
      | Hb : built _ _ (Ret ?dp) ?h1 |- _ =>
          match type of Hin with
          | _ ∈ ?evs =>
              assert (Forall (λ e, match e with
                                   | EvTranscode _ o' kw' h' _ =>
                                       o' = out ∧
                                       kw' = <["logger" :=
                                                 logger_for progress_callback]>
                                               dp ∧ h' = h1
                                   | _ => True
                                   end) evs) as Hsame
                by forall_events_by
                     ltac:(first [exact I | repeat split; reflexivity]);
              destruct (Forall_elem _ _ _ Hsame Hin) as (-> & -> & ->);
              split; [reflexivity|by apply built_forwarded]
          end
      end ].
Qed.

(** A run that returns [True] leaves the output in place, not empty. *)
Lemma single_run_success E input_path out audio_params progress_callback w
    evs w' :
  single_run E input_path out audio_params progress_callback w true evs w' →
  nonempty_file (fs w') out.
Proof. inversion 1; subst; assumption. Qed.

(** The conversion of [main] and its exit. *)
Lemma main_convert_file_exit E input output_path audio_params
    progress_callback out w :
  let o := main_convert_file E input output_path audio_params
                             progress_callback out w in
  (exit_status o = Some 0%Z ∨ exit_status o = Some 1%Z) ∧
  (∃ last, printed o = out ++ [last] ∧ ∀ p, last ≠ PrOverwritePrompt p) ∧
  (exit_status o = Some 0%Z →
   nonempty_file (fs (world o)) output_path ∧
   converted (trace (world o)) = output_path :: converted (trace w) ∧
   printed o = out ++ [PrSuccess output_path]).
Proof.
  intros o. subst o. unfold main_convert_file.
  destruct (single_run_runs E input (Some output_path) (Some audio_params)
              progress_callback w) as (b & evs & w' & -> & Hsr).
  cbn [resolved_output] in Hsr.
  destruct b; cbn [exit_status printed world].
  - split; [by left|]. split; [by eexists|]. intros _.
    split; [by eapply single_run_success|]. split; [|done].
    rewrite (single_run_trace _ _ _ _ _ _ _ _ _ Hsr), converted_app.
    by destruct (single_run_observed _ _ _ _ _ _ _ _ _ Hsr) as [_ ->].
  - split; [by right|]. split; [by eexists|]. done.
Qed.

Lemma prepared_fps args :
  prepare_audio_parameters args !! "fps"
  = if (args_sample_rate args =? 44100)%Z then None
    else Some (PInt (args_sample_rate args)).
Proof. by rewrite prepare_audio_parameters_lookup. Qed.

Lemma prepared_channels args :
  prepare_audio_parameters args !! "channels"
  = match args_channels args with
    | Some c => if (c =? 1)%Z then Some (PInt 1)
                else if (c =? 2)%Z then Some (PInt 2) else None
    | None => None
    end.
Proof. by rewrite prepare_audio_parameters_lookup. Qed.

Lemma prepared_bitrate args :
  prepare_audio_parameters args !! "bitrate"
  = if truthy (args_bitrate args) then PStr <$> args_bitrate args else None.
Proof.
  rewrite prepare_audio_parameters_lookup.
  by destruct (args_bitrate args).
Qed.

Lemma prepared_codec args :
  default (PStr "pcm_s16le") (prepare_audio_parameters args !! "codec")
  = PStr (codec_of_format (args_format args)).
Proof.
  rewrite prepare_audio_parameters_lookup. unfold codec_of_format.
  destruct (String.eqb_spec (args_format args) "wav") as [->|]; [done|].
  by repeat destruct (String.eqb (args_format args) _).
Qed.

Lemma prepared_ffmpeg_params args :
  prepare_audio_parameters args !! "ffmpeg_params" = None.
Proof. by rewrite prepare_audio_parameters_lookup. Qed.

(** The parameters of [prepare_audio_parameters], once through the filter
    of [convert_single_file]. *)
Lemma forwarded_options_of args lg h0 kw h :
  forwarded (prepare_audio_parameters args) lg h0 kw h →
  forwarded_options args lg h0 kw h.
Proof.
  intros (Hout & Hin & Hcodec & Hlog & Hch).
  unfold forwarded_options.
  split; [by rewrite Hcodec, prepared_codec|].
  split.
  { rewrite Hin, prepared_fps; [done|unfold supported_params; set_solver|done..]. }
  split.
  { rewrite Hin, prepared_bitrate;
      [done|unfold supported_params; set_solver|done..]. }
  split; [done|]. split.
  { intros k Hk.
    destruct (decide (k ∈ supported_params)) as [Hs|Hs].
    - assert (k ≠ "fps" ∧ k ≠ "bitrate" ∧ k ≠ "codec" ∧ k ≠ "ffmpeg_params")
        as (? & ? & ? & ?) by set_solver.
      assert (k ≠ "channels")
        by (intros ->; revert Hs; unfold supported_params; set_solver).
      rewrite Hin, prepare_audio_parameters_lookup by done.
      by rewrite !decide_False.
    - apply Hout; [done|set_solver]. }
  unfold channel_args in Hch.
  rewrite prepared_channels, prepared_ffmpeg_params in Hch.
  destruct (args_channels args) as [c|]; [|done].
  destruct (c =? 1)%Z; [|destruct (c =? 2)%Z]; exact Hch.
Qed.

(** X12.  The options of the command line, as [prepare_audio_parameters]
    and [convert_single_file] together hand them to the transcoder: the
    codec of the format, [pcm_s16le] for [wav] and for a format that is not
    known; the sample rate as [fps] unless it is 44100; the bit rate when
    one is given; the channels not as a parameter but as ['-ac', n] in a new
    [ffmpeg_params] list, for 1 and 2 only; and no other key than
    [logger].  Parameters built from the command line never make
    [convert_single_file] fail while it builds the transcoder's. *)
Theorem command_line_options_reach_transcoder E args input_path output_path
    progress_callback w :
  (∃ b evs w',
     convert_single_file E input_path output_path
       (Some (prepare_audio_parameters args)) progress_callback w
     = (Ret b, w') ∧
     trace w' = evs ++ trace w ∧
     ∀ c o kw h r,
       EvTranscode c o kw h r ∈ evs →
       forwarded_options args (logger_for progress_callback) (heap w) kw h) ∧
  (∀ w0, ∃ dp w1,
     default_params (Some (prepare_audio_parameters args)) w0 = (Ret dp, w1)).
Proof.
  split.
  - destruct (single_run_runs E input_path output_path
                (Some (prepare_audio_parameters args)) progress_callback w)
      as (b & evs & w' & Hrun & Hsr).
    exists b, evs, w'. split; [done|].
    split; [by eapply single_run_trace|].
    intros c o kw h r Hin.
    destruct (single_run_forwarded _ _ _ _ _ _ _ _ _ _ _ _ _ _ Hsr Hin)
      as [_ Hf].
    by apply forwarded_options_of.
  - intros w0.
    destruct (default_params (Some (prepare_audio_parameters args)) w0)
      as [[dp|e] w1] eqn:Hdp; [by eexists _, _|].
    apply default_params_raises in Hdp as (v & Hv & _).
    change (default ∅ (Some (prepare_audio_parameters args)))
      with (prepare_audio_parameters args) in Hv.
    by rewrite prepared_ffmpeg_params in Hv.
Qed.

(** ** [main] *)

(** X13.  Without [--verbose], a batch started from the command line
    converts nothing, whatever the display does: [main] hands the display
    to [convert_batch] as the progress callback, and every file then fails
    on the call of [file_progress_callback].  The transcoder is never
    called and no conversion is logged.  When the log file cannot be
    opened the program error is printed and the exit status is 1;
    otherwise the exit status is 1 when the directory holds videos, and 0,
    after the message that all files were converted, when the directory is
    missing or holds none. *)
Theorem cli_batch_without_verbose_converts_nothing E FileHandler
    logger_handlers display answer args fs0 d :
  args_verbose args = false →
  truthy (args_input args) = false →
  args_directory args = Some d →
  d ≠ "" →
  let o := main E FileHandler logger_handlers display answer args fs0 in
  Forall (λ e, match e with
               | EvTranscode _ _ _ _ _ | EvLog Info (Converted _) => False
               | _ => True
               end) (trace (world o)) ∧
  match setup_logging FileHandler logger_handlers (args_log_file args) fs0
  with
  | inl e => exit_status o = Some 1%Z ∧ printed o = [PrProgramError e]
  | inr fs1 =>
      exit_status o
      = Some (if decide (get_video_files_from_directory fs1 d = [])
              then 0 else 1)%Z ∧
      (get_video_files_from_directory fs1 d = [] →
       printed o = [PrStartBatch d; PrAllConverted])
  end.
Proof.
  intros Hv Hi Hd Hne o. subst o. unfold main, VideoToAudioConverter.
  destruct (setup_logging FileHandler logger_handlers (args_log_file args)
              fs0) as [e|fs1]; [by split; [constructor|]|].
  unfold main_with.
  rewrite Hv, Hi, Hd. cbn [negb]. change (default "" (Some d)) with d.
  assert (truthy (Some d) = true) as -> by (by destruct d).
  destruct (decide (get_video_files_from_directory fs1 d = [])) as [Hnone|Hsome].
  - set (w := init fs1 ∅).
    assert (trace w = []) as Htr0 by done.
    change fs1 with (fs w) in Hnone. clearbody w.
    unfold convert_batch, bind, os_path_exists.
    destruct (exists_in (fs w) d); cbn [negb]; [rewrite Hnone|];
      unfold log, emit, ret;
      cbn [world exit_status printed trace app Nat.eqb];
      rewrite Htr0; by repeat constructor.
  - destruct (convert_batch_callback E d (args_output_dir args)
                (Some (prepare_audio_parameters args)) display (init fs1 ∅))
      as (r & evs & w' & -> & Htr & Hev & Hret).
    cbn [trace init] in Htr. rewrite app_nil_r in Htr. cbn [fs init] in Hret.
    destruct r as [[n t]|e]; cbn [world exit_status]; [|by rewrite Htr].
    destruct (Hret n t eq_refl) as [-> ->].
    destruct (get_video_files_from_directory fs1 d); [done|].
    cbn [length Nat.eqb world exit_status]. by rewrite Htr.
Qed.

(** Three videos and a log file that opens: nothing is converted and the
    status is 1. *)
Lemma cli_batch_without_verbose_converts_nothing_witness :
  args_verbose batch_mp3_args = false ∧
  truthy (args_input batch_mp3_args) = false ∧
  args_directory batch_mp3_args = Some "videos" ∧
  "videos" ≠ "" ∧
  let o := main second_has_no_audio append_mode false silent_display None
                batch_mp3_args three_videos_fs in
  Forall (λ e, match e with
               | EvTranscode _ _ _ _ _ | EvLog Info (Converted _) => False
               | _ => True
               end) (trace (world o)) ∧
  exit_status o = Some 1%Z.
Proof.
  split; [reflexivity|]. split; [reflexivity|]. split; [reflexivity|].
  split; [discriminate|].
  destruct (cli_batch_without_verbose_converts_nothing second_has_no_audio
              append_mode false silent_display None batch_mp3_args
              three_videos_fs "videos")
    as [Hnone Hexit]; [reflexivity|reflexivity|reflexivity|discriminate|].
  split; [exact Hnone|].
  destruct (setup_logging append_mode false (args_log_file batch_mp3_args)
              three_videos_fs) as [e|fs1] eqn:Hlog; [discriminate Hlog|].
  injection Hlog as <-. destruct Hexit as [-> _].
  rewrite decide_False; [reflexivity|]. vm_compute. discriminate.
Defined.

(** X14.  In a batch started from the command line, [--format] chooses
    the codec and not the file name: every call of the transcoder is for a
    path that ends in [.wav] and gets the codec of the format, so
    [--format mp3] writes MP3 data to files named [.wav]. *)
Theorem cli_batch_format_sets_codec_not_name E FileHandler logger_handlers
    display answer args fs0 d :
  truthy (args_input args) = false →
  args_directory args = Some d →
  d ≠ "" →
  let o := main E FileHandler logger_handlers display answer args fs0 in
  Forall (λ e, match e with
               | EvTranscode _ output_path kw _ _ =>
                   (∃ base, output_path = base +:+ ".wav") ∧
                   kw !! "codec"
                   = Some (PStr (codec_of_format (args_format args)))
               | _ => True
               end) (trace (world o)).
Proof.
  intros Hi Hd Hne o. subst o. unfold main, VideoToAudioConverter.
  destruct (setup_logging FileHandler logger_handlers (args_log_file args)
              fs0) as [e|fs1]; [by constructor|].
  unfold main_with.
  rewrite Hi, Hd. change (default "" (Some d)) with d.
  assert (truthy (Some d) = true) as -> by (by destruct d).
  set (cb := if negb (args_verbose args) then Some display else None).
  destruct (convert_batch_Forall
              (λ e, match e with
                    | EvTranscode _ output_path kw _ _ =>
                        (∃ base, output_path = base +:+ ".wav") ∧
                        kw !! "codec"
                        = Some (PStr (codec_of_format (args_format args)))
                    | _ => True
                    end)
              E d (args_output_dir args)
              (Some (prepare_audio_parameters args)) cb (init fs1 ∅))
    as (r & evs & w' & -> & Htr & Hev); try done.
  - intros j total_count video_file w2 b evs1 w3 Hsr.
    apply Forall_forall. intros [| | | |c o kw h r| |] Hin; try done.
    destruct (single_run_forwarded _ _ _ _ _ _ _ _ _ _ _ _ _ _ Hsr Hin)
      as [-> Hf].
    split; [apply batch_output_path_wav|].
    by destruct (forwarded_options_of _ _ _ _ _ Hf) as [? _].
  - cbn [trace init] in Htr. rewrite app_nil_r in Htr. subst evs.
    destruct r as [[n t]|e]; [destruct (n =? t)%nat|]; done.
Qed.

Lemma cli_batch_format_sets_codec_not_name_witness :
  truthy (args_input verbose_batch_mp3_args) = false ∧
  args_directory verbose_batch_mp3_args = Some "videos" ∧
  "videos" ≠ "" ∧
  let o := main second_has_no_audio append_mode false silent_display None
                verbose_batch_mp3_args three_videos_fs in
  Forall (λ e, match e with
               | EvTranscode _ output_path kw _ _ =>
                   (∃ base, output_path = base +:+ ".wav") ∧
                   kw !! "codec"
                   = Some (PStr (codec_of_format
                                   (args_format verbose_batch_mp3_args)))
               | _ => True
               end) (trace (world o)).
Proof.
  split; [reflexivity|]. split; [reflexivity|]. split; [discriminate|].
  apply (cli_batch_format_sets_codec_not_name second_has_no_audio
           append_mode false silent_display None verbose_batch_mp3_args
           three_videos_fs "videos"); [reflexivity|reflexivity|discriminate].
Defined.

(** X15.  With [--verbose] a batch started from the command line ends in
    a program error only when the log file cannot be opened: the error is
    printed, nothing else is done and the exit status is 1.  Once the log
    file is open, its exit status is 0 exactly when as many conversions
    were logged as complete as videos were found, which is also so when
    none was found, and it prints the message for that case. *)
Theorem cli_verbose_batch_exit_status E FileHandler logger_handlers display
    answer args fs0 d :
  args_verbose args = true →
  truthy (args_input args) = false →
  args_directory args = Some d →
  d ≠ "" →
  let o := main E FileHandler logger_handlers display answer args fs0 in
  match setup_logging FileHandler logger_handlers (args_log_file args) fs0
  with
  | inl e =>
      exit_status o = Some 1%Z ∧ printed o = [PrProgramError e] ∧
      world o = init fs0 ∅
  | inr fs1 =>
      let found := length (get_video_files_from_directory fs1 d) in
      let done := length (converted (trace (world o))) in
      done ≤ found ∧
      exit_status o = Some (if decide (done = found) then 0 else 1)%Z ∧
      printed o = [PrStartBatch d;
                   if decide (done = found) then PrAllConverted
                   else PrSomeFailed done found]
  end.
Proof.
  intros Hv Hi Hd Hne o. subst o. unfold main, VideoToAudioConverter.
  destruct (setup_logging FileHandler logger_handlers (args_log_file args)
              fs0) as [e|fs1]; [done|].
  unfold main_with.
  rewrite Hv, Hi, Hd. cbn [negb]. change (default "" (Some d)) with d.
  assert (truthy (Some d) = true) as -> by (by destruct d).
  destruct (convert_batch_run E d (args_output_dir args)
              (Some (prepare_audio_parameters args)) None (init fs1 ∅))
    as (r & evs & w' & -> & Htr & _ & Hq).
  destruct (Hq I) as (-> & _ & Hle). clear Hq.
  cbn [trace init fs] in *. rewrite app_nil_r in Htr.
  destruct (Nat.eqb_spec (length (converted evs))
              (length (get_video_files_from_directory fs1 d))) as [Heq|Hneq];
    cbn [world exit_status printed app]; rewrite Htr;
    (split; [exact Hle|]).
  - by rewrite !decide_True.
  - by rewrite !decide_False.
Qed.

(** Three videos, the second without audio, and a log file that opens: two
    of three are converted and the status is 1; and the same command where
    no log file can be opened. *)
Lemma cli_verbose_batch_exit_status_witness :
  args_verbose verbose_batch_mp3_args = true ∧
  truthy (args_input verbose_batch_mp3_args) = false ∧
  args_directory verbose_batch_mp3_args = Some "videos" ∧
  "videos" ≠ "" ∧
  (let o := main second_has_no_audio append_mode false silent_display None
                 verbose_batch_mp3_args three_videos_fs in
   exit_status o = Some 1%Z ∧
   printed o = [PrStartBatch "videos"; PrSomeFailed 2 3]) ∧
  (let o := main second_has_no_audio read_only false silent_display None
                 verbose_batch_mp3_args three_videos_fs in
   exit_status o = Some 1%Z ∧
   printed o = [PrProgramError
                  (OSError "PermissionError: Permission denied")] ∧
   world o = init three_videos_fs ∅).
Proof.
  split; [reflexivity|]. split; [reflexivity|]. split; [reflexivity|].
  split; [discriminate|]. split.
  - pose proof (cli_verbose_batch_exit_status second_has_no_audio append_mode
                  false silent_display None verbose_batch_mp3_args
                  three_videos_fs "videos" eq_refl eq_refl eq_refl
                  ltac:(discriminate)) as H.
    destruct (setup_logging append_mode false
                (args_log_file verbose_batch_mp3_args) three_videos_fs)
      as [e|fs1] eqn:Hlog; [discriminate Hlog|].
    injection Hlog as <-. destruct H as (_ & Hexit & Hprinted).
    split; [rewrite Hexit|rewrite Hprinted]; vm_compute; reflexivity.
  - exact (cli_verbose_batch_exit_status second_has_no_audio read_only
             false silent_display None verbose_batch_mp3_args
             three_videos_fs "videos" eq_refl eq_refl eq_refl
             ltac:(discriminate)).
Defined.

(** X16.  In single-file mode [main] always ends with exit status 0 or 1.
    Status 0 means one of two things: the output was there, [--overwrite]
    was not given and the answer to the prompt was not [y], [yes] or [是],
    in which case nothing was opened or converted; or the conversion was
    logged as complete and the output file is there and not empty.  With
    [--overwrite] the prompt is never shown. *)
Theorem cli_single_file_exit_status E FileHandler logger_handlers display
    answer args fs0 input :
  args_input args = Some input →
  input ≠ "" →
  let o := main E FileHandler logger_handlers display answer args fs0 in
  ∃ output_path,
    (∀ p, args_output args = Some p → output_path = p) ∧
    (exit_status o = Some 0%Z ∨ exit_status o = Some 1%Z) ∧
    (exit_status o = Some 0%Z →
     (printed o = [PrStartFile input; PrOverwritePrompt output_path;
                  PrCancelled] ∧
      args_overwrite args = false ∧
      exists_in (fs (world o)) output_path = true ∧
      Forall is_mkdir (trace (world o)))
     ∨
     (printed o = [PrStartFile input; PrSuccess output_path] ∨
      printed o = [PrStartFile input; PrOverwritePrompt output_path;
                  PrSuccess output_path]) ∧
     nonempty_file (fs (world o)) output_path ∧
     converted (trace (world o)) = [output_path]) ∧
    (args_overwrite args = true → ∀ p, PrOverwritePrompt p ∉ printed o).
Proof.
  intros Hi Hne o. subst o. unfold main, VideoToAudioConverter.
  destruct (setup_logging FileHandler logger_handlers (args_log_file args)
              fs0) as [e|fs1].
  { exists (default "" (args_output args)).
    split; [by intros p ->|]. cbn [exit_status printed].
    split; [by right|]. split; [done|].
    intros _ p Hin. by apply list_elem_of_singleton in Hin. }
  unfold main_with. rewrite Hi.
  change (default "" (Some input)) with input.
  assert (truthy (Some input) = true) as -> by (by destruct input).
  match goal with
  | |- context [match ?m (init fs1 ∅) with _ => _ end] =>
      assert (∃ output_path w,
                m (init fs1 ∅) = (Ret output_path, w) ∧
                Forall is_mkdir (trace w) ∧
                ∀ p, args_output args = Some p → output_path = p)
        as (output_path & w & -> & Hmk & Hout)
  end.
  { destruct (args_output args) as [p|].
    - exists p, (init fs1 ∅). split; [done|]. split; [constructor|].
      by intros ? [= ->].
    - destruct (generate_output_path_run E input (args_output_dir args)
                  (args_format args) (init fs1 ∅))
        as (mk & fs' & -> & Hmk & _).
      eexists _, _. split; [done|]. cbn [trace init].
      rewrite app_nil_r. split; [done|]. by intros ? [=]. }
  exists output_path. split; [done|].
  set (cb := if negb (args_verbose args) then Some display else None).
  assert (converted (trace w) = []) as Hnone by (by apply converted_mkdirs).
  destruct (exists_in (fs w) output_path) eqn:Hex;
    destruct (args_overwrite args) eqn:Hov; cbn [andb negb].
  2:{ destruct answer as [response|]; [case_bool_decide|].
      - destruct (main_convert_file_exit E input output_path
                    (prepare_audio_parameters args) cb
                    ([PrStartFile input] ++ [PrOverwritePrompt output_path])
                    w) as (Hex1 & _ & Hzero).
        split; [done|]. split; [|done].
        intros H0. right. destruct (Hzero H0) as (? & -> & ->).
        rewrite Hnone. split; [by right|done].
      - cbn [exit_status printed world]. split; [by left|].
        split; [|done]. intros _. by left.
      - cbn [exit_status printed world]. split; [by right|].
        split; [|done]. done. }
  all: destruct (main_convert_file_exit E input output_path
                   (prepare_audio_parameters args) cb [PrStartFile input] w)
         as (Hex1 & (last & Hlast & Hno) & Hzero);
       (split; [done|]); split;
       [intros H0; right; destruct (Hzero H0) as (? & -> & ->);
        rewrite Hnone; split; [by left|done]
       |intros _ p Hin; rewrite Hlast in Hin;
        apply elem_of_cons in Hin as [Hin|Hin]; [done|];
        apply list_elem_of_singleton in Hin; by apply (Hno p)].
Qed.

Lemma cli_single_file_exit_status_witness :
  args_input single_file_args = Some "videos/a.mp4" ∧
  "videos/a.mp4" ≠ "" ∧
  let o := main second_has_no_audio append_mode false silent_display
                (Some "n") single_file_args three_videos_fs in
  ∃ output_path,
    (∀ p, args_output single_file_args = Some p → output_path = p) ∧
    (exit_status o = Some 0%Z ∨ exit_status o = Some 1%Z) ∧
    (exit_status o = Some 0%Z →
     (printed o = [PrStartFile "videos/a.mp4"; PrOverwritePrompt output_path;
                  PrCancelled] ∧
      args_overwrite single_file_args = false ∧
      exists_in (fs (world o)) output_path = true ∧
      Forall is_mkdir (trace (world o)))
     ∨
     (printed o = [PrStartFile "videos/a.mp4"; PrSuccess output_path] ∨
      printed o = [PrStartFile "videos/a.mp4"; PrOverwritePrompt output_path;
                  PrSuccess output_path]) ∧
     nonempty_file (fs (world o)) output_path ∧
     converted (trace (world o)) = [output_path]) ∧
    (args_overwrite single_file_args = true →
     ∀ p, PrOverwritePrompt p ∉ printed o).
Proof.
  split; [reflexivity|]. split; [discriminate|].
  apply (cli_single_file_exit_status second_has_no_audio append_mode false
           silent_display (Some "n") single_file_args three_videos_fs
           "videos/a.mp4");
    [reflexivity|discriminate].
Defined.

(** ** Paths of files in a directory *)

Lemma split_none c x : Str.contains c x = false → Str.split c x = [x].
Proof.
  induction x as [|a x IH]; [done|]. simpl.
  intros [Ha Hx]%orb_false_iff. by rewrite Ha, IH.
Qed.

Lemma split_snoc c p x :
  Str.contains c x = false →
  Str.split c (p +:+ String c x) = Str.split c p ++ [x].
Proof.
  intros Hx. induction p as [|a p IH].
  - rewrite str_app_nil. simpl. by rewrite Ascii.eqb_refl, split_none.
  - rewrite str_app_cons. simpl. rewrite IH.
    destruct (Ascii.eqb a c); [done|].
    pose proof (split_nonempty c p). by destruct (Str.split c p).
Qed.

Lemma endswith_cons c a s : s ≠ "" → Str.endswith c (String a s) = Str.endswith c s.
Proof. by destruct s. Qed.

(** The root of a path is found in the directory part, which loses at most
    its leading separators. *)
Lemma splitroot_app pre :
  pre = "" ∨ Str.endswith sep pre = true →
  ∃ r pre',
    (pre' = "" ∨ Str.endswith sep pre' = true) ∧
    ∀ x, x ≠ "" → Str.contains sep x = false →
         Path.splitroot (pre +:+ x) = (r, pre' +:+ x).
Proof.
  intros Hpre.
  assert (∀ x, x ≠ "" → Str.contains sep x = false →
               ∃ a x', x = String a x' ∧ Ascii.eqb a sep = false) as Hx.
  { intros [|a x'] Hne Hc; [done|]. exists a, x'. split; [done|].
    simpl in Hc. by apply orb_false_iff in Hc as [-> _]. }
  destruct pre as [|a [|b [|c pre]]].
  - exists "", "". split; [by left|]. intros x Hne Hc.
    destruct (Hx x Hne Hc) as (a & x' & -> & Ha).
    rewrite str_app_nil.
    destruct x' as [|b [|c x']]; cbv [Path.splitroot]; by rewrite Ha.
  - destruct Hpre as [|He]; [done|]. simpl in He.
    apply Ascii.eqb_eq in He as ->.
    exists "/", "". split; [by left|]. intros x Hne Hc.
    destruct (Hx x Hne Hc) as (a & x' & -> & Ha).
    rewrite str_app_cons, !str_app_nil.
    destruct x' as [|c x']; cbv [Path.splitroot];
      by rewrite Ascii.eqb_refl, Ha.
  - destruct Hpre as [|He]; [done|]. simpl in He.
    apply Ascii.eqb_eq in He as ->.
    destruct (Ascii.eqb a sep) eqn:Ha.
    + apply Ascii.eqb_eq in Ha as ->.
      exists "//", "". split; [by left|]. intros x Hne Hc.
      destruct (Hx x Hne Hc) as (a & x' & -> & Ha).
      rewrite !str_app_cons, !str_app_nil.
      cbv [Path.splitroot]. by rewrite !Ascii.eqb_refl, Ha.
    + exists "", (String a (String sep "")). split; [by right|].
      intros x Hne Hc. destruct (Hx x Hne Hc) as (a' & x' & -> & Ha').
      rewrite !str_app_cons, !str_app_nil.
      cbv [Path.splitroot]. by rewrite Ha.
  - destruct Hpre as [|He]; [done|].
    assert (Str.endswith sep (String b (String c pre)) = true) as Hb
      by (by rewrite endswith_cons in He).
    assert (Str.endswith sep (String c pre) = true) as Hc
      by (by rewrite endswith_cons in Hb).
    destruct (Ascii.eqb a sep) eqn:Ha; [destruct (Ascii.eqb b sep) eqn:Hb';
      [destruct (Ascii.eqb c sep) eqn:Hc'|]|].
    + exists "/", (String b (String c pre)). split; [by right|].
      intros x _ _. rewrite !str_app_cons. cbv [Path.splitroot].
      by rewrite Ha, Hb', Hc'.
    + exists "//", (String c pre). split; [by right|].
      intros x _ _. rewrite !str_app_cons. cbv [Path.splitroot].
      by rewrite Ha, Hb', Hc'.
    + exists "/", (String b (String c pre)). split; [by right|].
      intros x _ _. rewrite !str_app_cons. cbv [Path.splitroot].
      by rewrite Ha, Hb'.
    + exists "", (String a (String b (String c pre))). split; [by right|].
      intros x _ _. rewrite !str_app_cons. cbv [Path.splitroot].
      by rewrite Ha.
Qed.

(** A path made of a directory part and a file name parses into the parts
    of the directory followed by the name. *)
Lemma parse_app pre :
  pre = "" ∨ Str.endswith sep pre = true →
  ∃ r tl, ∀ x,
    Path.keep_part x = true → Str.contains sep x = false →
    Path.parse (pre +:+ x) = Path.mk r (tl ++ [x]).
Proof.
  intros Hpre. destruct (splitroot_app pre Hpre) as (r & pre' & Hpre' & Hsplit).
  destruct Hpre' as [->|He].
  - exists r, []. intros x Hk Hc. unfold Path.parse.
    rewrite Hsplit, str_app_nil, split_none by (done || by destruct x).
    simpl. by rewrite Hk.
  - apply endswith_app in He as [q ->].
    exists r, (List.filter Path.keep_part (Str.split sep q)).
    intros x Hk Hc. unfold Path.parse.
    rewrite Hsplit by (done || by destruct x).
    rewrite app_assoc_str, str_app_cons, str_app_nil, split_snoc by done.
    rewrite List.filter_app. simpl. by rewrite Hk.
Qed.

Lemma join_prefix a :
  ∃ pre, (pre = "" ∨ Str.endswith sep pre = true) ∧
         ∀ x, Str.contains sep x = false → os_path.join a x = pre +:+ x.
Proof.
  exists (if Str.is_empty a || Str.endswith sep a then a
          else a +:+ String sep "").
  split.
  - destruct (Str.is_empty a || Str.endswith sep a) eqn:Ha.
    + apply orb_true_iff in Ha as [Ha|Ha]; [left; by destruct a|by right].
    + right. clear Ha. induction a as [|c a IH]; [done|].
      rewrite str_app_cons, endswith_cons; [done|by destruct a].
  - intros x Hx. apply join_relative.
    destruct (Str.startswith sep x) eqn:Hs; [|done].
    apply startswith_contains in Hs. congruence.
Qed.

(** A file name joined under a directory parses into the parts of the
    directory, which do not depend on the name, followed by the name. *)
Lemma parse_join a :
  ∃ r tl, ∀ x,
    Path.keep_part x = true → Str.contains sep x = false →
    Path.parse (os_path.join a x) = Path.mk r (tl ++ [x]).
Proof.
  destruct (join_prefix a) as (pre & Hpre & Hjoin).
  destruct (parse_app pre Hpre) as (r & tl & Hparse).
  exists r, tl. intros x Hk Hc. rewrite Hjoin by done. by apply Hparse.
Qed.

Lemma last_snoc_str (l : list string) x d : List.last (l ++ [x]) d = x.
Proof. apply List.last_last. Qed.

Lemma keep_part_file_name s e : e ≠ "" → Path.keep_part (s +:+ String dot e) = true.
Proof.
  intros He. unfold Path.keep_part.
  destruct s as [|a s]; [|destruct s; simpl; by destruct (Ascii.eqb a ".")].
  rewrite str_app_nil. destruct e as [|b e]; [done|]. done.
Qed.

Lemma file_name_no_sep s e :
  Str.contains sep s = false → Str.contains sep e = false →
  Str.contains sep (s +:+ String dot e) = false.
Proof. intros Hs He. rewrite contains_app, Hs. simpl. by rewrite He. Qed.

(** The stem and the suffix of [s.e] in a directory. *)
Lemma stem_suffix_join a s e :
  Str.contains sep s = false → Str.contains sep e = false →
  Str.contains dot e = false → e ≠ "" →
  let p := Path.parse (os_path.join a (s +:+ String dot e)) in
  Path.name p = s +:+ String dot e ∧
  Path.suffix p = (if Str.is_empty s then "" else String dot e) ∧
  Path.stem p = (if Str.is_empty s then String dot e else s).
Proof.
  intros Hs He Hd Hne p. subst p.
  destruct (parse_join a) as (r & tl & Hparse).
  rewrite Hparse by (by apply keep_part_file_name || by apply file_name_no_sep).
  unfold Path.suffix, Path.stem, Path.name. cbn [Path.tail].
  rewrite last_snoc_str, rsplit_last by done.
  split; [done|]. destruct s, e; done.
Qed.

(** X17.  An output of [generate_output_path] is never taken for a video:
    for a format without separator or dot that is not a video extension,
    [wav] among them, [validate_file_extension] rejects the path, so that a
    later batch over the same directory does not pick the outputs up; and
    when the source has a stem, the output has the same stem and the format
    as its suffix. *)
Theorem generated_output_is_no_video E input_path output_dir output_format w :
  Str.contains sep output_format = false →
  Str.contains dot output_format = false →
  output_format ≠ "" →
  (String dot (Str.lower output_format) ∉ SUPPORTED_VIDEO_FORMATS) →
  ∃ p w',
    generate_output_path E input_path output_dir output_format w
    = (Ret p, w') ∧
    validate_file_extension p = false ∧
    (Path.stem (Path.parse input_path) ≠ "" →
     Path.stem (Path.parse p) = Path.stem (Path.parse input_path) ∧
     Path.suffix (Path.parse p) = String dot output_format).
Proof.
  intros Hsep Hdot Hne Hfmt.
  destruct (generate_output_path_run E input_path output_dir output_format w)
    as (evs & fs' & -> & _).
  eexists _, _. split; [reflexivity|].
  set (s := Path.stem (Path.parse input_path)).
  assert (∀ a,
            let p := Path.parse (os_path.join a (s +:+ String dot output_format)) in
            Path.suffix p = (if Str.is_empty s then ""
                             else String dot output_format) ∧
            Path.stem p = (if Str.is_empty s then String dot output_format
                           else s)) as Hp.
  { intros a. apply stem_suffix_join; try done. apply stem_no_sep. }
  assert (∀ a, validate_file_extension
                 (os_path.join a (s +:+ String dot output_format)) = false)
    as Hv.
  { intros a. unfold validate_file_extension.
    destruct (Hp a) as [-> _]. apply bool_decide_eq_false.
    destruct (Str.is_empty s); [|done]. vm_compute. set_solver. }
  destruct (truthy output_dir).
  - split; [apply Hv|]. intros Hs. destruct (Hp (default "" output_dir)) as [-> ->].
    by destruct s.
  - split; [apply Hv|]. intros Hs.
    destruct (Hp (Path.to_str (Path.parent (Path.parse input_path))))
      as [-> ->].
    by destruct s.
Qed.

Lemma generated_output_is_no_video_witness :
  Str.contains sep "wav" = false ∧
  Str.contains dot "wav" = false ∧
  "wav" ≠ "" ∧
  (String dot (Str.lower "wav") ∉ SUPPORTED_VIDEO_FORMATS) ∧
  ∃ p w',
    generate_output_path second_has_no_audio "videos/a.mp4" None "wav"
                         (init three_videos_fs ∅) = (Ret p, w') ∧
    validate_file_extension p = false ∧
    (Path.stem (Path.parse "videos/a.mp4") ≠ "" →
     Path.stem (Path.parse p) = Path.stem (Path.parse "videos/a.mp4") ∧
     Path.suffix (Path.parse p) = String dot "wav").
Proof.
  assert (String dot (Str.lower "wav") ∉ SUPPORTED_VIDEO_FORMATS) as Hno.
  { apply (bool_decide_unpack _). reflexivity. }
  split; [reflexivity|]. split; [reflexivity|]. split; [discriminate|].
  split; [exact Hno|].
  apply (generated_output_is_no_video second_has_no_audio "videos/a.mp4" None
           "wav" (init three_videos_fs ∅));
    [reflexivity|reflexivity|discriminate|exact Hno].
Defined.

(** X18.  Two sources in one directory whose names differ in the extension
    only get the same output path: the second conversion of a batch
    overwrites the output of the first. *)
Theorem same_stem_same_output d s e1 e2 :
  s ≠ "" →
  Str.contains sep s = false →
  e1 ≠ "" → Str.contains sep e1 = false → Str.contains dot e1 = false →
  e2 ≠ "" → Str.contains sep e2 = false → Str.contains dot e2 = false →
  resolved_output (os_path.join d (s +:+ String dot e1)) None
  = resolved_output (os_path.join d (s +:+ String dot e2)) None ∧
  ∀ E input_dir,
    batch_output_path E input_dir None (os_path.join d (s +:+ String dot e1))
    = batch_output_path E input_dir None
        (os_path.join d (s +:+ String dot e2)).
Proof.
  intros Hs Hss H1 H1s H1d H2 H2s H2d.
  assert (∀ e, e ≠ "" → Str.contains sep e = false →
               Str.contains dot e = false →
               ∃ r tl,
                 (∀ x, Path.keep_part x = true → Str.contains sep x = false →
                       Path.parse (os_path.join d x) = Path.mk r (tl ++ [x])) ∧
                 resolved_output (os_path.join d (s +:+ String dot e)) None
                 = os_path.join (Path.to_str (Path.mk r tl))
                                (s +:+ String dot "wav")) as Hout.
  { intros e He Hes Hed.
    destruct (parse_join d) as (r & tl & Hparse). exists r, tl.
    split; [done|]. unfold resolved_output.
    destruct (stem_suffix_join d s e) as (_ & _ & ->); try done.
    rewrite Hparse by (by apply keep_part_file_name || by apply file_name_no_sep).
    unfold Path.parent. cbn [Path.tail Path.root].
    rewrite List.removelast_last.
    destruct s; [done|]. by destruct tl. }
  assert (resolved_output (os_path.join d (s +:+ String dot e1)) None
          = resolved_output (os_path.join d (s +:+ String dot e2)) None) as Heq.
  { destruct (Hout e1) as (r1 & tl1 & Hp1 & ->); try done.
    destruct (Hout e2) as (r2 & tl2 & Hp2 & ->); try done.
    assert (Path.mk r1 (tl1 ++ ["x"]) = Path.mk r2 (tl2 ++ ["x"])) as Hsame
      by (by rewrite <- Hp1, <- Hp2).
    injection Hsame as -> Htl. by apply app_inv_tail in Htl as ->. }
  split; [exact Heq|]. intros E input_dir. exact Heq.
Qed.

Lemma same_stem_same_output_witness :
  "a" ≠ "" ∧ Str.contains sep "a" = false ∧
  "mp4" ≠ "" ∧ Str.contains sep "mp4" = false ∧
  Str.contains dot "mp4" = false ∧
  "avi" ≠ "" ∧ Str.contains sep "avi" = false ∧
  Str.contains dot "avi" = false ∧
  resolved_output (os_path.join "videos" ("a" +:+ String dot "mp4")) None
  = resolved_output (os_path.join "videos" ("a" +:+ String dot "avi")) None ∧
  ∀ E input_dir,
    batch_output_path E input_dir None
      (os_path.join "videos" ("a" +:+ String dot "mp4"))
    = batch_output_path E input_dir None
        (os_path.join "videos" ("a" +:+ String dot "avi")).
Proof.
  repeat (split; [first [reflexivity | discriminate]|]).
  apply (same_stem_same_output "videos" "a" "mp4" "avi");
    first [reflexivity | discriminate].
Defined.

Lemma lower_ascii_idemp a : Str.lower_ascii (Str.lower_ascii a) = Str.lower_ascii a.
Proof.
  unfold Str.lower_ascii.
  destruct ((65 <=? nat_of_ascii a) && (nat_of_ascii a <=? 90)) eqn:Hup;
    [|by rewrite Hup].
  apply andb_true_iff in Hup as [H1%Nat.leb_le H2%Nat.leb_le].
  rewrite nat_ascii_embedding by lia.
  destruct (Nat.leb_spec (nat_of_ascii a + 32) 90); [lia|].
  by rewrite andb_false_r.
Qed.

Lemma lower_idemp s : Str.lower (Str.lower s) = Str.lower s.
Proof.
  induction s as [|a s IH]; [done|]. simpl. by rewrite lower_ascii_idemp, IH.
Qed.

(** X19.  [validate_file_extension] lower-cases the suffix of the file but
    not the formats it is given: a format with an upper-case letter in a
    caller's set matches no file at all, and an empty set, which is not
    [None], rejects every file instead of standing for the default. *)
Theorem custom_formats_must_be_lower_case file_path (formats : gset string) :
  (validate_file_extension_in file_path (Some formats) = true →
   ∃ ext, ext ∈ formats ∧ Str.lower ext = ext ∧
          Str.lower (Path.suffix (Path.parse file_path)) = ext) ∧
  ((∀ ext, ext ∈ formats → Str.lower ext ≠ ext) →
   validate_file_extension_in file_path (Some formats) = false) ∧
  validate_file_extension_in file_path (Some ∅) = false ∧
  validate_file_extension_in file_path None
  = validate_file_extension file_path.
Proof.
  assert (validate_file_extension_in file_path (Some formats) = true →
          ∃ ext, ext ∈ formats ∧ Str.lower ext = ext ∧
                 Str.lower (Path.suffix (Path.parse file_path)) = ext) as H1.
  { unfold validate_file_extension_in. intros Hin%bool_decide_eq_true.
    eexists. split; [exact Hin|]. split; [apply lower_idemp|done]. }
  split; [exact H1|]. split; [|split; [|done]].
  - intros Hup.
    destruct (validate_file_extension_in file_path (Some formats)) eqn:Hv;
      [|done].
    destruct (H1 eq_refl) as (ext & Hin & Hlow & _). by destruct (Hup ext).
  - unfold validate_file_extension_in. apply bool_decide_eq_false. set_solver.
Qed.
